(** * veridjs: signed, time-ordered 18-byte identifiers

    A shallow embedding of the TypeScript sources (Base32Encoder, HMACSigner,
    ByteUtils, TimeUtils, NodeIdResolver, VIDGenerator, VIDVerifier, VIDValue,
    VIDParser, the two database adapters and the VID facade), the properties
    the specification states about them, and further properties of the code.

    Conventions of the embedding:
    - a JavaScript number that the code only uses as an integer is a [Z];
      the 32-bit bitwise operators are written out with their wrap-around;
    - a [Uint8Array] is a [list byte]; an indexed store outside the array is
      dropped, which is what stdpp's list insert does;
    - a string is the list of its UTF-16 code units;
    - a function that can throw returns a [result]. *)

From Stdlib Require Import ZArith NArith List Bool Lia String Ascii Sorting.Sorted.
From Stdlib Require Import Init.Byte.
From stdpp Require Import base list.
Import ListNotations.
Local Open Scope Z_scope.

(* ================================================================== *)
(** * Part I: the embedding                                            *)
(* ================================================================== *)

(** ** Errors *)

Inductive exn : Set := TypeError | RangeError | Error.

Inductive result (A : Type) : Type :=
| Returned (a : A)
| Threw (e : exn).
Arguments Returned {A} a.
Arguments Threw {A} e.

Definition bind {A B} (r : result A) (k : A -> result B) : result B :=
  match r with
  | Returned a => k a
  | Threw e => Threw e
  end.

Notation "'let*' x ':=' r 'in' k" := (bind r (fun x => k))
  (at level 10, x pattern, r at level 100, k at level 200).

(** [try { r } catch { h }] *)
Definition tryCatch {A} (r : result A) (h : result A) : result A :=
  match r with
  | Returned a => Returned a
  | Threw _ => h
  end.

(** ** Numbers, bytes and strings of the host language *)

Module JS.

(** A [number] where the code first asks [Number.isInteger]: the finite
    non-integers, NaN and the infinities all answer no and are then not
    looked at again, so they need no payload. *)
Inductive number : Set :=
| Int (z : Z)
| NonInt.

Definition isInteger (n : number) : bool :=
  match n with Int _ => true | NonInt => false end.

(** ToInt32 and ToUint32 of an integer-valued number. *)
Definition toUint32 (z : Z) : Z := z mod 2 ^ 32.

Definition toInt32 (z : Z) : Z :=
  let m := z mod 2 ^ 32 in
  if m <? 2 ^ 31 then m else m - 2 ^ 32.

(** [a << n], [a >>> n], [a | b], [a & b]. *)
Definition shl (a n : Z) : Z := toInt32 (Z.shiftl (toInt32 a) (Z.land n 31)).
Definition ushr (a n : Z) : Z := Z.shiftr (toUint32 a) (Z.land n 31).
Definition bor (a b : Z) : Z := toInt32 (Z.lor (toInt32 a) (toInt32 b)).
Definition band (a b : Z) : Z := toInt32 (Z.land (toInt32 a) (toInt32 b)).

(** Elements of a [Uint8Array]. A store keeps the value modulo 256. *)
Abbreviation bytes := (list byte).

Definition byteZ (b : byte) : Z := Z.of_N (Byte.to_N b).

Definition Zbyte (z : Z) : byte :=
  match Byte.of_N (Z.to_N (z mod 256)) with
  | Some b => b
  | None => x00
  end.

(** [new Uint8Array(n)] *)
Definition newUint8Array (n : nat) : bytes := replicate n x00.

(** [a.subarray(begin, end)] for [0 <= begin <= end]. *)
Definition subarray (a : bytes) (b e : nat) : bytes := take (e - b) (drop b a).

(** [n] bytes of an unsigned integer, most significant first, and back:
    the byte order of [DataView] and of the digests. *)
Fixpoint bigEndian (n : nat) (z : Z) : bytes :=
  match n with
  | O => []
  | S n' => Zbyte (z / 256 ^ Z.of_nat n') :: bigEndian n' z
  end.

Definition fromBigEndian (bs : bytes) : Z :=
  fold_left (fun acc b => acc * 256 + byteZ b) bs 0.

(** [DataView.setUint8/16/32] and [getUint8/16/32] at an offset where the
    field fits: the integer is taken modulo its width, big-endian. *)
Definition setUint (width : nat) (view : bytes) (offset : nat) (v : Z) : bytes :=
  take offset view ++ bigEndian width v ++ drop (offset + width) view.

Definition getUint (width : nat) (view : bytes) (offset : nat) : Z :=
  fromBigEndian (take width (drop offset view)).

(** Strings: UTF-16 code units. *)
Abbreviation jsstring := (list N).

Definition js (s : string) : jsstring := map N_of_ascii (list_ascii_of_string s).

Definition charCodeAt (s : jsstring) (i : nat) : N := nth i s 0%N.

(** White space and line terminators, the code points [trim] strips. *)
Definition isWhiteSpace (c : N) : bool :=
  ((9 <=? c) && (c <=? 13) || (c =? 32) || (c =? 160) || (c =? 5760)
   || (8192 <=? c) && (c <=? 8202) || (c =? 8232) || (c =? 8233)
   || (c =? 8239) || (c =? 8287) || (c =? 12288) || (c =? 65279))%N.

Fixpoint trimStart (s : jsstring) : jsstring :=
  match s with
  | c :: s' => if isWhiteSpace c then trimStart s' else s
  | [] => []
  end.

Definition trim (s : jsstring) : jsstring := rev (trimStart (rev (trimStart s))).

Definition isAscii (c : N) : bool := (c <=? 127)%N.

Definition upperAscii (c : N) : N :=
  if ((97 <=? c) && (c <=? 122))%N then (c - 32)%N else c.

Section CaseMapping.

(** The case mapping of a string that has a code unit above 127 follows the
    Unicode tables of the host (it can even change the length); the code
    below never depends on what it is, so it stays a parameter. *)
Variable unicodeUpper : jsstring -> jsstring.

Definition toUpperCase (s : jsstring) : jsstring :=
  if forallb isAscii s then map upperAscii s else unicodeUpper s.

End CaseMapping.

(** [/^[A-Z2-7]{n}$/.test(s)] *)
Definition isBase32Char (c : N) : bool :=
  ((65 <=? c) && (c <=? 90) || (50 <=? c) && (c <=? 55))%N.

Definition testBase32 (n : nat) (s : jsstring) : bool :=
  (length s =? n)%nat && forallb isBase32Char s.

(** UTF-8 bytes of a string, as [hash.update(s, "utf8")] feeds them: a
    surrogate pair is one code point, a lone surrogate becomes U+FFFD. *)
Definition utf8CodePoint (p : Z) : bytes :=
  if p <? 128 then [Zbyte p]
  else if p <? 2048 then [Zbyte (192 + p / 64); Zbyte (128 + p mod 64)]
  else if p <? 65536 then
    [Zbyte (224 + p / 4096); Zbyte (128 + (p / 64) mod 64); Zbyte (128 + p mod 64)]
  else
    [Zbyte (240 + p / 262144); Zbyte (128 + (p / 4096) mod 64);
     Zbyte (128 + (p / 64) mod 64); Zbyte (128 + p mod 64)].

Definition isHighSurrogate (c : N) : bool := ((55296 <=? c) && (c <=? 56319))%N.
Definition isLowSurrogate (c : N) : bool := ((56320 <=? c) && (c <=? 57343))%N.

Fixpoint utf8 (s : jsstring) : bytes :=
  match s with
  | [] => []
  | c :: s' =>
      if isHighSurrogate c then
        match s' with
        | d :: s'' =>
            if isLowSurrogate d
            then utf8CodePoint (65536 + (Z.of_N c - 55296) * 1024 + (Z.of_N d - 56320))
                 ++ utf8 s''
            else utf8CodePoint 65533 ++ utf8 s'
        | [] => utf8CodePoint 65533
        end
      else if isLowSurrogate c then utf8CodePoint 65533 ++ utf8 s'
      else utf8CodePoint (Z.of_N c) ++ utf8 s'
  end.

End JS.
Import JS.

(** ** The hash functions of the host's [crypto] module

    [crypto.createHash("sha256")] and [crypto.createHmac("sha256", key)] are
    not part of the repository; they are written out here from FIPS 180-4
    and RFC 2104 so that the signer can be run. *)

Module Sha256.

Definition isPrime (n : nat) : bool :=
  forallb (fun d => negb (n mod d =? 0)%nat) (seq 2 (n - 2)).

Definition primes64 : list Z :=
  Eval vm_compute in map Z.of_nat (filter isPrime (seq 2 310)).

(** Integer cube root, one bit at a time. *)
Definition icbrt (n : Z) : Z :=
  fold_left (fun r i => let r' := r + 2 ^ Z.of_nat i in
                        if r' * r' * r' <=? n then r' else r)
            (rev (seq 0 40)) 0.

(** The round constants: the first 32 bits of the fractional parts of the
    cube roots of the first 64 primes. *)
Definition K : list Z :=
  Eval vm_compute in map (fun p => icbrt (p * 2 ^ 96) mod 2 ^ 32) primes64.

(** The initial hash value: the same of the square roots of the first 8. *)
Definition H0 : list Z :=
  Eval vm_compute in map (fun p => Z.sqrt (p * 2 ^ 64) mod 2 ^ 32) (take 8 primes64).

Definition add32 (x y : Z) : Z := (x + y) mod 2 ^ 32.
Definition rotr (n x : Z) : Z :=
  Z.lor (Z.shiftr x n) (Z.shiftl x (32 - n) mod 2 ^ 32).
Definition not32 (x : Z) : Z := 2 ^ 32 - 1 - x.

Definition Ch (x y z : Z) : Z := Z.lxor (Z.land x y) (Z.land (not32 x) z).
Definition Maj (x y z : Z) : Z :=
  Z.lxor (Z.lxor (Z.land x y) (Z.land x z)) (Z.land y z).
Definition bigSigma0 (x : Z) : Z := Z.lxor (Z.lxor (rotr 2 x) (rotr 13 x)) (rotr 22 x).
Definition bigSigma1 (x : Z) : Z := Z.lxor (Z.lxor (rotr 6 x) (rotr 11 x)) (rotr 25 x).
Definition smallSigma0 (x : Z) : Z := Z.lxor (Z.lxor (rotr 7 x) (rotr 18 x)) (Z.shiftr x 3).
Definition smallSigma1 (x : Z) : Z := Z.lxor (Z.lxor (rotr 17 x) (rotr 19 x)) (Z.shiftr x 10).

(** Padding: a one bit, zeros up to 56 modulo 64, the bit length on 8 bytes. *)
Definition pad (msg : bytes) : bytes :=
  let n := length msg in
  msg ++ [Zbyte 128] ++ replicate ((119 - n mod 64) mod 64)%nat x00
      ++ bigEndian 8 (8 * Z.of_nat n).

Fixpoint chunks {A} (size fuel : nat) (l : list A) : list (list A) :=
  match fuel with
  | O => []
  | S fuel' =>
      match l with
      | [] => []
      | _ => take size l :: chunks size fuel' (drop size l)
      end
  end.

Definition blockWords (block : bytes) : list Z :=
  map fromBigEndian (chunks 4 16 block).

(** The message schedule, newest word first. *)
Definition scheduleStep (w : list Z) : list Z :=
  add32 (add32 (smallSigma1 (nth 1 w 0)) (nth 6 w 0))
        (add32 (smallSigma0 (nth 14 w 0)) (nth 15 w 0)) :: w.

Definition schedule (block : bytes) : list Z :=
  rev (Nat.iter 48 scheduleStep (rev (blockWords block))).

Record state : Set := State { sa : Z; sb : Z; sc : Z; sd : Z; se : Z; sf : Z; sg : Z; sh : Z }.

Definition round (s : state) (kw : Z * Z) : state :=
  let t1 := add32 (add32 (add32 (sh s) (bigSigma1 (se s)))
                         (add32 (Ch (se s) (sf s) (sg s)) (fst kw))) (snd kw) in
  let t2 := add32 (bigSigma0 (sa s)) (Maj (sa s) (sb s) (sc s)) in
  State (add32 t1 t2) (sa s) (sb s) (sc s) (add32 (sd s) t1) (se s) (sf s) (sg s).

Definition compress (s : state) (block : bytes) : state :=
  let r := fold_left round (combine K (schedule block)) s in
  State (add32 (sa s) (sa r)) (add32 (sb s) (sb r)) (add32 (sc s) (sc r))
        (add32 (sd s) (sd r)) (add32 (se s) (se r)) (add32 (sf s) (sf r))
        (add32 (sg s) (sg r)) (add32 (sh s) (sh r)).

Definition initial : state :=
  State (nth 0 H0 0) (nth 1 H0 0) (nth 2 H0 0) (nth 3 H0 0)
        (nth 4 H0 0) (nth 5 H0 0) (nth 6 H0 0) (nth 7 H0 0).

Definition digest (s : state) : bytes :=
  bigEndian 4 (sa s) ++ bigEndian 4 (sb s) ++ bigEndian 4 (sc s) ++ bigEndian 4 (sd s)
  ++ bigEndian 4 (se s) ++ bigEndian 4 (sf s) ++ bigEndian 4 (sg s) ++ bigEndian 4 (sh s).

Definition sha256 (msg : bytes) : bytes :=
  let p := pad msg in
  digest (fold_left compress (chunks 64 (length p) p) initial).

(** RFC 2104 with a block of 64 bytes. *)
Definition xorPad (c : Z) (key : bytes) : bytes :=
  map (fun b => Zbyte (Z.lxor (byteZ b) c)) key.

Definition hmacSha256 (key msg : bytes) : bytes :=
  let k := if (64 <? length key)%nat then sha256 key else key in
  let k := k ++ replicate (64 - length k) x00 in
  sha256 (xorPad 92 k ++ sha256 (xorPad 54 k ++ msg)).

End Sha256.

(** ** Base32Encoder *)

Module Base32Encoder.

Definition ALPHABET : jsstring := js "ABCDEFGHIJKLMNOPQRSTUVWXYZ234567".
Definition BITS_PER_CHAR : Z := 5.
Definition BITS_PER_BYTE : Z := 8.
Definition VID_BINARY_BYTES : nat := 18.
(** [Math.ceil((VID_BINARY_BYTES * BITS_PER_BYTE) / BITS_PER_CHAR)] *)
Definition VID_STRING_CHARS : nat :=
  Z.to_nat (- (- (Z.of_nat VID_BINARY_BYTES * BITS_PER_BYTE) / BITS_PER_CHAR)).
Definition CHAR_MASK : Z := shl 1 BITS_PER_CHAR - 1.
Definition BYTE_MASK : Z := shl 1 BITS_PER_BYTE - 1.
Definition MAX_ASCII : N := 127.

(** [ALPHABET[i]]; every index the encoder forms is masked to 0..31. *)
Definition alphabetAt (i : Z) : N := charCodeAt ALPHABET (Z.to_nat i).

(** The [Int16Array] of 128 entries, -1 except at the alphabet's codes. *)
Definition DECODE_LOOKUP : list Z :=
  fold_left (fun table i => <[N.to_nat (charCodeAt ALPHABET i) := Z.of_nat i]> table)
            (seq 0 (length ALPHABET)) (replicate (N.to_nat MAX_ASCII + 1) (-1)).

(** [while (bits >= BITS_PER_CHAR) { bits -= 5; output += ALPHABET[...] }];
    every turn lowers [bits], so [bits] turns are enough. *)
Fixpoint emitChars (fuel : nat) (bits value : Z) (output : jsstring) : Z * jsstring :=
  match fuel with
  | O => (bits, output)
  | S fuel' =>
      if BITS_PER_CHAR <=? bits then
        let bits := bits - BITS_PER_CHAR in
        emitChars fuel' bits value (output ++ [alphabetAt (band (ushr value bits) CHAR_MASK)])
      else (bits, output)
  end.

(** The body of the [for] loop of [encode]. *)
Definition encodeByte (st : Z * Z * jsstring) (b : byte) : Z * Z * jsstring :=
  let '(bits, value, output) := st in
  let value := bor (shl value BITS_PER_BYTE) (byteZ b) in
  let bits := bits + BITS_PER_BYTE in
  let '(bits, output) := emitChars (Z.to_nat bits) bits value output in
  (bits, value, output).

Definition encode (input : bytes) : result jsstring :=
  if negb (length input =? VID_BINARY_BYTES)%nat then Threw RangeError
  else
    let '(bits, value, output) := fold_left encodeByte input (0, 0, []) in
    Returned (if 0 <? bits
              then output ++ [alphabetAt (band (shl value (BITS_PER_CHAR - bits)) CHAR_MASK)]
              else output).

(** The body of the [for] loop of [decode]: the state is
    [(bits, value, output, outputIndex)]. *)
Definition decodeChar (st : Z * Z * bytes * nat) (charCode : N)
  : result (Z * Z * bytes * nat) :=
  let '(bits, value, output, outputIndex) := st in
  if (MAX_ASCII <? charCode)%N then Threw Error
  else
    let charValue := nth (N.to_nat charCode) DECODE_LOOKUP 0 in
    if charValue =? -1 then Threw Error
    else
      let value := bor (shl value BITS_PER_CHAR) charValue in
      let bits := bits + BITS_PER_CHAR in
      if BITS_PER_BYTE <=? bits then
        let bits := bits - BITS_PER_BYTE in
        Returned (bits, value,
                  <[outputIndex := Zbyte (band (ushr value bits) BYTE_MASK)]> output,
                  S outputIndex)
      else Returned (bits, value, output, outputIndex).

Fixpoint decodeLoop (normalized : jsstring) (st : Z * Z * bytes * nat)
  : result (Z * Z * bytes * nat) :=
  match normalized with
  | [] => Returned st
  | c :: rest => let* st' := decodeChar st c in decodeLoop rest st'
  end.

Section Decode.
Variable unicodeUpper : jsstring -> jsstring.

Definition decode (input : jsstring) : result bytes :=
  let normalized := toUpperCase unicodeUpper (trim input) in
  if negb (length normalized =? VID_STRING_CHARS)%nat then Threw RangeError
  else
    let* (_, _, output, outputIndex) :=
      decodeLoop normalized (0, 0, newUint8Array VID_BINARY_BYTES, O) in
    if negb (outputIndex =? VID_BINARY_BYTES)%nat then Threw RangeError
    else Returned output.

End Decode.
End Base32Encoder.

(** ** VIDValue and the values a caller can pass *)

Record VIDValue : Type := { binary : bytes; _cachedString : option jsstring }.

Inductive jsval : Type :=
| VNull
| VUndefined
| VString (s : jsstring)
| VNumber (n : number)
| VUint8Array (b : bytes)
| VBuffer (b : bytes)
| VArrayBuffer (b : bytes)
| VVIDValue (v : VIDValue)
| VObject.

(** [v instanceof Uint8Array]; a [Buffer] is one. *)
Definition asUint8Array (v : jsval) : option bytes :=
  match v with
  | VUint8Array b | VBuffer b => Some b
  | _ => None
  end.

Module VIDValue.

Definition VID_BYTE_LENGTH : nat := 18.
Definition VID_STRING_LENGTH : nat := 29.
(** [VID_STRING_REGEX = /^[A-Z2-7]{26}$/] *)
Definition VID_STRING_REGEX (s : jsstring) : bool := testBase32 26 s.

Definition constructor (binary : jsval) : result VIDValue :=
  match binary with
  | VNull | VUndefined => Threw TypeError
  | _ =>
      match asUint8Array binary with
      | None => Threw TypeError
      | Some b =>
          if negb (length b =? VID_BYTE_LENGTH)%nat then Threw RangeError
          else
            let* s := Base32Encoder.encode b in
            Returned {| binary := b; _cachedString := Some s |}
      end
  end.

Definition toString (v : VIDValue) : result jsstring :=
  match _cachedString v with
  | Some s => Returned s
  | None => Base32Encoder.encode (binary v)
  end.

Definition toBinary (v : VIDValue) : bytes := binary v.

Section FromString.
Variable unicodeUpper : jsstring -> jsstring.

Definition fromString (input : jsval) : result VIDValue :=
  match input with
  | VString input =>
      let trimmed := toUpperCase unicodeUpper (trim input) in
      if negb (length trimmed =? VID_STRING_LENGTH)%nat then Threw RangeError
      else if negb (VID_STRING_REGEX trimmed) then Threw Error
      else
        let* binary := Base32Encoder.decode unicodeUpper trimmed in
        constructor (VUint8Array binary)
  | _ => Threw TypeError
  end.

End FromString.

Definition fromBinary (binary : jsval) : result VIDValue := constructor binary.

End VIDValue.

(** [VIDMongoAdapter.fromString] and [VIDPostgresAdapter.fromString] start
    with [VIDValue.fromString(vidString)] and wrap the bytes of its result. *)
Module VIDMongoAdapter.

Definition fromString (unicodeUpper : jsstring -> jsstring) (vidString : jsval)
  : result bytes :=
  let* vidValue := VIDValue.fromString unicodeUpper vidString in
  Returned (VIDValue.toBinary vidValue).

End VIDMongoAdapter.

(** ** HMACSigner *)

Module HMACSigner.

Definition SIGNATURE_BYTES : nat := 7.
Definition MIN_SECRET_BYTES : nat := 32.
Definition MIN_PAYLOAD_BYTES : nat := 1.

Definition validatePayload (payload : jsval) : result bytes :=
  match asUint8Array payload with
  | None => Threw TypeError
  | Some p => if (length p <? MIN_PAYLOAD_BYTES)%nat then Threw RangeError else Returned p
  end.

Definition validateSecret (secret : jsval) : result bytes :=
  match asUint8Array secret with
  | None => Threw TypeError
  | Some k => if (length k <? MIN_SECRET_BYTES)%nat then Threw RangeError else Returned k
  end.

Definition sign (payload secret : jsval) : result bytes :=
  let* p := validatePayload payload in
  let* k := validateSecret secret in
  let fullDigest := Sha256.hmacSha256 k p in
  Returned (take SIGNATURE_BYTES fullDigest).

Definition bytes_eqb (a b : bytes) : bool :=
  (length a =? length b)%nat && forallb (fun p => Byte.eqb (fst p) (snd p)) (combine a b).

(** [crypto.timingSafeEqual] throws on buffers of different lengths. *)
Definition timingSafeEqual (a b : bytes) : result bool :=
  if (length a =? length b)%nat then Returned (bytes_eqb a b) else Threw RangeError.

Definition verify (payload signature secret : jsval) : result bool :=
  match asUint8Array payload, asUint8Array signature, asUint8Array secret with
  | Some p, Some s, Some k =>
      if (length p <? MIN_PAYLOAD_BYTES)%nat then Returned false
      else if (length k <? MIN_SECRET_BYTES)%nat then Returned false
      else if negb (length s =? SIGNATURE_BYTES)%nat then Returned false
      else
        match sign payload secret with
        | Threw _ => Returned false
        | Returned expected =>
            if negb (length expected =? length s)%nat then Returned false
            else timingSafeEqual expected s
        end
  | _, _, _ => Returned false
  end.

End HMACSigner.

(** ** ByteUtils *)

Module ByteUtils.

(** [out.set(src, offset)] for a source that fits. *)
Definition set (out src : bytes) (offset : nat) : bytes :=
  take offset out ++ src ++ drop (offset + length src) out.

Definition concat (a b : bytes) : bytes :=
  let out := newUint8Array (length a + length b) in
  let out := set out a 0 in
  set out b (length a).

Definition copy (src : bytes) : bytes :=
  set (newUint8Array (length src)) src 0.

End ByteUtils.

(** ** The clock and the generator's state

    What [Date.now()] and an installed [TimeUtils._provider] answer is
    recorded as the list of their successive readings. A computation that
    asks for a reading beyond the record has no result in the model
    ([None]); the instance's two fields and the record are threaded through
    every call, and a [throw] keeps the state it was raised in. *)

Record World : Type := { provider : option (list Z); date : list Z }.
Record Generator : Type := { lastTimestamp : Z; sequence : Z }.

Definition Run (A : Type) : Type :=
  Generator * World -> option (result A * (Generator * World)).

Definition ret {A} (a : A) : Run A := fun s => Some (Returned a, s).
Definition throw {A} (e : exn) : Run A := fun s => Some (Threw e, s).
Definition lift {A} (r : result A) : Run A := fun s => Some (r, s).

Definition bindRun {A B} (c : Run A) (k : A -> Run B) : Run B :=
  fun s =>
    match c s with
    | None => None
    | Some (Threw e, s') => Some (Threw e, s')
    | Some (Returned a, s') => k a s'
    end.

Notation "'let!' x ':=' c 'in' k" := (bindRun c (fun x => k))
  (at level 10, x pattern, c at level 100, k at level 200).

Definition getGenerator : Run Generator := fun s => Some (Returned (fst s), s).

Definition setSequence (n : Z) : Run unit :=
  fun s => Some (Returned tt,
                 ({| lastTimestamp := lastTimestamp (fst s); sequence := n |}, snd s)).

Definition setLastTimestamp (t : Z) : Run unit :=
  fun s => Some (Returned tt,
                 ({| lastTimestamp := t; sequence := sequence (fst s) |}, snd s)).

Definition Date_now : Run Z :=
  fun s =>
    match date (snd s) with
    | t :: rest => Some (Returned t, (fst s, {| provider := provider (snd s); date := rest |}))
    | [] => None
    end.

Module TimeUtils.

Definition now : Run Z :=
  fun s =>
    match provider (snd s) with
    | None => Date_now s
    | Some (t :: rest) =>
        Some (Returned t, (fst s, {| provider := Some rest; date := date (snd s) |}))
    | Some [] => None
    end.

End TimeUtils.

(** ** NodeIdResolver *)

Inductive NodeId : Type :=
| NodeNumber (n : number)
| NodeString (s : jsstring).

Module NodeIdResolver.

Definition MAX_UINT16 : Z := 65535.

Inductive Source : Set := explicit_number | explicit_string | pod_ip | hostname | random.

Record NodeIdResolution : Type := { nodeId : Z; source : Source; warning : bool }.

(** [process.env.POD_IP], [process.env.HOSTNAME] and what
    [crypto.randomInt(0, MAX_UINT16 + 1)] draws. *)
Record Env : Type := { POD_IP : option jsstring; HOSTNAME : option jsstring; randomInt : Z }.

Definition hashToUint16 (input : jsstring) : Z :=
  let hash := Sha256.sha256 (utf8 input) in
  bor (shl (byteZ (nth 0 hash x00)) 8) (byteZ (nth 1 hash x00)).

(** [v && v.trim().length > 0] for an environment variable *)
Definition nonBlank (v : option jsstring) : option jsstring :=
  match v with
  | Some s => if (0 <? length (trim s))%nat then Some (trim s) else None
  | None => None
  end.

Definition resolve (env : Env) (explicitNodeId : option NodeId) : result NodeIdResolution :=
  match explicitNodeId with
  | Some (NodeNumber n) =>
      match n with
      | Int z =>
          if (z <? 0) || (MAX_UINT16 <? z) then Threw RangeError
          else Returned {| nodeId := z; source := explicit_number; warning := false |}
      | NonInt => Threw RangeError
      end
  | Some (NodeString s) =>
      if (length (trim s) =? 0)%nat then Threw TypeError
      else Returned {| nodeId := hashToUint16 (trim s); source := explicit_string;
                       warning := false |}
  | None =>
      match nonBlank (POD_IP env) with
      | Some podIp =>
          Returned {| nodeId := hashToUint16 podIp; source := pod_ip; warning := false |}
      | None =>
          match nonBlank (HOSTNAME env) with
          | Some host =>
              Returned {| nodeId := hashToUint16 host; source := hostname;
                          warning := false |}
          | None =>
              Returned {| nodeId := randomInt env; source := random; warning := true |}
          end
      end
  end.

End NodeIdResolver.

(** ** VIDGenerator *)

Module VIDGenerator.

Definition MAX_TIMESTAMP : Z := 281474976710655.
Definition MAX_UINT16 : Z := 65535.
Definition MAX_UINT8 : Z := 255.
Definition SIGNATURE_BYTES : nat := 7.
Definition PAYLOAD_BYTES : nat := 11.
Definition VID_TOTAL_BYTES : nat := PAYLOAD_BYTES + SIGNATURE_BYTES.
Definition MAX_SEQUENCE : Z := MAX_UINT16.
Definition MAX_CLOCK_WAIT_MS : Z := 5000.

Record VIDGeneratorConfig : Type :=
  { secret : jsval; keyVersion : number; nodeId : NodeId }.

(** [new VIDGenerator()] *)
Definition new : Generator := {| lastTimestamp := 0; sequence := 0 |}.

Definition resolveNodeId (nodeId : NodeId) : result Z :=
  match nodeId with
  | NodeString s =>
      if (length (trim s) =? 0)%nat then Threw TypeError
      else Returned (NodeIdResolver.hashToUint16 (trim s))
  | NodeNumber (Int z) =>
      if (z <? 0) || (MAX_UINT16 <? z) then Threw RangeError else Returned z
  | NodeNumber NonInt => Threw RangeError
  end.

(** Returns the key version it accepted, an integer from then on. *)
Definition validateConfig (config : VIDGeneratorConfig) : result Z :=
  match keyVersion config with
  | NonInt => Threw RangeError
  | Int kv =>
      if (kv <? 0) || (MAX_UINT8 <? kv) then Threw RangeError
      else
        match asUint8Array (secret config) with
        | None => Threw TypeError
        | Some k =>
            if (length k =? 0)%nat then Threw TypeError
            else if (length k <? 32)%nat then Threw RangeError
            else Returned kv
        end
  end.

(** The [do ... while (now <= sinceTimestamp)] loop. Every turn takes a
    reading of [Date.now()], so one more turn than there are readings left
    is never reached. *)
Fixpoint waitLoop (fuel : nat) (sinceTimestamp deadline : Z) : Run Z :=
  match fuel with
  | O => fun _ => None
  | S fuel' =>
      let! now := TimeUtils.now in
      let! d := Date_now in
      if deadline <? d then throw Error
      else if now <=? sinceTimestamp then waitLoop fuel' sinceTimestamp deadline
      else ret now
  end.

Definition waitForNextMillisecond (sinceTimestamp : Z) : Run Z :=
  let! d := Date_now in
  let deadline := d + MAX_CLOCK_WAIT_MS in
  fun s => waitLoop (S (length (date (snd s)))) sinceTimestamp deadline s.

Definition nextTimestampAndSequence : Run (Z * Z) :=
  let! timestamp := TimeUtils.now in
  let! g := getGenerator in
  let timestamp := if timestamp <? lastTimestamp g then lastTimestamp g else timestamp in
  let! timestamp :=
    if timestamp =? lastTimestamp g then
      let! _ := setSequence (sequence g + 1) in
      if MAX_SEQUENCE <? sequence g + 1 then
        let! timestamp := waitForNextMillisecond (lastTimestamp g) in
        let! _ := setSequence 0 in
        ret timestamp
      else ret timestamp
    else
      let! _ := setSequence 0 in
      ret timestamp in
  let! _ := setLastTimestamp timestamp in
  let! g := getGenerator in
  ret (timestamp, sequence g).

Definition encodePayload (keyVersion timestamp nodeId sequence : Z) : bytes :=
  let payload := newUint8Array PAYLOAD_BYTES in
  let payload := setUint 1 payload 0 keyVersion in
  let payload := setUint 4 payload 1 (timestamp / 65536) in
  let payload := setUint 2 payload 5 (Z.rem timestamp 65536) in
  let payload := setUint 2 payload 7 nodeId in
  setUint 2 payload 9 sequence.

Definition generate (config : VIDGeneratorConfig) : Run VIDValue :=
  let! keyVersion := lift (validateConfig config) in
  let! resolvedNodeId := lift (resolveNodeId (nodeId config)) in
  let! (timestamp, sequence) := nextTimestampAndSequence in
  if MAX_TIMESTAMP <? timestamp then throw Error
  else
    let payload := encodePayload keyVersion timestamp resolvedNodeId sequence in
    let! signature := lift (HMACSigner.sign (VUint8Array payload) (secret config)) in
    if negb (length signature =? SIGNATURE_BYTES)%nat then throw Error
    else
      let binary := ByteUtils.concat payload signature in
      lift (VIDValue.constructor (VUint8Array binary)).

(** Successive calls [generate(c1)], [generate(c2)], ... on one instance:
    the results in call order, up to the last call the record of readings
    covers. *)
Fixpoint generateEach (configs : list VIDGeneratorConfig) (s : Generator * World)
  : list (result VIDValue) :=
  match configs with
  | [] => []
  | config :: rest =>
      match generate config s with
      | None => []
      | Some (r, s') => r :: generateEach rest s'
      end
  end.

End VIDGenerator.

(** ** VIDVerifier *)

Module VIDVerifier.

Definition VID_BYTE_LENGTH : nat := 18.
Definition VID_STRING_LENGTH : nat := 29.
Definition PAYLOAD_END : nat := 11.
Definition SIGNATURE_BYTES : nat := 7.
(** [BASE32_REGEX = /^[A-Z2-7]{29}$/] *)
Definition BASE32_REGEX (s : jsstring) : bool := testBase32 29 s.

Inductive VerifyFailureReason : Set :=
| NULL_INPUT
| UNSUPPORTED_TYPE
| INVALID_STRING_LENGTH
| INVALID_STRING_CHARS
| INVALID_BINARY_LENGTH
| UNKNOWN_KEY_VERSION
| SIGNATURE_MISMATCH
| DECODE_ERROR.

Inductive VerifyResult : Set :=
| Valid
| Invalid (reason : VerifyFailureReason).

Definition valid (r : VerifyResult) : bool :=
  match r with Valid => true | Invalid _ => false end.

(** A [Map<number, Uint8Array>]: its entries in insertion order. *)
Abbreviation KeyMap := (list (number * jsval)).

(** [keys.get(k)] for an integer [k] *)
Fixpoint get (keys : KeyMap) (k : Z) : option jsval :=
  match keys with
  | [] => None
  | (Int z, v) :: rest => if z =? k then Some v else get rest k
  | (NonInt, _) :: rest => get rest k
  end.

Definition validateEntry (entry : number * jsval) : result unit :=
  match fst entry with
  | NonInt => Threw RangeError
  | Int version =>
      if (version <? 0) || (255 <? version) then Threw RangeError
      else
        match asUint8Array (snd entry) with
        | None => Threw TypeError
        | Some k =>
            if (length k =? 0)%nat then Threw TypeError
            else if (length k <? 32)%nat then Threw RangeError
            else Returned tt
        end
  end.

Fixpoint validateEntries (keys : KeyMap) : result unit :=
  match keys with
  | [] => Returned tt
  | entry :: rest => let* _ := validateEntry entry in validateEntries rest
  end.

Definition validateKeys (keys : KeyMap) : result unit :=
  if (length keys =? 0)%nat then Threw RangeError else validateEntries keys.

Section Verify.
Variable unicodeUpper : jsstring -> jsstring.

(** [{ ok: true, binary }] is [inl binary], [{ ok: false, reason }] is [inr reason]. *)
Definition normalizeToBinary (input : jsval) : bytes + VerifyFailureReason :=
  match input with
  | VNull | VUndefined => inr NULL_INPUT
  | VVIDValue v => inl (VIDValue.toBinary v)
  | VString input =>
      let trimmed := toUpperCase unicodeUpper (trim input) in
      if negb (length trimmed =? VID_STRING_LENGTH)%nat then inr INVALID_STRING_LENGTH
      else if negb (BASE32_REGEX trimmed) then inr INVALID_STRING_CHARS
      else
        match Base32Encoder.decode unicodeUpper trimmed with
        | Returned binary => inl binary
        | Threw _ => inr DECODE_ERROR
        end
  | VBuffer b => inl b
  | VUint8Array b => inl b
  | VArrayBuffer b => inl b
  | VNumber _ | VObject => inr UNSUPPORTED_TYPE
  end.

Definition verifyDetailed (input : jsval) (keys : KeyMap) : result VerifyResult :=
  let* _ := validateKeys keys in
  match normalizeToBinary input with
  | inr reason => Returned (Invalid reason)
  | inl binary =>
      if negb (length binary =? VID_BYTE_LENGTH)%nat then Returned (Invalid INVALID_BINARY_LENGTH)
      else
        let keyVersion := byteZ (nth 0 binary x00) in
        match get keys keyVersion with
        | None => Returned (Invalid UNKNOWN_KEY_VERSION)
        | Some secret =>
            if match asUint8Array secret with
               | Some k => (length k =? 0)%nat
               | None => false
               end
            then Returned (Invalid UNKNOWN_KEY_VERSION)
            else
              let payload := subarray binary 0 PAYLOAD_END in
              let embeddedSignature :=
                subarray binary PAYLOAD_END (PAYLOAD_END + SIGNATURE_BYTES) in
              let* isValid :=
                HMACSigner.verify (VUint8Array payload) (VUint8Array embeddedSignature) secret in
              if negb isValid then Returned (Invalid SIGNATURE_MISMATCH)
              else Returned Valid
        end
  end.

Definition verify (input : jsval) (keys : KeyMap) : result bool :=
  let* _ := validateKeys keys in
  let* r := verifyDetailed input keys in
  Returned (valid r).

End Verify.
End VIDVerifier.

(** ** VIDParser: the field reads of [parse] *)

Module VIDParser.

Definition OFFSET_KEY_VERSION : nat := 0.
Definition OFFSET_TIMESTAMP_HIGH : nat := 1.
Definition OFFSET_TIMESTAMP_LOW : nat := 5.
Definition OFFSET_NODE_ID : nat := 7.
Definition OFFSET_SEQUENCE : nat := 9.
Definition TIMESTAMP_HIGH_MULTIPLIER : Z := 65536.

Definition keyVersion (binary : bytes) : Z := getUint 1 binary OFFSET_KEY_VERSION.

Definition timestamp (binary : bytes) : Z :=
  let timestampHigh := getUint 4 binary OFFSET_TIMESTAMP_HIGH in
  let timestampLow := getUint 2 binary OFFSET_TIMESTAMP_LOW in
  timestampHigh * TIMESTAMP_HIGH_MULTIPLIER + timestampLow.

Definition nodeId (binary : bytes) : Z := getUint 2 binary OFFSET_NODE_ID.

Definition sequence (binary : bytes) : Z := getUint 2 binary OFFSET_SEQUENCE.

End VIDParser.

(** ** VIDValue over a store of arrays

    Above, a [VIDValue] is the bytes it holds. Who else can reach those
    bytes is a question about references: here an array is a location of
    a store, the constructor and [toBinary] are read again with the
    references they copy or keep, and a caller's [b[i] = x] is [write]. *)

Module Heap.

Abbreviation ref := nat.
Abbreviation store := (list (list byte)).

Record VIDValueObject : Type := { binaryRef : ref; cachedString : option jsstring }.

(** [new Uint8Array(src)]: a new array with the elements of [src]. *)
Definition newUint8ArrayFrom (h : store) (src : bytes) : ref * store :=
  (length h, h ++ [src]).

(** [b[i] = x] on the array at [r] *)
Definition write (h : store) (r : ref) (i : nat) (x : byte) : store :=
  match h !! r with
  | Some b => <[r := <[i := x]> b]> h
  | None => h
  end.

Definition read (h : store) (r : ref) : bytes := default [] (h !! r).

(** [this.binary = binary]: the field keeps the reference it was given. *)
Definition constructor (h : store) (binary : ref) : result VIDValueObject :=
  let b := read h binary in
  if negb (length b =? VIDValue.VID_BYTE_LENGTH)%nat then Threw RangeError
  else
    let* s := Base32Encoder.encode b in
    Returned {| binaryRef := binary; cachedString := Some s |}.

(** [return new Uint8Array(this.binary)] *)
Definition toBinary (h : store) (v : VIDValueObject) : ref * store :=
  newUint8ArrayFrom h (read h (binaryRef v)).

End Heap.

(** ** Helpers for writing test inputs *)

Definition hexdigit (c : ascii) : Z :=
  let n := Z.of_N (N_of_ascii c) in
  if n <? 58 then n - 48 else n - 87.

Fixpoint hex (s : string) : bytes :=
  match s with
  | String a (String b s') => Zbyte (16 * hexdigit a + hexdigit b) :: hex s'
  | _ => []
  end.

Definition ascii_bytes (s : string) : bytes := map (fun a => Zbyte (Z.of_N (N_of_ascii a))) (list_ascii_of_string s).



(** ** VIDValue over the store: [toString] and [fromBinary]

    With the arrays in a store ([Heap] above): [toString] returns the
    cached text when there is one and otherwise encodes the array the
    object refers to and caches the text; [fromBinary] is the constructor. *)

Module HeapValue.

Definition toString (h : Heap.store) (v : Heap.VIDValueObject)
  : result (jsstring * Heap.VIDValueObject) :=
  match Heap.cachedString v with
  | Some s => Returned (s, v)
  | None =>
      let* encoded := Base32Encoder.encode (Heap.read h (Heap.binaryRef v)) in
      Returned (encoded,
                {| Heap.binaryRef := Heap.binaryRef v; Heap.cachedString := Some encoded |})
  end.

Definition fromBinary (h : Heap.store) (binary : Heap.ref) : result Heap.VIDValueObject :=
  Heap.constructor h binary.

End HeapValue.

(** ** ByteUtils: the public methods with their guards

    [ByteUtils.concat] and [ByteUtils.copy] above are the bodies, as the
    generator reaches them with arrays. A caller can pass anything: here
    are the methods with [assertUint8Array] in front, and [equal]. *)

Module ByteUtilsGuarded.

Definition assertUint8Array (value : jsval) : result bytes :=
  match asUint8Array value with
  | Some b => Returned b
  | None => Threw TypeError
  end.

Definition concat (a b : jsval) : result bytes :=
  let* a := assertUint8Array a in
  let* b := assertUint8Array b in
  Returned (ByteUtils.concat a b).

(** [a[i] !== b[i]]: an index past the end reads [undefined]. *)
Definition differAt (a b : bytes) (i : nat) : bool :=
  match a !! i, b !! i with
  | Some x, Some y => negb (Byte.eqb x y)
  | None, None => false
  | _, _ => true
  end.

(** [for (let i = 0; i < a.length; i++) if (a[i] !== b[i]) return false],
    from index [i] on; [fuel] counts the indices left. *)
Fixpoint equalFrom (fuel i : nat) (a b : bytes) : bool :=
  match fuel with
  | O => true
  | S fuel' => if differAt a b i then false else equalFrom fuel' (S i) a b
  end.

Definition equal (a b : jsval) : result bool :=
  let* a := assertUint8Array a in
  let* b := assertUint8Array b in
  if negb (length a =? length b)%nat then Returned false
  else Returned (equalFrom (length a) 0 a b).

Definition copy (src : jsval) : result bytes :=
  let* src := assertUint8Array src in
  Returned (ByteUtils.copy src).

End ByteUtilsGuarded.

(** ** Date: the time value and [toISOString]

    [new Date(t)] for an integer [t] holds [t] when it is within 8.64e15
    milliseconds of the epoch and is an Invalid Date otherwise;
    [toISOString] throws [RangeError] on an Invalid Date. The calendar is
    the proleptic Gregorian one, computed from the day number by eras of
    400 years. *)

Module JSDate.

Definition msPerDay : Z := 86400000.
Definition MAX_TIME : Z := 8640000000000000.

Definition ofNumber (t : Z) : option Z :=
  if Z.abs t <=? MAX_TIME then Some t else None.

(** Year, month (1-12) and day of month of a day number (days since
    1970-01-01). *)
Definition civil (days : Z) : Z * Z * Z :=
  let z := days + 719468 in
  let era := z / 146097 in
  let doe := z - era * 146097 in
  let yoe := (doe - doe / 1460 + doe / 36524 - doe / 146096) / 365 in
  let doy := doe - (365 * yoe + yoe / 4 - yoe / 100) in
  let mp := (5 * doy + 2) / 153 in
  let d := doy - (153 * mp + 2) / 5 + 1 in
  let m := if mp <? 10 then mp + 3 else mp - 9 in
  ((yoe + era * 400) + (if m <=? 2 then 1 else 0), m, d).

(** The [width] low decimal digits of [n], most significant first. *)
Fixpoint digits (width : nat) (n : Z) : jsstring :=
  match width with
  | O => []
  | S w => digits w (n / 10) ++ [Z.to_N (48 + n mod 10)]
  end.

Definition yearText (y : Z) : jsstring :=
  if (0 <=? y) && (y <=? 9999) then digits 4 y
  else if y <? 0 then js "-" ++ digits 6 (- y)
  else js "+" ++ digits 6 y.

Definition toISOString (date : option Z) : result jsstring :=
  match date with
  | None => Threw RangeError
  | Some t =>
      let '(y, m, d) := civil (t / msPerDay) in
      let ms := t mod msPerDay in
      Returned (yearText y ++ js "-" ++ digits 2 m ++ js "-" ++ digits 2 d
                ++ js "T" ++ digits 2 (ms / 3600000)
                ++ js ":" ++ digits 2 (ms / 60000 mod 60)
                ++ js ":" ++ digits 2 (ms / 1000 mod 60)
                ++ js "." ++ digits 3 (ms mod 1000) ++ js "Z")
  end.

End JSDate.

(** ** VIDParser.parse *)

Module Parse.

Definition VID_BYTE_LENGTH : nat := 18.
Definition VID_STRING_LENGTH : nat := 29.
Definition MAX_TIMESTAMP : Z := 281474976710655.
Definition MIN_TIMESTAMP : Z := 1577836800000.
Definition MAX_SAFE_INTEGER : Z := 9007199254740991.
(** [BASE32_REGEX = /^[A-Z2-7]{29}$/] *)
Definition BASE32_REGEX (s : jsstring) : bool := testBase32 29 s.

Record VIDMetadata : Type :=
  { keyVersion : Z;
    timestamp : Z;
    date : option Z;
    iso : jsstring;
    nodeId : Z;
    sequence : Z }.

Section Parse.
Variable unicodeUpper : jsstring -> jsstring.

Definition decodeString (input : jsstring) : result bytes :=
  let normalized := toUpperCase unicodeUpper (trim input) in
  if negb (length normalized =? VID_STRING_LENGTH)%nat then Threw RangeError
  else if negb (BASE32_REGEX normalized) then Threw Error
  else tryCatch (Base32Encoder.decode unicodeUpper normalized) (Threw Error).

Definition normalizeToBinary (input : jsval) : result bytes :=
  match input with
  | VNull | VUndefined => Threw TypeError
  | VVIDValue v => Returned (VIDValue.toBinary v)
  | VBuffer b => Returned b
  | VUint8Array b => Returned b
  | VArrayBuffer b => Returned b
  | VString s => decodeString s
  | VNumber _ | VObject => Threw TypeError
  end.

Definition parse (input : jsval) : result VIDMetadata :=
  let* binary := normalizeToBinary input in
  if negb (length binary =? VID_BYTE_LENGTH)%nat then Threw RangeError
  else
    let keyVersion := getUint 1 binary VIDParser.OFFSET_KEY_VERSION in
    let timestampHigh := getUint 4 binary VIDParser.OFFSET_TIMESTAMP_HIGH in
    let timestampLow := getUint 2 binary VIDParser.OFFSET_TIMESTAMP_LOW in
    let timestamp := timestampHigh * VIDParser.TIMESTAMP_HIGH_MULTIPLIER + timestampLow in
    if negb (Z.abs timestamp <=? MAX_SAFE_INTEGER) then Threw RangeError
    else if (timestamp <? MIN_TIMESTAMP) || (MAX_TIMESTAMP <? timestamp) then Threw RangeError
    else
      let nodeId := getUint 2 binary VIDParser.OFFSET_NODE_ID in
      let sequence := getUint 2 binary VIDParser.OFFSET_SEQUENCE in
      let date := JSDate.ofNumber timestamp in
      let* iso := tryCatch (JSDate.toISOString date) (Threw Error) in
      Returned {| keyVersion := keyVersion; timestamp := timestamp; date := date;
                  iso := iso; nodeId := nodeId; sequence := sequence |}.

End Parse.
End Parse.

(** ** VIDPostgresAdapter

    A [Buffer] made by [Buffer.from(bytes.buffer, bytes.byteOffset,
    bytes.byteLength)] is a view of the bytes of [bytes]. *)

Module VIDPostgresAdapter.

Definition VID_BYTE_LENGTH : nat := 18.

Definition resolveToBytes (input : jsval) : result bytes :=
  match input with
  | VVIDValue v => Returned (VIDValue.toBinary v)
  | _ =>
      match asUint8Array input with
      | Some b =>
          if negb (length b =? VID_BYTE_LENGTH)%nat then Threw RangeError
          else Returned (ByteUtils.copy b)
      | None => Threw TypeError
      end
  end.

Definition toDatabase (input : jsval) : result jsval :=
  let* bytes := resolveToBytes input in
  Returned (VBuffer bytes).

Definition fromDatabase (buffer : jsval) : result VIDValue :=
  match asUint8Array buffer with
  | None => Threw TypeError
  | Some b =>
      if negb (length b =? VID_BYTE_LENGTH)%nat then Threw RangeError
      else VIDValue.fromBinary buffer
  end.

Definition fromString (unicodeUpper : jsstring -> jsstring) (vidString : jsval)
  : result jsval :=
  let* vidValue := VIDValue.fromString unicodeUpper vidString in
  toDatabase (VVIDValue vidValue).

Definition toCursor (unicodeUpper : jsstring -> jsstring) (lastSeenId : jsval)
  : result jsval :=
  fromString unicodeUpper lastSeenId.

End VIDPostgresAdapter.

(** ** VIDMongoAdapter: to and from a BSON [Binary]

    A [Binary] of the bson package is the buffer and the subtype it was
    made with. A value handed to [fromDatabase] is a [Binary] or anything
    else. *)

Module Mongo.

Definition VID_BYTE_LENGTH : nat := 18.
Definition BSON_BINARY_SUBTYPE : Z := 0.

Record Binary : Type := { buffer : bytes; sub_type : Z }.

Definition resolveToBytes (input : jsval) : result bytes :=
  match input with
  | VVIDValue v => Returned (VIDValue.toBinary v)
  | _ =>
      match asUint8Array input with
      | Some b =>
          if negb (length b =? VID_BYTE_LENGTH)%nat then Threw RangeError
          else Returned (ByteUtils.copy b)
      | None => Threw TypeError
      end
  end.

Definition toDatabase (input : jsval) : result Binary :=
  let* bytes := resolveToBytes input in
  Returned {| buffer := bytes; sub_type := BSON_BINARY_SUBTYPE |}.

(** [inl]: an instance of [Binary]; [inr]: any other value. *)
Definition fromDatabase (value : Binary + jsval) : result VIDValue :=
  match value with
  | inr _ => Threw TypeError
  | inl value =>
      let bytes := buffer value in
      if negb (length bytes =? VID_BYTE_LENGTH)%nat then Threw RangeError
      else VIDValue.fromBinary (VUint8Array bytes)
  end.

Definition fromString (unicodeUpper : jsstring -> jsstring) (vidString : jsval)
  : result Binary :=
  let* vidValue := VIDValue.fromString unicodeUpper vidString in
  toDatabase (VVIDValue vidValue).

Definition toVIDValue (binary : Binary + jsval) : result VIDValue :=
  fromDatabase binary.

End Mongo.

(** ** VID: the facade

    [options] is taken with the shape its TypeScript type gives it: an
    object whose [keys] is an object, read through [Object.entries] as the
    list of its property names and values. [Number(versionKey)] on a
    property name is the host's; it is a parameter, as the case mapping
    is. [console.warn] of a resolution's warning is not recorded. The
    generator of an instance is the [Generator] that [Run] threads; a new
    facade starts from [VIDGenerator.new]. *)

Module VID.

Definition MIN_SECRET_CHARS : nat := 16.
Definition MAX_KEY_VERSION : Z := 255.
Definition MAX_NODE_ID : Z := 65535.

Record VIDInitOptions : Type :=
  { keys : list (jsstring * jsval);
    currentKeyVersion : number;
    nodeId : option NodeId }.

Module ParseOptions.
Record t : Type := { verify : option bool }.
End ParseOptions.

(** The fields of an instance. *)
Record Instance : Type :=
  { this_keys : VIDVerifier.KeyMap;
    this_currentKeyVersion : Z;
    this_nodeId : Z }.

(** [String(n)] for an integer [n >= 0]: its decimal digits. *)
Fixpoint decimalFrom (fuel : nat) (n : Z) (acc : jsstring) : jsstring :=
  match fuel with
  | O => acc
  | S fuel' =>
      let acc' := Z.to_N (48 + n mod 10) :: acc in
      if n / 10 =? 0 then acc' else decimalFrom fuel' (n / 10) acc'
  end.

Definition numberToString (n : Z) : jsstring :=
  decimalFrom (S (Z.to_nat (Z.log2 n))) n [].

(** [name in keys] for an object with these entries *)
Definition hasProperty (name : jsstring) (entries : list (jsstring * jsval)) : bool :=
  existsb (fun e => bool_decide (fst e = name)) entries.

(** [keys.set(k, v)]: a key already in the map keeps its place. *)
Fixpoint mapSet (keys : VIDVerifier.KeyMap) (k : Z) (v : jsval) : VIDVerifier.KeyMap :=
  match keys with
  | [] => [(Int k, v)]
  | (Int z, w) :: rest =>
      if z =? k then (Int z, v) :: rest else (Int z, w) :: mapSet rest k v
  | entry :: rest => entry :: mapSet rest k v
  end.

(** [createHash("sha256").update(rawSecret, "utf8").digest()]; [update]
    throws on what is not a string. *)
Definition deriveKey (rawSecret : jsval) : result bytes :=
  match rawSecret with
  | VString s => Returned (Sha256.sha256 (utf8 s))
  | _ => Threw TypeError
  end.

Section Facade.
Variable toNumber : jsstring -> number.
Variable env : NodeIdResolver.Env.
Variable unicodeUpper : jsstring -> jsstring.

Definition validateEntry (entry : jsstring * jsval) : result unit :=
  match toNumber (fst entry) with
  | NonInt => Threw RangeError
  | Int version =>
      if (version <? 0) || (MAX_KEY_VERSION <? version) then Threw RangeError
      else
        match snd entry with
        | VString secret =>
            if (length (utf8 secret) <? MIN_SECRET_CHARS)%nat then Threw RangeError
            else Returned tt
        | _ => Threw TypeError
        end
  end.

Fixpoint validateEntries (entries : list (jsstring * jsval)) : result unit :=
  match entries with
  | [] => Returned tt
  | entry :: rest => let* _ := validateEntry entry in validateEntries rest
  end.

Definition validateOptions (options : VIDInitOptions) : result unit :=
  let entries := keys options in
  if (length entries =? 0)%nat then Threw RangeError
  else
    let* _ := validateEntries entries in
    match currentKeyVersion options with
    | NonInt => Threw TypeError
    | Int cv =>
        if (cv <? 0) || (MAX_KEY_VERSION <? cv) then Threw RangeError
        else if negb (hasProperty (numberToString cv) entries) then Threw Error
        else
          match nodeId options with
          | Some (NodeNumber (Int n)) =>
              if (n <? 0) || (MAX_NODE_ID <? n) then Threw RangeError else Returned tt
          | Some (NodeNumber NonInt) => Threw RangeError
          | _ => Returned tt
          end
    end.

(** The loop of the constructor over [Object.entries(options.keys)]. A
    property name that is not an integer does not get here:
    [validateOptions] has thrown on it. *)
Fixpoint deriveKeys (entries : list (jsstring * jsval)) (keys : VIDVerifier.KeyMap)
  : result VIDVerifier.KeyMap :=
  match entries with
  | [] => Returned keys
  | (versionKey, rawSecret) :: rest =>
      let* derived := deriveKey rawSecret in
      match toNumber versionKey with
      | Int version => deriveKeys rest (mapSet keys version (VUint8Array derived))
      | NonInt => deriveKeys rest (keys ++ [(NonInt, VUint8Array derived)])
      end
  end.

Definition constructor (options : VIDInitOptions) : result Instance :=
  let* _ := validateOptions options in
  let* keys := deriveKeys (keys options) [] in
  match currentKeyVersion options with
  | NonInt => Threw TypeError
  | Int cv =>
      let* resolution := NodeIdResolver.resolve env (nodeId options) in
      Returned {| this_keys := keys;
                  this_currentKeyVersion := cv;
                  this_nodeId := NodeIdResolver.nodeId resolution |}
  end.

Definition initialize (options : VIDInitOptions) : result Instance :=
  constructor options.

(** [this.keys.get(this.currentKeyVersion)!] is [undefined] on a miss. *)
Definition generate (this : Instance) : Run VIDValue :=
  let secret := default VUndefined (VIDVerifier.get (this_keys this) (this_currentKeyVersion this)) in
  VIDGenerator.generate
    {| VIDGenerator.secret := secret;
       VIDGenerator.keyVersion := Int (this_currentKeyVersion this);
       VIDGenerator.nodeId := NodeNumber (Int (this_nodeId this)) |}.

Definition verify (this : Instance) (input : jsval) : result bool :=
  VIDVerifier.verify unicodeUpper input (this_keys this).

Definition verifyDetailed (this : Instance) (input : jsval)
  : result VIDVerifier.VerifyResult :=
  VIDVerifier.verifyDetailed unicodeUpper input (this_keys this).

(** [options?.verify !== false] *)
Definition shouldVerify (options : option ParseOptions.t) : bool :=
  match options with
  | Some {| ParseOptions.verify := Some false |} => false
  | _ => true
  end.

Definition parse (this : Instance) (input : jsval) (options : option ParseOptions.t)
  : result Parse.VIDMetadata :=
  if shouldVerify options then
    let* result := VIDVerifier.verifyDetailed unicodeUpper input (this_keys this) in
    match result with
    | VIDVerifier.Invalid _ => Threw Error
    | VIDVerifier.Valid => Parse.parse unicodeUpper input
    end
  else Parse.parse unicodeUpper input.

Definition getNodeId (this : Instance) : Z := this_nodeId this.
Definition getCurrentKeyVersion (this : Instance) : Z := this_currentKeyVersion this.

End Facade.
End VID.

(* ================================================================== *)
(** * Part II: notions the statements use                              *)
(* ================================================================== *)

(** Stands for the host's case mapping where a statement runs the code on
    a string of ASCII characters: [toUpperCase] does not call it there. *)
Definition keepCase : jsstring -> jsstring := fun s => s.

(** The [w] low bits of an integer, most significant first, and the
    integer a bit string spells. *)
Fixpoint bitsOf (w : nat) (z : Z) : list bool :=
  match w with
  | O => []
  | S w' => Z.testbit z (Z.of_nat w') :: bitsOf w' z
  end.

Definition num (l : list bool) : Z := fold_left (fun a b => 2 * a + Z.b2z b) l 0.

(** The value the decoder's table gives a character. *)
Definition charValue (c : N) : Z := nth (N.to_nat c) Base32Encoder.DECODE_LOOKUP 0.

(** The bit string of a byte array, and of a base32 text. *)
Definition flat8 (b : bytes) : list bool := flat_map (fun x => bitsOf 8 (byteZ x)) b.
Definition flat5 (s : jsstring) : list bool := flat_map (fun c => bitsOf 5 (charValue c)) s.

(** An accumulator [value] of which [bits] bits are pending holds the
    queue [q] in its low bits; what lies above them is left over from
    earlier turns and never read. *)
Definition holds (bits value : Z) (q : list bool) : Prop :=
  bits = Z.of_nat (length q) /\ value mod 2 ^ bits = num q.

(** The stores [output[k] = w0; output[k+1] = w1; ...] of the decoder. *)
Fixpoint storeAll (k : nat) (ws : bytes) (output : bytes) : bytes :=
  match ws with
  | [] => output
  | w :: ws' => storeAll (S k) ws' (<[k := w]> output)
  end.

(** The shape [HMACSigner.verify] asks of its arguments: three byte
    arrays, a payload that is not empty, a secret of at least 32 bytes and
    a signature of 7. *)
Definition wellFormedArgs (payload signature secret : jsval) : bool :=
  match asUint8Array payload, asUint8Array signature, asUint8Array secret with
  | Some p, Some s, Some k =>
      (1 <=? length p)%nat && (32 <=? length k)%nat && (length s =? 7)%nat
  | _, _, _ => false
  end.

(** Byte-wise order of two arrays, as [Buffer.compare] and a binary column
    sort them. *)
Fixpoint bytesLt (a b : bytes) : bool :=
  match a, b with
  | [], [] => false
  | [], _ :: _ => true
  | _ :: _, [] => false
  | x :: a', y :: b' =>
      (byteZ x <? byteZ y) || ((byteZ x =? byteZ y) && bytesLt a' b')
  end.

(** Lexicographic order of (timestamp, sequence) pairs. *)
Definition pairLt (p q : Z * Z) : Prop :=
  fst p < fst q \/ (fst p = fst q /\ snd p < snd q).

(** The two fields of a generator, as a pair. *)
Definition clockPair (g : Generator) : Z * Z := (lastTimestamp g, sequence g).

(** The (timestamp, sequence) pair embedded in an identifier, read the way
    [VIDParser.parse] reads it. *)
Definition embeddedPair (id : VIDValue) : Z * Z :=
  (VIDParser.timestamp (binary id), VIDParser.sequence (binary id)).

(** An identifier of key version [kv] and node [nid]: a payload with a
    timestamp of 48 bits and a sequence of 16, followed by something. *)
Definition mintedBy (kv nid : Z) (id : VIDValue) : Prop :=
  exists ts sq signature,
    binary id = VIDGenerator.encodePayload kv ts nid sq ++ signature
    /\ 0 <= ts <= VIDGenerator.MAX_TIMESTAMP /\ 0 <= sq <= 65535.

(** The forms in which a caller can hand an identifier to the verifier:
    the object, its bytes as a [Uint8Array], a [Buffer] or an
    [ArrayBuffer], and its text. *)
Definition representations (id : VIDValue) : list jsval :=
  [VVIDValue id; VUint8Array (binary id); VBuffer (binary id); VArrayBuffer (binary id)]
  ++ match _cachedString id with
     | Some s => [VString s]
     | None => []
     end.

(** The identifiers among the results of a run of calls. *)
Definition returned {A} (rs : list (result A)) : list A :=
  flat_map (fun r => match r with Returned a => [a] | Threw _ => [] end) rs.

(** A configuration, a clock and a key map to run the code on: the key
    and the node name of the specification's scenario, a clock that reads
    the same millisecond twice and then the next one. *)
Definition exampleSecret : bytes := ascii_bytes "0123456789abcdef0123456789abcdef".

Definition exampleConfig : VIDGenerator.VIDGeneratorConfig :=
  {| VIDGenerator.secret := VUint8Array exampleSecret;
     VIDGenerator.keyVersion := Int 1;
     VIDGenerator.nodeId := NodeString (js "node-a") |}.

Definition exampleWorld : World :=
  {| provider := Some [1700000000000; 1700000000000; 1700000000001]; date := [] |}.

Definition exampleId : VIDValue :=
  {| binary := hex "01018bcfe56800665700008245393cf97f55";
     _cachedString := Some (js "AEAYXT7FNAAGMVYAACBEKOJ47F7VK") |}.

Definition exampleKeys : VIDVerifier.KeyMap :=
  [(Int 1, VUint8Array exampleSecret); (Int 2, VUint8Array (ascii_bytes "fedcba9876543210fedcba9876543210"))].

(** The metadata [VIDParser.parse] reads from 18 bytes: the four fields,
    the date of the timestamp and its ISO text. *)
Definition isoText (t : Z) : jsstring :=
  match JSDate.toISOString (JSDate.ofNumber t) with
  | Returned s => s
  | Threw _ => []
  end.

Definition metadataOf (b : bytes) : Parse.VIDMetadata :=
  {| Parse.keyVersion := VIDParser.keyVersion b;
     Parse.timestamp := VIDParser.timestamp b;
     Parse.date := JSDate.ofNumber (VIDParser.timestamp b);
     Parse.iso := isoText (VIDParser.timestamp b);
     Parse.nodeId := VIDParser.nodeId b;
     Parse.sequence := VIDParser.sequence b |}.

(** An environment with a host name and no pod address, and the state of
    a generator whose sequence is used up in its millisecond. *)
Definition exampleEnv : NodeIdResolver.Env :=
  {| NodeIdResolver.POD_IP := None;
     NodeIdResolver.HOSTNAME := Some (js "node-a");
     NodeIdResolver.randomInt := 7 |}.

Definition fullSequence : Generator * World :=
  ({| lastTimestamp := 1700000000000; sequence := 65535 |},
   {| provider := Some [1700000000000; 1700000000000; 1700000000001];
      date := [1700000000000; 1700000000000; 1700000000001] |}).

(** [Number(s)] on a string of at most 15 decimal digits; it stands for
    the host's conversion where a statement runs the facade on such
    property names. *)
Definition isDigit (c : N) : bool := ((48 <=? c) && (c <=? 57))%N.

Definition decimalNumber (s : jsstring) : number :=
  if (length s <=? 15)%nat && forallb isDigit s
  then Int (fold_left (fun a c => 10 * a + (Z.of_N c - 48)) s 0)
  else NonInt.

(** The options of the specification's scenario: one key under version 1,
    the node name [node-a]. *)
Definition exampleOptions : VID.VIDInitOptions :=
  {| VID.keys := [(js "1", VString (js "0123456789abcdef0123456789abcdef"))];
     VID.currentKeyVersion := Int 1;
     VID.nodeId := Some (NodeString (js "node-a")) |}.

Definition exampleInstance : VID.Instance :=
  {| VID.this_keys :=
       [(Int 1, VUint8Array (Sha256.sha256 (ascii_bytes "0123456789abcdef0123456789abcdef")))];
     VID.this_currentKeyVersion := 1;
     VID.this_nodeId := 26199 |}.

(** A key map of derived keys: versions within 0..255, secrets of 32 bytes. *)
Definition derivedEntry (entry : number * jsval) : Prop :=
  exists z k, entry = (Int z, VUint8Array k) /\ 0 <= z <= 255 /\ length k = 32%nat.

(** What the clock of the generator will read, in order: the readings of
    the installed provider, or those of [Date.now()] when there is none. *)
Definition readings (w : World) : list Z :=
  match provider w with
  | Some l => l
  | None => date w
  end.

(** The raw secret a key version gets from [options.keys]: the value of
    the last property whose name [Number] turns into that version (a later
    [keys.set] replaces an earlier one). *)
Fixpoint rawSecretOf (toNumber : jsstring -> number) (entries : list (jsstring * jsval))
    (version : Z) : option jsval :=
  match entries with
  | [] => None
  | (name, secret) :: rest =>
      match rawSecretOf toNumber rest version with
      | Some later => Some later
      | None =>
          match toNumber name with
          | Int z => if z =? version then Some secret else None
          | NonInt => None
          end
      end
  end.

(** The key the facade derives from a raw secret: the SHA-256 digest of
    its UTF-8 bytes. *)
Definition derivedKeyOf (raw : option jsval) : option jsval :=
  match raw with
  | Some (VString secret) => Some (VUint8Array (Sha256.sha256 (utf8 secret)))
  | _ => None
  end.

(** An entry of the key map that comes from a property of [options.keys]:
    its version is [Number] of the property's name and its secret is the
    SHA-256 digest of the UTF-8 bytes of the property's value. *)
Definition digestEntry (toNumber : jsstring -> number) (entries : list (jsstring * jsval))
    (entry : number * jsval) : Prop :=
  exists name z secret,
    In (name, VString secret) entries /\ toNumber name = Int z
    /\ entry = (Int z, VUint8Array (Sha256.sha256 (utf8 secret))).

(** The value built on an array of 18 zero bytes at location 0. *)
Definition zeroValue : Heap.VIDValueObject :=
  {| Heap.binaryRef := 0%nat;
     Heap.cachedString := Some (js "AAAAAAAAAAAAAAAAAAAAAAAAAAAAA") |}.

(* ================================================================== *)
(** * Part III: properties                                             *)
(* ================================================================== *)

(** ** The host's hash functions on the standard test vectors *)

Example sha256_abc :
  Sha256.sha256 (ascii_bytes "abc")
  = hex "ba7816bf8f01cfea414140de5dae2223b00361a396177a9cb410ff61f20015ad".
Proof. vm_compute. reflexivity. Qed.

Example sha256_empty :
  Sha256.sha256 []
  = hex "e3b0c44298fc1c149afbf4c8996fb92427ae41e4649b934ca495991b7852b855".
Proof. vm_compute. reflexivity. Qed.

Example sha256_two_blocks :
  Sha256.sha256 (ascii_bytes "abcdbcdecdefdefgefghfghighijhijkijkljklmklmnlmnomnopnopq")
  = hex "248d6a61d20638b8e5c026930c3e6039a33ce45964ff2167f6ecedd419db06c1".
Proof. vm_compute. reflexivity. Qed.

Example hmacSha256_rfc4231_case2 :
  Sha256.hmacSha256 (ascii_bytes "Jefe") (ascii_bytes "what do ya want for nothing?")
  = hex "5bdcc146bf60754e6a042426089575c75a003f089d2739839dec58b964ec3843".
Proof. vm_compute. reflexivity. Qed.

Example hashToUint16_node_a : NodeIdResolver.hashToUint16 (js "node-a") = 26199.
Proof. vm_compute. reflexivity. Qed.

(** ** Bytes and 32-bit integers *)

Lemma byteZ_range (b : byte) : 0 <= byteZ b < 256.
Proof.
  unfold byteZ. pose proof (Byte.to_N_bounded b). lia.
Qed.

Lemma byteZ_Zbyte (z : Z) : byteZ (Zbyte z) = z mod 256.
Proof.
  unfold Zbyte, byteZ.
  assert (Hr : 0 <= z mod 256 < 256) by (apply Z.mod_pos_bound; lia).
  destruct (Byte.of_N (Z.to_N (z mod 256))) as [b|] eqn:E.
  - apply Byte.to_of_N in E. rewrite E. lia.
  - apply Byte.of_N_None_iff in E. lia.
Qed.

Lemma Zbyte_byteZ (b : byte) : Zbyte (byteZ b) = b.
Proof.
  unfold Zbyte, byteZ. pose proof (Byte.to_N_bounded b) as Hb.
  rewrite Z.mod_small by lia. rewrite N2Z.id, Byte.of_to_N. reflexivity.
Qed.

Lemma byteZ_inj (a b : byte) : byteZ a = byteZ b -> a = b.
Proof.
  intros H. rewrite <- (Zbyte_byteZ a), <- (Zbyte_byteZ b), H. reflexivity.
Qed.

(** Facts about [toInt32] are linear arithmetic once the two cases of its
    sign are split and the modulus is a numeral. *)
Ltac int32_cases :=
  unfold toInt32;
  change (2 ^ 32) with 4294967296 in *; change (2 ^ 31) with 2147483648 in *;
  intros;
  match goal with
  | |- context [?m <? 2147483648] => destruct (Z.ltb_spec m 2147483648)
  end;
  Z.div_mod_to_equations; lia.

Lemma toInt32_small (z : Z) : - 2 ^ 31 <= z < 2 ^ 31 -> toInt32 z = z.
Proof. int32_cases. Qed.

Lemma toInt32_mod (z : Z) : toInt32 z mod 2 ^ 32 = z mod 2 ^ 32.
Proof. int32_cases. Qed.

Lemma toInt32_range (z : Z) : - 2 ^ 31 <= toInt32 z < 2 ^ 31.
Proof. int32_cases. Qed.

Lemma toInt32_idem (z : Z) : toInt32 (toInt32 z) = toInt32 z.
Proof. apply toInt32_small, toInt32_range. Qed.

(** Modulo a power of two that fits the word, wrapping changes nothing. *)
Lemma mod_pow2_le (z : Z) (m n : Z) :
  0 <= m <= n -> (z mod 2 ^ n) mod 2 ^ m = z mod 2 ^ m.
Proof.
  intros H. replace n with (m + (n - m)) by lia.
  rewrite Z.pow_add_r by lia.
  rewrite Z.rem_mul_r by (apply Z.pow_nonzero || apply Z.pow_pos_nonneg; lia).
  rewrite Z.mul_comm, Z.mod_add by (apply Z.pow_nonzero; lia).
  apply Z.mod_mod. apply Z.pow_nonzero; lia.
Qed.

Lemma toInt32_mod_low (z m : Z) : 0 <= m <= 32 -> toInt32 z mod 2 ^ m = z mod 2 ^ m.
Proof.
  intros H. rewrite <- (mod_pow2_le (toInt32 z) m 32) by lia.
  rewrite toInt32_mod. apply mod_pow2_le. lia.
Qed.

Lemma land_31 (s : Z) : 0 <= s < 32 -> Z.land s 31 = s.
Proof.
  intros H. change 31 with (Z.ones 5). rewrite Z.land_ones by lia.
  apply Z.mod_small. change (2 ^ 5) with 32. lia.
Qed.

(** [x & (2^w - 1)] keeps the [w] low bits. *)
Lemma band_ones (x w : Z) : 0 <= w <= 30 -> band x (Z.ones w) = x mod 2 ^ w.
Proof.
  intros H. unfold band.
  assert (Hp : 0 < 2 ^ w) by (apply Z.pow_pos_nonneg; lia).
  assert (Hle : 2 ^ w <= 2 ^ 30) by (apply Z.pow_le_mono_r; lia).
  change (2 ^ 30) with 1073741824 in Hle.
  assert (Ho : Z.ones w = 2 ^ w - 1) by (rewrite Z.ones_equiv; lia).
  rewrite (toInt32_small (Z.ones w))
    by (change (2 ^ 31) with 2147483648; lia).
  rewrite Z.land_ones by lia.
  rewrite toInt32_mod_low by lia.
  apply toInt32_small. change (2 ^ 31) with 2147483648.
  pose proof (Z.mod_pos_bound x (2 ^ w) Hp). lia.
Qed.

(** Reading [w] bits at position [s] of a 32-bit accumulator. *)
Lemma field_read (v s w : Z) :
  0 <= s -> 0 <= w -> s + w <= 32 ->
  (Z.shiftr (toUint32 v) s) mod 2 ^ w = (v mod 2 ^ (s + w)) / 2 ^ s.
Proof.
  intros Hs Hw Hsw. unfold toUint32. rewrite Z.shiftr_div_pow2 by lia.
  assert (Hps : 0 < 2 ^ s) by (apply Z.pow_pos_nonneg; lia).
  assert (Hpw : 0 < 2 ^ w) by (apply Z.pow_pos_nonneg; lia).
  rewrite <- (mod_pow2_le v (s + w) 32) by lia.
  set (a := v mod 2 ^ 32).
  rewrite Z.pow_add_r by lia.
  rewrite Z.rem_mul_r by lia.
  rewrite (Z.mul_comm (2 ^ s)), Z.div_add by lia.
  rewrite (Z.div_small (a mod 2 ^ s)) by (apply Z.mod_pos_bound; lia).
  reflexivity.
Qed.

(** Shifting [k] new bits into an accumulator. *)
Lemma shift_in (v m k x : Z) :
  0 <= m -> 0 <= k -> 0 <= x < 2 ^ k ->
  (v * 2 ^ k + x) mod 2 ^ (m + k) = (v mod 2 ^ m) * 2 ^ k + x.
Proof.
  intros Hm Hk Hx.
  assert (Hpk : 0 < 2 ^ k) by (apply Z.pow_pos_nonneg; lia).
  assert (Hpm : 0 < 2 ^ m) by (apply Z.pow_pos_nonneg; lia).
  rewrite (Z.add_comm m k), Z.pow_add_r by lia.
  rewrite Z.rem_mul_r by lia.
  rewrite (Z.add_comm (v * 2 ^ k)), Z.mod_add by lia.
  rewrite Z.div_add by lia.
  rewrite Z.mod_small, Z.div_small by lia. rewrite Z.add_0_l. lia.
Qed.

Lemma lor_disjoint (a x k : Z) :
  0 <= k -> a mod 2 ^ k = 0 -> 0 <= x < 2 ^ k -> Z.lor a x = a + x.
Proof.
  intros Hk Ha Hx.
  assert (Hland : Z.land a x = 0).
  { apply Z.bits_inj'. intros n Hn. rewrite Z.land_spec, Z.bits_0.
    destruct (Z.lt_ge_cases n k) as [Hlt|Hge].
    - rewrite <- (Z.mod_pow2_bits_low a k n) by lia.
      rewrite Ha, Z.bits_0. reflexivity.
    - rewrite <- (Z.mod_small x (2 ^ k)) by lia.
      rewrite Z.mod_pow2_bits_high by lia. apply andb_false_r. }
  rewrite <- Z.lxor_lor by exact Hland.
  symmetry. apply Z.add_nocarry_lxor. exact Hland.
Qed.

(** [(v << k) | x] modulo the word size, for [x] of [k] bits. *)
Lemma bor_shl_mod (v k x : Z) :
  0 <= k < 32 -> 0 <= x < 2 ^ k ->
  bor (shl v k) x mod 2 ^ 32 = (v * 2 ^ k + x) mod 2 ^ 32.
Proof.
  intros Hk Hx. unfold bor, shl.
  rewrite land_31 by lia. rewrite toInt32_idem.
  assert (Hpk : 0 < 2 ^ k) by (apply Z.pow_pos_nonneg; lia).
  assert (Hle : 2 ^ k <= 2 ^ 31) by (apply Z.pow_le_mono_r; lia).
  rewrite (toInt32_small x) by lia.
  rewrite Z.shiftl_mul_pow2 by lia.
  rewrite (lor_disjoint _ x k); try lia.
  - rewrite toInt32_mod.
    rewrite Z.add_mod by (apply Z.pow_nonzero; lia).
    rewrite toInt32_mod.
    rewrite (Z.mul_mod (toInt32 v)) by (apply Z.pow_nonzero; lia).
    rewrite toInt32_mod.
    rewrite <- Z.mul_mod by (apply Z.pow_nonzero; lia).
    rewrite <- Z.add_mod by (apply Z.pow_nonzero; lia).
    reflexivity.
  - rewrite toInt32_mod_low by lia. apply Z.mod_mul. lia.
Qed.

(** ** Bit strings *)

Lemma num_fold (l : list bool) (a : Z) :
  fold_left (fun a b => 2 * a + Z.b2z b) l a = a * 2 ^ Z.of_nat (length l) + num l.
Proof.
  unfold num. revert a. induction l as [|b l IH]; intros a.
  - simpl. lia.
  - cbn [fold_left length]. rewrite IH, (IH (2 * 0 + Z.b2z b)).
    rewrite Nat2Z.inj_succ, Z.pow_succ_r by lia. lia.
Qed.

Lemma num_cons (b : bool) (l : list bool) :
  num (b :: l) = Z.b2z b * 2 ^ Z.of_nat (length l) + num l.
Proof.
  unfold num at 1. cbn [fold_left]. rewrite num_fold. lia.
Qed.

Lemma num_app (l1 l2 : list bool) :
  num (l1 ++ l2) = num l1 * 2 ^ Z.of_nat (length l2) + num l2.
Proof.
  unfold num at 1. rewrite fold_left_app. fold (num l1). apply num_fold.
Qed.

Lemma num_range (l : list bool) : 0 <= num l < 2 ^ Z.of_nat (length l).
Proof.
  induction l as [|b l IH].
  - cbn. lia.
  - rewrite num_cons. cbn [length]. rewrite Nat2Z.inj_succ, Z.pow_succ_r by lia.
    destruct b; cbn [Z.b2z]; lia.
Qed.

Lemma length_bitsOf (w : nat) (z : Z) : length (bitsOf w z) = w.
Proof. induction w; cbn; congruence. Qed.

Lemma bitsOf_mod (w : nat) (z m : Z) :
  Z.of_nat w <= m -> bitsOf w (z mod 2 ^ m) = bitsOf w z.
Proof.
  induction w as [|w IH]; intros H; [reflexivity|].
  cbn [bitsOf]. rewrite Z.mod_pow2_bits_low by lia. rewrite IH by lia. reflexivity.
Qed.

Lemma num_bitsOf (w : nat) (z : Z) : num (bitsOf w z) = z mod 2 ^ Z.of_nat w.
Proof.
  induction w as [|w IH].
  - cbn. rewrite Z.mod_1_r. reflexivity.
  - cbn [bitsOf]. rewrite num_cons, length_bitsOf, IH.
    rewrite Nat2Z.inj_succ, Z.pow_succ_r by lia.
    assert (Hp : 0 < 2 ^ Z.of_nat w) by (apply Z.pow_pos_nonneg; lia).
    rewrite (Z.mul_comm 2), Z.rem_mul_r by lia.
    rewrite Z.testbit_spec' by lia. lia.
Qed.

Lemma bitsOf_num (l : list bool) : bitsOf (length l) (num l) = l.
Proof.
  induction l as [|b l IH]; [reflexivity|].
  cbn [length bitsOf]. rewrite num_cons.
  pose proof (num_range l) as Hr.
  assert (Hp : 0 < 2 ^ Z.of_nat (length l)) by (apply Z.pow_pos_nonneg; lia).
  f_equal.
  - apply Z.b2z_inj. rewrite Z.testbit_spec' by lia.
    rewrite Z.div_add_l by lia. rewrite Z.div_small by lia.
    destruct b; reflexivity.
  - rewrite <- (bitsOf_mod _ _ (Z.of_nat (length l))) by lia.
    rewrite Z.add_comm, Z.mod_add by lia. rewrite Z.mod_small by lia. exact IH.
Qed.

Lemma bitsOf_inj (w : nat) (x y : Z) :
  0 <= x < 2 ^ Z.of_nat w -> 0 <= y < 2 ^ Z.of_nat w ->
  bitsOf w x = bitsOf w y -> x = y.
Proof.
  intros Hx Hy H. apply (f_equal num) in H. rewrite !num_bitsOf in H.
  rewrite !Z.mod_small in H by lia. exact H.
Qed.

Lemma length_flat8 (b : bytes) : length (flat8 b) = (8 * length b)%nat.
Proof.
  induction b as [|x b IH]; [reflexivity|].
  unfold flat8 in *. cbn [flat_map]. rewrite length_app, length_bitsOf, IH. cbn [length]. lia.
Qed.

Lemma length_flat5 (s : jsstring) : length (flat5 s) = (5 * length s)%nat.
Proof.
  induction s as [|x s IH]; [reflexivity|].
  unfold flat5 in *. cbn [flat_map]. rewrite length_app, length_bitsOf, IH. cbn [length]. lia.
Qed.

Create Rewrite HintDb lengths.
#[local] Hint Rewrite @length_app length_bitsOf length_flat8 length_flat5 : lengths.

(** Two bit strings of different lengths are not equal. *)
Ltac by_length H :=
  apply (f_equal (@length bool)) in H; autorewrite with lengths in H;
  cbn [length] in H; lia.

Lemma flat8_app (a b : bytes) : flat8 (a ++ b) = flat8 a ++ flat8 b.
Proof. apply flat_map_app. Qed.

Lemma flat5_app (a b : jsstring) : flat5 (a ++ b) = flat5 a ++ flat5 b.
Proof. apply flat_map_app. Qed.

Lemma flat8_inj (a b : bytes) : flat8 a = flat8 b -> a = b.
Proof.
  revert b. induction a as [|x a IH]; intros [|y b] H.
  - reflexivity.
  - by_length H.
  - by_length H.
  - unfold flat8 in H. cbn [flat_map] in H.
    apply app_inj_1 in H; [|rewrite !length_bitsOf; reflexivity].
    destruct H as [Hx Ht]. f_equal; [|apply IH, Ht].
    apply byteZ_inj. apply (bitsOf_inj 8); auto using byteZ_range.
Qed.

(** ** The alphabet and the decoder's table *)

Lemma forall_below (P : nat -> bool) (k n : nat) :
  forallb P (seq 0 k) = true -> (n < k)%nat -> P n = true.
Proof.
  intros H Hn. rewrite forallb_forall in H. apply H. apply in_seq. lia.
Qed.

Lemma alphabet_index (i : Z) :
  0 <= i < 32 ->
  isBase32Char (Base32Encoder.alphabetAt i) = true
  /\ charValue (Base32Encoder.alphabetAt i) = i.
Proof.
  intros H.
  pose (P := fun n : nat =>
     isBase32Char (Base32Encoder.alphabetAt (Z.of_nat n))
     && (charValue (Base32Encoder.alphabetAt (Z.of_nat n)) =? Z.of_nat n)).
  assert (HP : P (Z.to_nat i) = true)
    by (apply (forall_below P 32); [vm_compute; reflexivity | lia]).
  unfold P in HP. rewrite Z2Nat.id in HP by lia.
  apply andb_true_iff in HP. destruct HP as [H1 H2].
  split; [exact H1 | apply Z.eqb_eq, H2].
Qed.

Lemma base32_char (c : N) :
  isBase32Char c = true ->
  (Base32Encoder.MAX_ASCII <? c)%N = false
  /\ 0 <= charValue c < 32
  /\ Base32Encoder.alphabetAt (charValue c) = c
  /\ isWhiteSpace c = false
  /\ isAscii c = true
  /\ upperAscii c = c.
Proof.
  intros H.
  pose (P := fun n : nat =>
     let c := N.of_nat n in
     implb (isBase32Char c)
       (negb (Base32Encoder.MAX_ASCII <? c)%N
        && (0 <=? charValue c) && (charValue c <? 32)
        && (Base32Encoder.alphabetAt (charValue c) =? c)%N
        && negb (isWhiteSpace c) && isAscii c && (upperAscii c =? c)%N)).
  assert (Hc : (c < 91)%N).
  { unfold isBase32Char in H. apply orb_true_iff in H.
    destruct H as [H|H]; apply andb_true_iff in H; destruct H as [_ H];
      apply N.leb_le in H; lia. }
  assert (HP : P (N.to_nat c) = true)
    by (apply (forall_below P 91); [vm_compute; reflexivity | lia]).
  unfold P in HP. cbv zeta in HP. rewrite N2Nat.id, H in HP. cbn [implb] in HP.
  repeat (apply andb_true_iff in HP; destruct HP as [HP ?]).
  repeat match goal with
         | H : negb _ = true |- _ => apply negb_true_iff in H
         | H : (_ =? _)%N = true |- _ => apply N.eqb_eq in H
         | H : (_ <=? _) = true |- _ => apply Z.leb_le in H
         | H : (_ <? _) = true |- _ => apply Z.ltb_lt in H
         end.
  repeat split; auto.
Qed.

(** A text of alphabet characters is left as it is by [trim] and
    [toUpperCase]. *)
Lemma trimStart_base32 (s : jsstring) :
  match s with c :: _ => isWhiteSpace c = false | [] => True end -> trimStart s = s.
Proof.
  destruct s as [|c s]; [reflexivity|]. intros H. cbn [trimStart]. rewrite H. reflexivity.
Qed.

Lemma trim_base32 (s : jsstring) : forallb isBase32Char s = true -> trim s = s.
Proof.
  intros H. unfold trim.
  assert (Hall : forall c, In c s -> isWhiteSpace c = false).
  { intros c Hc. rewrite forallb_forall in H. apply base32_char. apply H, Hc. }
  rewrite (trimStart_base32 s).
  - rewrite (trimStart_base32 (rev s)); [apply rev_involutive|].
    destruct (rev s) as [|c r] eqn:E; [exact I|].
    apply Hall. apply in_rev. rewrite E. left. reflexivity.
  - destruct s as [|c r]; [exact I|]. apply Hall. left. reflexivity.
Qed.

Lemma toUpperCase_base32 (U : jsstring -> jsstring) (s : jsstring) :
  forallb isBase32Char s = true -> toUpperCase U s = s.
Proof.
  intros H. unfold toUpperCase. rewrite forallb_forall in H.
  assert (Ha : forallb isAscii s = true).
  { apply forallb_forall. intros c Hc. apply base32_char, H, Hc. }
  rewrite Ha. rewrite <- (map_id s) at 2. apply map_ext_in.
  intros c Hc. apply base32_char, H, Hc.
Qed.

(** ** Base32Encoder.encode *)

Lemma emitChars_spec (fuel : nat) :
  forall (bits value : Z) (out : jsstring) (q : list bool),
    holds bits value q -> bits <= 32 -> (Z.to_nat bits <= fuel)%nat ->
    exists cs q',
      Base32Encoder.emitChars fuel bits value out = (Z.of_nat (length q'), out ++ cs)
      /\ flat5 cs ++ q' = q
      /\ (length q' < 5)%nat
      /\ holds (Z.of_nat (length q')) value q'
      /\ forallb isBase32Char cs = true.
Proof.
  induction fuel as [|fuel IH]; intros bits value out q [Hb Hv] H32 Hfuel.
  - exists [], q. cbn [Base32Encoder.emitChars]. rewrite app_nil_r.
    subst bits. repeat split; try assumption; try reflexivity. lia.
  - cbn [Base32Encoder.emitChars]. unfold Base32Encoder.BITS_PER_CHAR.
    destruct (Z.leb_spec 5 bits) as [Hge|Hlt].
    + pose proof (take_drop 5 q) as Hq. 
      set (Q5 := take 5 q) in *. set (Qr := drop 5 q) in *.
      assert (HlQ5 : length Q5 = 5%nat) by (unfold Q5; rewrite length_take; lia).
      assert (HlQr : Z.of_nat (length Qr) = bits - 5)
        by (unfold Qr; rewrite length_drop; lia).
      pose proof (num_range Q5) as HrQ5. rewrite HlQ5 in HrQ5.
      change (2 ^ Z.of_nat 5) with 32 in HrQ5.
      pose proof (num_range Qr) as HrQr.
      assert (Hpr : 0 < 2 ^ Z.of_nat (length Qr)) by (apply Z.pow_pos_nonneg; lia).
      assert (Hnum : value mod 2 ^ bits = num Q5 * 2 ^ Z.of_nat (length Qr) + num Qr)
        by (rewrite Hv, <- Hq; apply num_app).
      assert (Hidx : band (ushr value (bits - 5)) Base32Encoder.CHAR_MASK = num Q5).
      { change Base32Encoder.CHAR_MASK with (Z.ones 5).
        rewrite band_ones by lia. unfold ushr. rewrite land_31 by lia.
        rewrite field_read by lia. replace (bits - 5 + 5) with bits by lia.
        rewrite Hnum, <- HlQr. rewrite Z.div_add_l by lia.
        rewrite Z.div_small by lia. lia. }
      rewrite Hidx.
      destruct (alphabet_index (num Q5) HrQ5) as [Hc1 Hc2].
      destruct (IH (bits - 5) value (out ++ [Base32Encoder.alphabetAt (num Q5)]) Qr)
        as (cs & q' & He & Hf & Hl & Hh & Hcs); try lia.
      { split; [lia|]. rewrite <- (mod_pow2_le value (bits - 5) bits) by lia.
        rewrite Hnum, <- HlQr. rewrite Z.add_comm, Z.mod_add by lia.
        apply Z.mod_small. lia. }
      exists (Base32Encoder.alphabetAt (num Q5) :: cs), q'.
      rewrite He, <- app_assoc. cbn [app].
      split; [reflexivity|]. split; [|split; [exact Hl|split; [exact Hh|]]].
      * unfold flat5 in *. cbn [flat_map]. rewrite Hc2, <- app_assoc, Hf.
        rewrite <- HlQ5, bitsOf_num. exact Hq.
      * cbn [forallb]. rewrite Hc1, Hcs. reflexivity.
    + exists [], q. rewrite app_nil_r. subst bits.
      repeat split; try assumption; try reflexivity. lia.
Qed.

Lemma shl_mod (v k m : Z) :
  0 <= k < 32 -> 0 <= m <= 32 -> shl v k mod 2 ^ m = (v * 2 ^ k) mod 2 ^ m.
Proof.
  intros Hk Hm. unfold shl. rewrite land_31 by lia.
  rewrite toInt32_mod_low by lia. rewrite Z.shiftl_mul_pow2 by lia.
  assert (Hnz : 2 ^ m <> 0) by (apply Z.pow_nonzero; lia).
  rewrite Z.mul_mod by exact Hnz. rewrite toInt32_mod_low by lia.
  rewrite <- Z.mul_mod by exact Hnz. reflexivity.
Qed.

(** Shifting a [w]-bit value into an accumulator appends its bits to the
    queue. *)
Lemma holds_push (bits value x : Z) (q : list bool) (w : nat) :
  holds bits value q -> (0 < w < 32)%nat -> bits + Z.of_nat w <= 32 ->
  0 <= x < 2 ^ Z.of_nat w ->
  holds (bits + Z.of_nat w) (bor (shl value (Z.of_nat w)) x) (q ++ bitsOf w x).
Proof.
  intros [Hb Hv] Hw H32 Hx. split.
  - rewrite length_app, length_bitsOf. lia.
  - rewrite <- (mod_pow2_le _ (bits + Z.of_nat w) 32) by lia.
    rewrite bor_shl_mod by lia. rewrite mod_pow2_le by lia.
    rewrite shift_in by lia. rewrite Hv.
    rewrite num_app, length_bitsOf, num_bitsOf. rewrite (Z.mod_small x) by lia.
    reflexivity.
Qed.

Lemma encodeByte_spec (value : Z) (out : jsstring) (q : list bool) (b : byte) :
  holds (Z.of_nat (length q)) value q -> (length q < 5)%nat ->
  exists cs q' value',
    Base32Encoder.encodeByte (Z.of_nat (length q), value, out) b
    = (Z.of_nat (length q'), value', out ++ cs)
    /\ flat5 cs ++ q' = q ++ bitsOf 8 (byteZ b)
    /\ (length q' < 5)%nat
    /\ holds (Z.of_nat (length q')) value' q'
    /\ forallb isBase32Char cs = true.
Proof.
  intros Hh Hl. unfold Base32Encoder.encodeByte, Base32Encoder.BITS_PER_BYTE.
  pose proof (holds_push _ _ (byteZ b) _ 8 Hh) as Hp.
  change (Z.of_nat 8) with 8 in Hp.
  specialize (Hp ltac:(lia) ltac:(lia) (byteZ_range b)).
  destruct (emitChars_spec (Z.to_nat (Z.of_nat (length q) + 8)) _ _ out _ Hp)
    as (cs & q' & He & Hf & Hl' & Hh' & Hcs); try lia.
  rewrite He. exists cs, q', (bor (shl value 8) (byteZ b)). auto.
Qed.

Lemma encode_fold (input : bytes) :
  forall (value : Z) (out : jsstring) (q : list bool),
    holds (Z.of_nat (length q)) value q -> (length q < 5)%nat ->
    exists cs q' value',
      fold_left Base32Encoder.encodeByte input (Z.of_nat (length q), value, out)
      = (Z.of_nat (length q'), value', out ++ cs)
      /\ flat5 cs ++ q' = q ++ flat8 input
      /\ (length q' < 5)%nat
      /\ holds (Z.of_nat (length q')) value' q'
      /\ forallb isBase32Char cs = true.
Proof.
  induction input as [|b input IH]; intros value out q Hh Hl.
  - exists [], q, value. cbn [fold_left flat8 flat_map]. rewrite !app_nil_r. auto.
  - cbn [fold_left].
    destruct (encodeByte_spec value out q b Hh Hl) as (cs & q1 & v1 & He & Hf & Hl1 & Hh1 & Hcs).
    rewrite He.
    destruct (IH v1 (out ++ cs) q1 Hh1 Hl1) as (cs' & q2 & v2 & He' & Hf' & Hl2 & Hh2 & Hcs').
    rewrite He'. exists (cs ++ cs'), q2, v2.
    split; [rewrite app_assoc; reflexivity|].
    split; [|split; [exact Hl2|split; [exact Hh2|]]].
    + rewrite flat5_app, <- app_assoc, Hf'. rewrite app_assoc, Hf.
      unfold flat8. cbn [flat_map]. rewrite app_assoc. reflexivity.
    + rewrite forallb_app, Hcs, Hcs'. reflexivity.
Qed.

(** What [encode] returns on 18 bytes: 29 alphabet characters that spell
    the 144 bits of the input followed by one zero bit. *)
Lemma encode_spec (b : bytes) :
  length b = 18%nat ->
  exists s,
    Base32Encoder.encode b = Returned s
    /\ flat5 s = flat8 b ++ [false]
    /\ forallb isBase32Char s = true
    /\ length s = 29%nat.
Proof.
  intros Hlen. unfold Base32Encoder.encode, Base32Encoder.VID_BINARY_BYTES.
  rewrite Hlen. cbn [Nat.eqb negb].
  destruct (encode_fold b 0 [] []) as (cs & q & v & He & Hf & Hl & Hh & Hcs).
  { split; reflexivity. }
  { cbn. lia. }
  change (Z.of_nat (length (@nil bool))) with 0 in He. rewrite He.
  cbn [app] in *.
  assert (Hq : length q = 4%nat /\ length cs = 28%nat).
  { apply (f_equal (@length bool)) in Hf.
    rewrite length_app, length_flat5, length_flat8 in Hf. lia. }
  destruct Hq as [Hq Hc]. rewrite Hq in *. change (Z.of_nat 4) with 4 in *.
  cbn [Z.ltb Z.compare]. unfold Base32Encoder.BITS_PER_CHAR.
  change (5 - 4) with 1.
  assert (Hidx : band (shl v 1) Base32Encoder.CHAR_MASK = num (q ++ [false])).
  { change Base32Encoder.CHAR_MASK with (Z.ones 5). rewrite band_ones by lia.
    rewrite shl_mod by lia. destruct Hh as [_ Hv].
    pose proof (shift_in v 4 1 0) as Hs. change (4 + 1) with 5 in Hs.
    rewrite Z.add_0_r in Hs. rewrite Hs by lia. rewrite Hv.
    rewrite num_app. cbn [length]. change (num [false]) with 0.
    change (Z.of_nat 1) with 1. lia. }
  rewrite Hidx.
  pose proof (num_range (q ++ [false])) as Hr. rewrite length_app, Hq in Hr.
  change (2 ^ Z.of_nat (4 + length [false])) with 32 in Hr.
  destruct (alphabet_index _ Hr) as [Hc1 Hc2].
  eexists. split; [reflexivity|]. split; [|split].
  - rewrite flat5_app, <- Hf, <- app_assoc. f_equal.
    unfold flat5. cbn [flat_map]. rewrite Hc2, app_nil_r.
    replace 5%nat with (length (q ++ [false])) by (rewrite length_app, Hq; reflexivity).
    apply bitsOf_num.
  - rewrite forallb_app, Hcs. cbn [forallb]. rewrite Hc1. reflexivity.
  - rewrite length_app, Hc. reflexivity.
Qed.

(** ** Base32Encoder.decode *)

Lemma storeAll_app (a b output : bytes) (k : nat) :
  storeAll k (a ++ b) output = storeAll (k + length a) b (storeAll k a output).
Proof.
  revert k output. induction a as [|x a IH]; intros k output.
  - cbn. rewrite Nat.add_0_r. reflexivity.
  - cbn [app storeAll length]. rewrite IH. f_equal. lia.
Qed.

Lemma storeAll_fresh (ws pre : bytes) (m : nat) :
  (length ws <= m)%nat ->
  storeAll (length pre) ws (pre ++ replicate m x00)
  = pre ++ ws ++ replicate (m - length ws) x00.
Proof.
  revert pre m. induction ws as [|w ws IH]; intros pre m Hm.
  - cbn. rewrite Nat.sub_0_r. reflexivity.
  - cbn [storeAll length] in *. destruct m as [|m]; [lia|].
    cbn [replicate]. rewrite insert_app_r_alt by lia.
    rewrite Nat.sub_diag. cbn [insert list_insert].
    replace (S (length pre)) with (length (pre ++ [w])) by (rewrite length_app; cbn; lia).
    replace (pre ++ w :: replicate m x00) with ((pre ++ [w]) ++ replicate m x00)
      by (rewrite <- app_assoc; reflexivity).
    rewrite IH by lia. rewrite <- app_assoc. reflexivity.
Qed.

Lemma decodeChar_spec (value : Z) (output : bytes) (k : nat) (q : list bool) (c : N) :
  holds (Z.of_nat (length q)) value q -> (length q < 8)%nat ->
  isBase32Char c = true ->
  exists ws q' value',
    Base32Encoder.decodeChar (Z.of_nat (length q), value, output, k) c
    = Returned (Z.of_nat (length q'), value', storeAll k ws output, (k + length ws)%nat)
    /\ flat8 ws ++ q' = q ++ bitsOf 5 (charValue c)
    /\ (length q' < 8)%nat
    /\ holds (Z.of_nat (length q')) value' q'.
Proof.
  intros Hh Hl Hc.
  destruct (base32_char c Hc) as (Hmax & Hrange & _).
  unfold Base32Encoder.decodeChar. rewrite Hmax.
  fold (charValue c).
  destruct (Z.eqb_spec (charValue c) (-1)) as [He|_]; [lia|].
  unfold Base32Encoder.BITS_PER_CHAR, Base32Encoder.BITS_PER_BYTE.
  pose proof (holds_push _ _ (charValue c) _ 5 Hh) as Hp.
  change (Z.of_nat 5) with 5 in Hp. change (2 ^ 5) with 32 in Hp.
  specialize (Hp ltac:(lia) ltac:(lia) Hrange).
  set (value' := bor (shl value 5) (charValue c)) in *.
  set (Q := q ++ bitsOf 5 (charValue c)) in *.
  assert (HlQ : length Q = (length q + 5)%nat)
    by (unfold Q; rewrite length_app, length_bitsOf; reflexivity).
  destruct (Z.leb_spec 8 (Z.of_nat (length q) + 5)) as [Hge|Hlt].
  - pose proof (take_drop 8 Q) as HQ.
    set (Q8 := take 8 Q) in *. set (Qr := drop 8 Q) in *.
    assert (HlQ8 : length Q8 = 8%nat) by (unfold Q8; rewrite length_take; lia).
    assert (HlQr : Z.of_nat (length Qr) = Z.of_nat (length q) + 5 - 8)
      by (unfold Qr; rewrite length_drop; lia).
    pose proof (num_range Q8) as HrQ8. rewrite HlQ8 in HrQ8.
    change (2 ^ Z.of_nat 8) with 256 in HrQ8.
    pose proof (num_range Qr) as HrQr.
    assert (Hpr : 0 < 2 ^ Z.of_nat (length Qr)) by (apply Z.pow_pos_nonneg; lia).
    destruct Hp as [_ Hv].
    assert (Hnum : value' mod 2 ^ (Z.of_nat (length q) + 5)
                   = num Q8 * 2 ^ Z.of_nat (length Qr) + num Qr)
      by (rewrite Hv, <- HQ; apply num_app).
    assert (Hbyte : band (ushr value' (Z.of_nat (length q) + 5 - 8)) Base32Encoder.BYTE_MASK
                    = num Q8).
    { change Base32Encoder.BYTE_MASK with (Z.ones 8).
      rewrite band_ones by lia. unfold ushr. rewrite land_31 by lia.
      rewrite field_read by lia.
      replace (Z.of_nat (length q) + 5 - 8 + 8) with (Z.of_nat (length q) + 5) by lia.
      rewrite Hnum, <- HlQr. rewrite Z.div_add_l by lia.
      rewrite Z.div_small by lia. lia. }
    rewrite Hbyte. exists [Zbyte (num Q8)], Qr, value'.
    cbn [storeAll length]. rewrite HlQr.
    replace (k + 1)%nat with (S k) by lia.
    split; [reflexivity|]. split; [|split; [unfold Qr; rewrite length_drop; lia|]].
    + unfold flat8. cbn [flat_map]. rewrite app_nil_r, byteZ_Zbyte.
      rewrite (Z.mod_small (num Q8)) by lia.
      rewrite <- HlQ8, bitsOf_num. exact HQ.
    + split; [symmetry; exact HlQr|].
      rewrite <- (mod_pow2_le value' _ (Z.of_nat (length q) + 5)) by lia.
      rewrite Hnum, <- HlQr. rewrite Z.add_comm, Z.mod_add by lia.
      apply Z.mod_small. lia.
  - exists [], Q, value'. cbn [storeAll length flat8 flat_map app].
    rewrite Nat.add_0_r, HlQ.
    replace (Z.of_nat (length q + 5)) with (Z.of_nat (length q) + 5) by lia.
    split; [reflexivity|]. split; [reflexivity|]. split; [lia|exact Hp].
Qed.

Lemma decodeLoop_spec (rest : jsstring) :
  forall (value : Z) (output : bytes) (k : nat) (q : list bool),
    holds (Z.of_nat (length q)) value q -> (length q < 8)%nat ->
    forallb isBase32Char rest = true ->
    exists ws q' value',
      Base32Encoder.decodeLoop rest (Z.of_nat (length q), value, output, k)
      = Returned (Z.of_nat (length q'), value', storeAll k ws output, (k + length ws)%nat)
      /\ flat8 ws ++ q' = q ++ flat5 rest
      /\ (length q' < 8)%nat.
Proof.
  induction rest as [|c rest IH]; intros value output k q Hh Hl Hall.
  - exists [], q, value. cbn. rewrite Nat.add_0_r, app_nil_r. auto.
  - cbn [forallb] in Hall. apply andb_true_iff in Hall. destruct Hall as [Hc Hall].
    cbn [Base32Encoder.decodeLoop].
    destruct (decodeChar_spec value output k q c Hh Hl Hc)
      as (ws & q1 & v1 & He & Hf & Hl1 & Hh1).
    rewrite He. cbn [bind].
    destruct (IH v1 (storeAll k ws output) (k + length ws)%nat q1 Hh1 Hl1 Hall)
      as (ws' & q2 & v2 & He' & Hf' & Hl2).
    rewrite He'. exists (ws ++ ws'), q2, v2.
    rewrite storeAll_app, length_app, Nat.add_assoc.
    split; [reflexivity|]. split; [|exact Hl2].
    rewrite flat8_app, <- app_assoc, Hf'. rewrite app_assoc, Hf.
    unfold flat5. cbn [flat_map]. rewrite app_assoc. reflexivity.
Qed.

(** What [decode] returns on a text whose trimmed, uppercased form is 29
    alphabet characters: the 18 bytes its first 144 bits spell; the last
    bit is dropped. *)
Lemma decode_spec (U : jsstring -> jsstring) (s : jsstring) :
  length (toUpperCase U (trim s)) = 29%nat ->
  forallb isBase32Char (toUpperCase U (trim s)) = true ->
  exists b pad,
    Base32Encoder.decode U s = Returned b
    /\ length b = 18%nat
    /\ flat8 b ++ [pad] = flat5 (toUpperCase U (trim s)).
Proof.
  intros Hlen Hall. unfold Base32Encoder.decode.
  set (n := toUpperCase U (trim s)) in *.
  change Base32Encoder.VID_STRING_CHARS with 29%nat.
  rewrite Hlen. cbn [Nat.eqb negb].
  destruct (decodeLoop_spec n 0 (newUint8Array Base32Encoder.VID_BINARY_BYTES) 0 [])
    as (ws & q & v & He & Hf & Hl); auto.
  { split; reflexivity. }
  { cbn. lia. }
  change (Z.of_nat (length (@nil bool))) with 0 in He. rewrite He. cbn [bind app] in *.
  assert (Hq : length ws = 18%nat /\ length q = 1%nat).
  { apply (f_equal (@length bool)) in Hf.
    rewrite length_app, length_flat5, length_flat8 in Hf. lia. }
  destruct Hq as [Hws Hq]. rewrite Hws.
  change Base32Encoder.VID_BINARY_BYTES with 18%nat. cbn [Nat.add Nat.eqb negb].
  destruct q as [|pad [|? ?]]; cbn in Hq; try lia.
  exists ws, pad. split; [|split; [exact Hws|exact Hf]].
  f_equal. unfold newUint8Array.
  pose proof (storeAll_fresh ws [] 18) as Hs. cbn [length app] in Hs.
  rewrite Hs by lia. rewrite Hws. cbn. apply app_nil_r.
Qed.

(** ** The two round trips *)

Lemma flat5_inj (a b : jsstring) :
  forallb isBase32Char a = true -> forallb isBase32Char b = true ->
  flat5 a = flat5 b -> a = b.
Proof.
  revert b. induction a as [|x a IH]; intros [|y b] Ha Hb H.
  - reflexivity.
  - by_length H.
  - by_length H.
  - cbn [forallb] in Ha, Hb.
    apply andb_true_iff in Ha. apply andb_true_iff in Hb.
    destruct Ha as [Hx Ha]. destruct Hb as [Hy Hb].
    unfold flat5 in H. cbn [flat_map] in H.
    apply app_inj_1 in H; [|rewrite !length_bitsOf; reflexivity].
    destruct H as [Hxy Ht]. f_equal; [|apply IH; assumption].
    destruct (base32_char x Hx) as (_ & Hrx & Hax & _).
    destruct (base32_char y Hy) as (_ & Hry & Hay & _).
    rewrite <- Hax, <- Hay. f_equal. apply (bitsOf_inj 5); assumption.
Qed.

(** The last bit of a text is the low bit of its last character. *)
Lemma flat5_last_bit (s : jsstring) :
  s <> [] ->
  exists pre, flat5 s = pre ++ [Z.odd (charValue (List.last s 0%N))].
Proof.
  intros Hs. destruct (exists_last Hs) as (init & c & ->).
  rewrite last_last, flat5_app. unfold flat5 at 2. cbn [flat_map bitsOf].
  rewrite app_nil_r. rewrite Z.bit0_odd.
  eexists (flat5 init ++ [_; _; _; _]). rewrite <- app_assoc. reflexivity.
Qed.

(** Decoding what [encode] returned gives the bytes back; the text is 29
    alphabet characters, which [trim] and [toUpperCase] leave as they are. *)
Lemma encode_then_decode (U : jsstring -> jsstring) (b : bytes) (s : jsstring) :
  length b = 18%nat -> Base32Encoder.encode b = Returned s ->
  length s = 29%nat /\ forallb isBase32Char s = true
  /\ toUpperCase U (trim s) = s
  /\ Base32Encoder.decode U s = Returned b.
Proof.
  intros Hlen He.
  destruct (encode_spec b Hlen) as (s' & He' & Hf & Hall & Hls).
  rewrite He in He'. injection He' as <-.
  assert (Hn : toUpperCase U (trim s) = s)
    by (rewrite trim_base32 by exact Hall; apply toUpperCase_base32, Hall).
  split; [exact Hls|]. split; [exact Hall|]. split; [exact Hn|].
  destruct (decode_spec U s) as (b' & pad & Hd & Hlb & Hf').
  { rewrite Hn. exact Hls. }
  { rewrite Hn. exact Hall. }
  rewrite Hd. f_equal. rewrite Hn, Hf in Hf'.
  apply app_inj_tail in Hf'. destruct Hf' as [Hf' _]. apply flat8_inj, Hf'.
Qed.

(** C3. For every 18-byte array [b], [encode(b)] returns a text of 29
    characters and [decode] of that text returns an array equal to [b]
    byte for byte; neither call throws. *)
Theorem base32_decode_encode (U : jsstring -> jsstring) (b : bytes) :
  length b = 18%nat ->
  exists s,
    Base32Encoder.encode b = Returned s
    /\ length s = 29%nat
    /\ Base32Encoder.decode U s = Returned b.
Proof.
  intros Hlen.
  destruct (encode_spec b Hlen) as (s & He & _).
  destruct (encode_then_decode U b s Hlen He) as (Hls & _ & _ & Hd).
  exists s. auto.
Qed.

Lemma base32_decode_encode_witness :
  exists s,
    Base32Encoder.encode (hex "0123456789abcdef00112233445566778899") = Returned s
    /\ length s = 29%nat
    /\ Base32Encoder.decode keepCase s
       = Returned (hex "0123456789abcdef00112233445566778899").
Proof. apply (base32_decode_encode keepCase). reflexivity. Defined.

(** C4, as the code has it. For every string whose trimmed, uppercased
    form [n] is 29 alphabet characters, [decode] returns 18 bytes and
    [encode] of them returns a text that equals [n] exactly when the last
    character of [n] has an even value: its low bit is the one bit of
    padding, which [decode] drops and [encode] writes as zero. *)
Theorem base32_encode_decode (U : jsstring -> jsstring) (s : jsstring) :
  length (toUpperCase U (trim s)) = 29%nat ->
  forallb isBase32Char (toUpperCase U (trim s)) = true ->
  exists b t,
    Base32Encoder.decode U s = Returned b
    /\ Base32Encoder.encode b = Returned t
    /\ (t = toUpperCase U (trim s)
        <-> Z.even (charValue (List.last (toUpperCase U (trim s)) 0%N)) = true).
Proof.
  intros Hlen Hall.
  destruct (decode_spec U s Hlen Hall) as (b & pad & Hd & Hlb & Hf).
  destruct (encode_spec b Hlb) as (t & He & Hft & Hallt & Hlt).
  set (n := toUpperCase U (trim s)) in *.
  exists b, t. split; [exact Hd|]. split; [exact He|].
  assert (Hne : n <> []) by (intros E; rewrite E in Hlen; discriminate).
  destruct (flat5_last_bit n Hne) as (pre & Hpre).
  assert (Hpad : pad = Z.odd (charValue (List.last n 0%N))).
  { rewrite Hpre in Hf. apply app_inj_tail in Hf. apply Hf. }
  rewrite <- Z.negb_odd, <- Hpad. split.
  - intros ->. rewrite Hft in Hf. apply app_inj_tail in Hf.
    destruct Hf as [_ ->]. reflexivity.
  - intros Hp. apply negb_true_iff in Hp. subst pad.
    apply flat5_inj; try assumption. rewrite Hft, <- Hf, Hp. reflexivity.
Qed.

Lemma base32_encode_decode_witness :
  exists b t,
    Base32Encoder.decode keepCase (js "  aeayxt7fnaagmvyaacbekoj47f7vk ") = Returned b
    /\ Base32Encoder.encode b = Returned t
    /\ (t = toUpperCase keepCase (trim (js "  aeayxt7fnaagmvyaacbekoj47f7vk "))
        <-> Z.even (charValue (List.last
              (toUpperCase keepCase (trim (js "  aeayxt7fnaagmvyaacbekoj47f7vk "))) 0%N))
            = true).
Proof. apply (base32_encode_decode keepCase); reflexivity. Defined.

(** C4 as stated fails: a text of 29 alphabet characters that ends in [B]
    decodes to the same 18 bytes as the one that ends in [A], and those
    bytes encode to the latter. *)
Lemma base32_encode_decode_counterexample :
  Base32Encoder.decode keepCase (js "AAAAAAAAAAAAAAAAAAAAAAAAAAAAB")
  = Returned (replicate 18 x00)
  /\ Base32Encoder.encode (replicate 18 x00)
     = Returned (js "AAAAAAAAAAAAAAAAAAAAAAAAAAAAA")
  /\ js "AAAAAAAAAAAAAAAAAAAAAAAAAAAAA"
     <> toUpperCase keepCase (trim (js "AAAAAAAAAAAAAAAAAAAAAAAAAAAAB")).
Proof.
  split; [vm_compute; reflexivity|]. split; [vm_compute; reflexivity|].
  vm_compute. discriminate.
Qed.

(** ** HMACSigner *)

Lemma sha256_length (msg : bytes) : length (Sha256.sha256 msg) = 32%nat.
Proof. reflexivity. Qed.

Lemma hmacSha256_length (key msg : bytes) : length (Sha256.hmacSha256 key msg) = 32%nat.
Proof. unfold Sha256.hmacSha256. apply sha256_length. Qed.

Lemma bytes_eqb_refl (a : bytes) : HMACSigner.bytes_eqb a a = true.
Proof.
  unfold HMACSigner.bytes_eqb. rewrite Nat.eqb_refl. cbn [andb].
  induction a as [|x a IH]; [reflexivity|].
  cbn [combine forallb fst snd]. rewrite IH, andb_true_r.
  apply Byte.byte_dec_lb. reflexivity.
Qed.

(** A guard [if (n < m)] that the hypotheses rule out. *)
Ltac pass_guards :=
  repeat match goal with
         | |- context [(?a <? ?b)%nat] => destruct (Nat.ltb_spec a b); [lia|]
         end.

Lemma sign_returns (payload secret : jsval) (p k : bytes) :
  asUint8Array payload = Some p -> asUint8Array secret = Some k ->
  (1 <= length p)%nat -> (32 <= length k)%nat ->
  HMACSigner.sign payload secret = Returned (take 7 (Sha256.hmacSha256 k p)).
Proof.
  intros Ep Ek Hp Hk. unfold HMACSigner.sign, HMACSigner.validatePayload,
    HMACSigner.validateSecret, HMACSigner.MIN_PAYLOAD_BYTES, HMACSigner.MIN_SECRET_BYTES.
  rewrite Ep, Ek. pass_guards. reflexivity.
Qed.

Lemma signature_length (k p : bytes) : length (take 7 (Sha256.hmacSha256 k p)) = 7%nat.
Proof. rewrite length_take, hmacSha256_length. reflexivity. Qed.

Lemma verify_of_sign (payload secret : jsval) (p k : bytes) :
  asUint8Array payload = Some p -> asUint8Array secret = Some k ->
  (1 <= length p)%nat -> (32 <= length k)%nat ->
  HMACSigner.verify payload (VUint8Array (take 7 (Sha256.hmacSha256 k p))) secret
  = Returned true.
Proof.
  intros Ep Ek Hp Hk. unfold HMACSigner.verify. rewrite Ep, Ek. cbn [asUint8Array].
  unfold HMACSigner.MIN_PAYLOAD_BYTES, HMACSigner.MIN_SECRET_BYTES,
    HMACSigner.SIGNATURE_BYTES.
  pass_guards. rewrite signature_length. cbn [Nat.eqb negb].
  rewrite (sign_returns payload secret p k) by assumption.
  rewrite Nat.eqb_refl. cbn [negb].
  unfold HMACSigner.timingSafeEqual. rewrite Nat.eqb_refl, bytes_eqb_refl. reflexivity.
Qed.

(** C1. For every payload of at least one byte and every secret of at
    least 32 bytes, [sign] returns the first 7 bytes of
    HMAC-SHA256(secret, payload), and [verify] of the payload, that
    signature and the same secret returns [true]. *)
Theorem sign_then_verify (p k : bytes) :
  (1 <= length p)%nat -> (32 <= length k)%nat ->
  exists signature,
    HMACSigner.sign (VUint8Array p) (VUint8Array k) = Returned signature
    /\ signature = take 7 (Sha256.hmacSha256 k p)
    /\ length signature = 7%nat
    /\ HMACSigner.verify (VUint8Array p) (VUint8Array signature) (VUint8Array k)
       = Returned true.
Proof.
  intros Hp Hk. exists (take 7 (Sha256.hmacSha256 k p)).
  split; [apply (sign_returns _ _ p k); auto|]. split; [reflexivity|].
  split; [apply signature_length|].
  apply (verify_of_sign _ _ p k); auto.
Qed.

Lemma sign_then_verify_witness :
  exists signature,
    HMACSigner.sign (VUint8Array (hex "0100018bcfe56800665700"))
                    (VUint8Array (ascii_bytes "0123456789abcdef0123456789abcdef"))
    = Returned signature
    /\ signature = take 7 (Sha256.hmacSha256 (ascii_bytes "0123456789abcdef0123456789abcdef")
                                             (hex "0100018bcfe56800665700"))
    /\ length signature = 7%nat
    /\ HMACSigner.verify (VUint8Array (hex "0100018bcfe56800665700"))
                         (VUint8Array signature)
                         (VUint8Array (ascii_bytes "0123456789abcdef0123456789abcdef"))
       = Returned true.
Proof. apply sign_then_verify; vm_compute; lia. Defined.

(** C6. [verify] never throws: whatever the three arguments are, it
    returns a boolean, and it returns [false] whenever an argument is not
    a byte array, the payload is empty, the secret is shorter than 32
    bytes or the signature is not 7 bytes long. *)
Theorem verify_never_throws (payload signature secret : jsval) :
  exists b,
    HMACSigner.verify payload signature secret = Returned b
    /\ (wellFormedArgs payload signature secret = false -> b = false).
Proof.
  unfold HMACSigner.verify, wellFormedArgs.
  destruct (asUint8Array payload) as [p|] eqn:Ep; [|eauto].
  destruct (asUint8Array signature) as [s|] eqn:Es; [|eauto].
  destruct (asUint8Array secret) as [k|] eqn:Ek; [|eauto].
  unfold HMACSigner.MIN_PAYLOAD_BYTES, HMACSigner.MIN_SECRET_BYTES,
    HMACSigner.SIGNATURE_BYTES.
  destruct (Nat.ltb_spec (length p) 1) as [Hp|Hp]; [eauto|].
  destruct (Nat.ltb_spec (length k) 32) as [Hk|Hk]; [eauto|].
  destruct (Nat.eqb_spec (length s) 7) as [Hs|Hs]; cbn [negb]; [|eauto].
  unfold HMACSigner.sign, HMACSigner.validatePayload, HMACSigner.validateSecret,
    HMACSigner.MIN_PAYLOAD_BYTES, HMACSigner.MIN_SECRET_BYTES.
  rewrite Ep, Ek. pass_guards. cbn [bind].
  unfold HMACSigner.SIGNATURE_BYTES. rewrite signature_length, Hs. cbn [Nat.eqb negb].
  unfold HMACSigner.timingSafeEqual. rewrite signature_length, Hs. cbn [Nat.eqb].
  eexists. split; [reflexivity|].
  destruct (Nat.leb_spec 1 (length p)); [|lia].
  destruct (Nat.leb_spec 32 (length k)); [|lia]. discriminate.
Qed.

(** ** VIDVerifier on malformed input *)

(** C7, as the code has it. With a valid, non-empty key map,
    [verifyDetailed("not-base32!!")] returns the reason
    [INVALID_STRING_LENGTH]: the text has 12 characters and the length is
    checked before the characters are. On 17 zero bytes it returns
    [INVALID_BINARY_LENGTH]. *)
Theorem verifyDetailed_malformed (U : jsstring -> jsstring) (keys : VIDVerifier.KeyMap) :
  VIDVerifier.validateKeys keys = Returned tt ->
  VIDVerifier.verifyDetailed U (VString (js "not-base32!!")) keys
  = Returned (VIDVerifier.Invalid VIDVerifier.INVALID_STRING_LENGTH)
  /\ VIDVerifier.verifyDetailed U (VUint8Array (replicate 17 x00)) keys
     = Returned (VIDVerifier.Invalid VIDVerifier.INVALID_BINARY_LENGTH).
Proof.
  intros Hk. unfold VIDVerifier.verifyDetailed. rewrite Hk. cbn [bind].
  split; reflexivity.
Qed.

Lemma verifyDetailed_malformed_witness :
  VIDVerifier.verifyDetailed keepCase (VString (js "not-base32!!"))
    [(Int 1, VUint8Array (ascii_bytes "0123456789abcdef0123456789abcdef"))]
  = Returned (VIDVerifier.Invalid VIDVerifier.INVALID_STRING_LENGTH)
  /\ VIDVerifier.verifyDetailed keepCase (VUint8Array (replicate 17 x00))
       [(Int 1, VUint8Array (ascii_bytes "0123456789abcdef0123456789abcdef"))]
     = Returned (VIDVerifier.Invalid VIDVerifier.INVALID_BINARY_LENGTH).
Proof. apply verifyDetailed_malformed. reflexivity. Defined.

(** C7 as stated fails on its first input: the reason returned for
    ["not-base32!!"] is [INVALID_STRING_LENGTH], not [INVALID_STRING_CHARS]. *)
Lemma verifyDetailed_not_base32_counterexample :
  VIDVerifier.verifyDetailed keepCase (VString (js "not-base32!!"))
    [(Int 1, VUint8Array (ascii_bytes "0123456789abcdef0123456789abcdef"))]
  = Returned (VIDVerifier.Invalid VIDVerifier.INVALID_STRING_LENGTH)
  /\ VIDVerifier.validateKeys
       [(Int 1, VUint8Array (ascii_bytes "0123456789abcdef0123456789abcdef"))]
     = Returned tt.
Proof. split; reflexivity. Qed.

(** The reason [INVALID_STRING_CHARS] is the one for a text of 29
    characters, after trimming and uppercasing, of which one is outside
    the alphabet. *)
Lemma verifyDetailed_invalid_chars (U : jsstring -> jsstring) (keys : VIDVerifier.KeyMap)
    (s : jsstring) :
  VIDVerifier.validateKeys keys = Returned tt ->
  length (toUpperCase U (trim s)) = 29%nat ->
  forallb isBase32Char (toUpperCase U (trim s)) = false ->
  VIDVerifier.verifyDetailed U (VString s) keys
  = Returned (VIDVerifier.Invalid VIDVerifier.INVALID_STRING_CHARS).
Proof.
  intros Hk Hl Hc. unfold VIDVerifier.verifyDetailed. rewrite Hk. cbn [bind].
  unfold VIDVerifier.normalizeToBinary, VIDVerifier.VID_STRING_LENGTH,
    VIDVerifier.BASE32_REGEX, testBase32.
  rewrite Hl, Hc. reflexivity.
Qed.

(** ** VIDValue.fromString *)

(** C10. The length guard of [fromString] lets through only a text of 29
    characters and its regular expression accepts only texts of 26, so no
    text passes both; for every input, [VIDValue.fromString] throws, and
    so does the adapter's [fromString], which starts by calling it. *)
Theorem fromString_always_throws (U : jsstring -> jsstring) :
  (forall t : jsstring,
      length t = VIDValue.VID_STRING_LENGTH -> VIDValue.VID_STRING_REGEX t = false)
  /\ (forall input : jsval,
         exists e,
           VIDValue.fromString U input = Threw e
           /\ VIDMongoAdapter.fromString U input = Threw e).
Proof.
  assert (Hre : forall t : jsstring,
             length t = VIDValue.VID_STRING_LENGTH -> VIDValue.VID_STRING_REGEX t = false).
  { intros t Ht. unfold VIDValue.VID_STRING_REGEX, testBase32.
    rewrite Ht. reflexivity. }
  split; [exact Hre|].
  intros input. unfold VIDMongoAdapter.fromString.
  destruct input; try (exists TypeError; split; reflexivity).
  unfold VIDValue.fromString.
  destruct (Nat.eqb_spec (length (toUpperCase U (trim s))) VIDValue.VID_STRING_LENGTH)
    as [Hl|Hl]; cbn [negb].
  - rewrite (Hre _ Hl). cbn [negb]. exists Error. split; reflexivity.
  - exists RangeError. split; reflexivity.
Qed.

(** ** NodeIdResolver *)

Lemma bor_shl_bytes (a b : byte) : bor (shl (byteZ a) 8) (byteZ b) = byteZ a * 256 + byteZ b.
Proof.
  pose proof (byteZ_range a) as Ha. pose proof (byteZ_range b) as Hb.
  pose proof (bor_shl_mod (byteZ a) 8 (byteZ b)) as H.
  change (2 ^ 8) with 256 in H. specialize (H ltac:(lia) Hb).
  rewrite (Z.mod_small (byteZ a * 256 + byteZ b)) in H
    by (change (2 ^ 32) with 4294967296; lia).
  unfold bor in *. pose proof (toInt32_range (Z.lor (toInt32 (shl (byteZ a) 8))
                                                   (toInt32 (byteZ b)))) as Hr.
  set (x := toInt32 _) in *.
  change (2 ^ 31) with 2147483648 in Hr. change (2 ^ 32) with 4294967296 in H.
  revert H. Z.div_mod_to_equations. lia.
Qed.

Lemma hashToUint16_bigEndian (s : jsstring) :
  NodeIdResolver.hashToUint16 s = fromBigEndian (take 2 (Sha256.sha256 (utf8 s))).
Proof.
  unfold NodeIdResolver.hashToUint16, Sha256.sha256, Sha256.digest.
  cbn [bigEndian app nth take fromBigEndian fold_left].
  rewrite bor_shl_bytes. lia.
Qed.

Lemma hashToUint16_range (s : jsstring) : 0 <= NodeIdResolver.hashToUint16 s <= 65535.
Proof.
  unfold NodeIdResolver.hashToUint16. rewrite bor_shl_bytes.
  pose proof (byteZ_range (nth 0 (Sha256.sha256 (utf8 s)) x00)).
  pose proof (byteZ_range (nth 1 (Sha256.sha256 (utf8 s)) x00)). lia.
Qed.

(** C8. Whatever the environment holds, [resolve] of an explicit string
    whose trimmed form is not empty returns the unsigned 16-bit integer
    that the first two bytes of the SHA-256 digest of the trimmed string
    spell big-endian (a function of the string alone); an explicit integer
    from 0 to 65535 is returned as it is; and an empty or blank string, an
    integer outside that range or a number that is not an integer makes
    [resolve] throw. *)
Theorem resolve_explicit (env : NodeIdResolver.Env) :
  (forall s : jsstring,
      NodeIdResolver.resolve env (Some (NodeString s))
      = if (length (trim s) =? 0)%nat then Threw TypeError
        else Returned
               {| NodeIdResolver.nodeId :=
                    fromBigEndian (take 2 (Sha256.sha256 (utf8 (trim s))));
                  NodeIdResolver.source := NodeIdResolver.explicit_string;
                  NodeIdResolver.warning := false |})
  /\ (forall s : jsstring,
         0 <= fromBigEndian (take 2 (Sha256.sha256 (utf8 (trim s)))) <= 65535)
  /\ (forall z : Z,
         NodeIdResolver.resolve env (Some (NodeNumber (Int z)))
         = if (0 <=? z) && (z <=? 65535)
           then Returned {| NodeIdResolver.nodeId := z;
                            NodeIdResolver.source := NodeIdResolver.explicit_number;
                            NodeIdResolver.warning := false |}
           else Threw RangeError)
  /\ NodeIdResolver.resolve env (Some (NodeNumber NonInt)) = Threw RangeError.
Proof.
  split; [|split; [|split]].
  - intros s. cbn [NodeIdResolver.resolve]. rewrite hashToUint16_bigEndian. reflexivity.
  - intros s. rewrite <- hashToUint16_bigEndian. apply hashToUint16_range.
  - intros z. cbn [NodeIdResolver.resolve]. unfold NodeIdResolver.MAX_UINT16.
    destruct (Z.ltb_spec z 0), (Z.ltb_spec 65535 z), (Z.leb_spec 0 z), (Z.leb_spec z 65535);
      try lia; reflexivity.
  - reflexivity.
Qed.

(** ** VIDValue and the array it was built from *)

Lemma heap_constructor_ref (h : Heap.store) (r : Heap.ref) (v : Heap.VIDValueObject) :
  Heap.constructor h r = Returned v -> Heap.binaryRef v = r.
Proof.
  unfold Heap.constructor. destruct (negb _); [discriminate|].
  destruct (Base32Encoder.encode _); cbn [bind]; [|discriminate].
  intros [= <-]. reflexivity.
Qed.

Lemma heap_read_write (h : Heap.store) (r : Heap.ref) (i : nat) (x : byte) :
  Heap.read (Heap.write h r i x) r = <[i := x]> (Heap.read h r).
Proof.
  unfold Heap.read, Heap.write. destruct (h !! r) as [b|] eqn:E; cbv beta iota.
  - rewrite list_lookup_insert_eq by (eapply lookup_lt_Some; exact E). reflexivity.
  - rewrite E. reflexivity.
Qed.

(** The object reads the caller's array: a store into the array the
    constructor was given shows in what [toBinary] returns afterwards. *)
Lemma heap_toBinary_after_write (h : Heap.store) (r : Heap.ref) (v : Heap.VIDValueObject)
    (i : nat) (x : byte) :
  Heap.constructor h r = Returned v ->
  let (r', h') := Heap.toBinary (Heap.write h r i x) v in
  Heap.read h' r' = <[i := x]> (Heap.read h r).
Proof.
  intros Hc. apply heap_constructor_ref in Hc. unfold Heap.toBinary, Heap.newUint8ArrayFrom.
  rewrite Hc, heap_read_write. unfold Heap.read at 1.
  rewrite lookup_app_r by lia. rewrite Nat.sub_diag. reflexivity.
Qed.

(** [toBinary] returns a new array: a location the store did not have,
    holding the object's bytes, and a store into it leaves the object's own
    array as it was. *)
Lemma heap_toBinary_fresh (h : Heap.store) (v : Heap.VIDValueObject) (i : nat) (x : byte) :
  (Heap.binaryRef v < length h)%nat ->
  let (r', h') := Heap.toBinary h v in
  r' = length h
  /\ Heap.read h' r' = Heap.read h (Heap.binaryRef v)
  /\ Heap.read (Heap.write h' r' i x) (Heap.binaryRef v) = Heap.read h (Heap.binaryRef v).
Proof.
  intros Hr. unfold Heap.toBinary, Heap.newUint8ArrayFrom.
  split; [reflexivity|]. split.
  - unfold Heap.read at 1. rewrite lookup_app_r by lia. rewrite Nat.sub_diag. reflexivity.
  - unfold Heap.write. rewrite lookup_app_r by lia. rewrite Nat.sub_diag. cbn [lookup].
    unfold Heap.read. cbn [list_lookup].
    rewrite list_lookup_insert_ne by lia. rewrite lookup_app_l by lia. reflexivity.
Qed.

(** C9 on the code: after [v = new VIDValue(b)] on 18 zero bytes, the store
    [b[0] = 0xff] changes what [v.toBinary()] returns, while the text cached
    at construction stays that of the zero bytes. *)
Theorem constructor_aliases_input :
  exists v,
    Heap.constructor [replicate 18 x00] 0 = Returned v
    /\ Heap.binaryRef v = 0%nat
    /\ (let (r', h') := Heap.toBinary (Heap.write [replicate 18 x00] 0 0 xff) v in
        Heap.read h' r' = xff :: replicate 17 x00)
    /\ Heap.cachedString v = Some (js "AAAAAAAAAAAAAAAAAAAAAAAAAAAAA").
Proof.
  eexists. split; [vm_compute; reflexivity|]. cbn. auto.
Qed.

(** ** The generator's clock and sequence *)

Lemma Date_now_inv (s s' : Generator * World) (r : result Z) :
  Date_now s = Some (r, s') -> fst s' = fst s /\ exists t, r = Returned t.
Proof.
  unfold Date_now. destruct (date (snd s)); [discriminate|].
  intros [= <- <-]. eauto.
Qed.

Lemma TimeUtils_now_inv (s s' : Generator * World) (r : result Z) :
  TimeUtils.now s = Some (r, s') -> fst s' = fst s /\ exists t, r = Returned t.
Proof.
  unfold TimeUtils.now. destruct (provider (snd s)) as [[|t rest]|].
  - discriminate.
  - intros [= <- <-]. eauto.
  - apply Date_now_inv.
Qed.

Lemma waitLoop_inv (fuel : nat) (since deadline : Z) :
  forall (s s' : Generator * World) (r : result Z),
    VIDGenerator.waitLoop fuel since deadline s = Some (r, s') ->
    fst s' = fst s /\ (forall t, r = Returned t -> since < t).
Proof.
  induction fuel as [|fuel IH]; intros s s' r H; [discriminate|].
  cbn [VIDGenerator.waitLoop] in H. unfold bindRun in H.
  destruct (TimeUtils.now s) as [[rn s1]|] eqn:En; [|discriminate].
  destruct (TimeUtils_now_inv _ _ _ En) as [H1 [now ->]].
  destruct (Date_now s1) as [[rd s2]|] eqn:Ed; [|discriminate].
  destruct (Date_now_inv _ _ _ Ed) as [H2 [d ->]].
  destruct (deadline <? d).
  - injection H as <- <-. split; [congruence|]. intros t [=].
  - destruct (Z.leb_spec now since) as [Hle|Hgt].
    + apply IH in H. destruct H as [H3 H4]. split; [congruence|exact H4].
    + injection H as <- <-. split; [congruence|]. intros t [= <-]. exact Hgt.
Qed.

Lemma waitForNextMillisecond_inv (since : Z) (s s' : Generator * World) (r : result Z) :
  VIDGenerator.waitForNextMillisecond since s = Some (r, s') ->
  fst s' = fst s /\ (forall t, r = Returned t -> since < t).
Proof.
  unfold VIDGenerator.waitForNextMillisecond, bindRun. intros H.
  destruct (Date_now s) as [[rd s1]|] eqn:Ed; [|discriminate].
  destruct (Date_now_inv _ _ _ Ed) as [H1 [d ->]].
  apply waitLoop_inv in H. destruct H as [H2 H3]. split; [congruence|exact H3].
Qed.

(** The end of each path through [nextTimestampAndSequence]: the call has
    come back with [Some (r, s') = Some (...)], and the bounds on the new
    fields are linear arithmetic. *)
Ltac settle_path H :=
  injection H as <- <-; cbn [fst snd lastTimestamp sequence];
  split; [lia | split; [lia | split; [lia | ] ] ];
  let pr := fresh "pr" in
  let E := fresh "E" in
  intros pr E;
  first [ discriminate E
        | injection E as <-; cbn [fst snd]; split; [reflexivity | lia] ].

(** Every call that comes back, with a pair or with the clock fault,
    leaves the generator's pair strictly above where it was; a returned
    pair is the new state and its sequence is at most 65535. *)
Lemma nextTimestampAndSequence_spec (s s' : Generator * World) (r : result (Z * Z)) :
  VIDGenerator.nextTimestampAndSequence s = Some (r, s') ->
  0 <= lastTimestamp (fst s) -> 0 <= sequence (fst s) ->
  pairLt (clockPair (fst s)) (clockPair (fst s'))
  /\ 0 <= lastTimestamp (fst s') /\ 0 <= sequence (fst s')
  /\ (forall p, r = Returned p -> p = clockPair (fst s') /\ snd p <= 65535).
Proof.
  unfold VIDGenerator.nextTimestampAndSequence, bindRun, pairLt, clockPair.
  intros H Hl Hs.
  destruct (TimeUtils.now s) as [[rn s1]|] eqn:En; [|discriminate].
  destruct (TimeUtils_now_inv _ _ _ En) as [H1 [t ->]].
  destruct s as [g w], s1 as [g1 w1]. cbn [fst snd] in *. subst g1.
  cbn [getGenerator fst snd] in H.
  set (ts := if t <? lastTimestamp g then lastTimestamp g else t) in *.
  assert (Hts : lastTimestamp g <= ts) by (unfold ts; destruct (Z.ltb_spec t (lastTimestamp g)); lia).
  destruct (Z.eqb_spec ts (lastTimestamp g)) as [Heq|Hne].
  - cbn [setSequence fst snd lastTimestamp sequence] in H.
    unfold VIDGenerator.MAX_SEQUENCE, VIDGenerator.MAX_UINT16 in H.
    destruct (Z.ltb_spec 65535 (sequence g + 1)) as [Hov|Hok].
    + destruct (VIDGenerator.waitForNextMillisecond _ _) as [[rw s3]|] eqn:Ew; [|discriminate].
      destruct (waitForNextMillisecond_inv _ _ _ _ Ew) as [H3 H4].
      destruct s3 as [g3 w3]. cbn [fst snd] in H3. subst g3.
      destruct rw as [t'|e].
      * specialize (H4 t' eq_refl).
        cbn [setSequence setLastTimestamp ret fst snd lastTimestamp sequence] in H.
        settle_path H.
      * settle_path H.
    + cbn [ret setLastTimestamp fst snd lastTimestamp sequence] in H.
      settle_path H.
  - cbn [setSequence ret setLastTimestamp fst snd lastTimestamp sequence] in H.
    settle_path H.
Qed.

(** ** Big-endian fields and the byte-wise order *)

Lemma length_bigEndian (n : nat) (z : Z) : length (bigEndian n z) = n.
Proof. induction n; cbn; congruence. Qed.

Lemma fromBigEndian_fold (l : bytes) (a : Z) :
  fold_left (fun acc b => acc * 256 + byteZ b) l a
  = a * 256 ^ Z.of_nat (length l) + fromBigEndian l.
Proof.
  unfold fromBigEndian. revert a. induction l as [|b l IH]; intros a.
  - cbn. lia.
  - cbn [fold_left length]. rewrite IH, (IH (0 * 256 + byteZ b)).
    rewrite Nat2Z.inj_succ, Z.pow_succ_r by lia. lia.
Qed.

Lemma fromBigEndian_cons (b : byte) (l : bytes) :
  fromBigEndian (b :: l) = byteZ b * 256 ^ Z.of_nat (length l) + fromBigEndian l.
Proof.
  unfold fromBigEndian at 1. cbn [fold_left]. rewrite fromBigEndian_fold. lia.
Qed.

Lemma fromBigEndian_range (l : bytes) : 0 <= fromBigEndian l < 256 ^ Z.of_nat (length l).
Proof.
  induction l as [|b l IH].
  - cbn. lia.
  - rewrite fromBigEndian_cons. cbn [length].
    rewrite Nat2Z.inj_succ, Z.pow_succ_r by lia.
    pose proof (byteZ_range b). nia.
Qed.

Lemma fromBigEndian_bigEndian (n : nat) (z : Z) :
  fromBigEndian (bigEndian n z) = z mod 256 ^ Z.of_nat n.
Proof.
  induction n as [|n IH].
  - cbn. rewrite Z.mod_1_r. reflexivity.
  - cbn [bigEndian]. rewrite fromBigEndian_cons, length_bigEndian, IH, byteZ_Zbyte.
    rewrite Nat2Z.inj_succ, Z.pow_succ_r by lia.
    assert (Hp : 0 < 256 ^ Z.of_nat n) by (apply Z.pow_pos_nonneg; lia).
    rewrite (Z.mul_comm 256), Z.rem_mul_r by lia. lia.
Qed.

Lemma bytesLt_fromBigEndian (a b : bytes) :
  length a = length b -> fromBigEndian a < fromBigEndian b -> bytesLt a b = true.
Proof.
  revert b. induction a as [|x a IH]; intros [|y b] Hl H; try discriminate Hl.
  - unfold fromBigEndian in H. cbn in H. lia.
  - cbn [length] in Hl. injection Hl as Hl.
    rewrite !fromBigEndian_cons, <- Hl in H.
    pose proof (fromBigEndian_range a) as Ha.
    pose proof (fromBigEndian_range b) as Hb. rewrite <- Hl in Hb.
    cbn [bytesLt].
    destruct (Z.ltb_spec (byteZ x) (byteZ y)) as [|Hge]; [reflexivity|].
    destruct (Z.eqb_spec (byteZ x) (byteZ y)) as [Heq|Hne].
    + cbn [orb andb]. apply IH; [exact Hl|]. rewrite Heq in H. lia.
    + exfalso. nia.
Qed.

Lemma bytesLt_bigEndian (n : nat) (x y : Z) :
  0 <= x -> x < y -> y < 256 ^ Z.of_nat n ->
  bytesLt (bigEndian n x) (bigEndian n y) = true.
Proof.
  intros Hx Hxy Hy. apply bytesLt_fromBigEndian.
  - rewrite !length_bigEndian. reflexivity.
  - rewrite !fromBigEndian_bigEndian, !Z.mod_small by lia. exact Hxy.
Qed.

Lemma bytesLt_app_same (p a b : bytes) : bytesLt (p ++ a) (p ++ b) = bytesLt a b.
Proof.
  induction p as [|x p IH]; [reflexivity|].
  cbn [app bytesLt]. rewrite Z.ltb_irrefl, Z.eqb_refl. exact IH.
Qed.

Lemma bytesLt_app_lt (a b c d : bytes) :
  length a = length b -> bytesLt a b = true -> bytesLt (a ++ c) (b ++ d) = true.
Proof.
  revert b. induction a as [|x a IH]; intros [|y b] Hl H; try discriminate.
  cbn [app bytesLt] in *. injection Hl as Hl.
  destruct (byteZ x <? byteZ y); [reflexivity|]. cbn [orb] in *.
  destruct (byteZ x =? byteZ y); [|discriminate]. cbn [andb] in *. auto.
Qed.

(** ** The payload *)

Lemma encodePayload_fields (keyVersion timestamp nodeId sequence : Z) :
  VIDGenerator.encodePayload keyVersion timestamp nodeId sequence
  = bigEndian 1 keyVersion ++ bigEndian 4 (timestamp / 65536)
    ++ bigEndian 2 (Z.rem timestamp 65536) ++ bigEndian 2 nodeId ++ bigEndian 2 sequence.
Proof. reflexivity. Qed.

Lemma length_encodePayload (keyVersion timestamp nodeId sequence : Z) :
  length (VIDGenerator.encodePayload keyVersion timestamp nodeId sequence) = 11%nat.
Proof. reflexivity. Qed.

Lemma concat_app (a b : bytes) : ByteUtils.concat a b = a ++ b.
Proof.
  unfold ByteUtils.concat, ByteUtils.set, newUint8Array.
  rewrite take_0. cbn [app Nat.add]. rewrite drop_replicate.
  replace (length a + length b - length a)%nat with (length b) by lia.
  rewrite take_app_length. rewrite drop_ge by (rewrite length_app, length_replicate; lia).
  rewrite app_nil_r. reflexivity.
Qed.

(** The fields [VIDParser] reads from a payload followed by a signature. *)
Lemma parser_reads_payload (keyVersion timestamp nodeId sequence : Z) (signature : bytes) :
  0 <= timestamp <= VIDGenerator.MAX_TIMESTAMP -> 0 <= sequence <= 65535 ->
  let b := VIDGenerator.encodePayload keyVersion timestamp nodeId sequence ++ signature in
  VIDParser.timestamp b = timestamp /\ VIDParser.sequence b = sequence.
Proof.
  intros Ht Hs b. unfold VIDGenerator.MAX_TIMESTAMP in Ht.
  unfold VIDParser.timestamp, VIDParser.sequence, getUint,
    VIDParser.OFFSET_TIMESTAMP_HIGH, VIDParser.OFFSET_TIMESTAMP_LOW,
    VIDParser.OFFSET_SEQUENCE, VIDParser.TIMESTAMP_HIGH_MULTIPLIER.
  change (take 4 (drop 1 b)) with (bigEndian 4 (timestamp / 65536)).
  change (take 2 (drop 5 b)) with (bigEndian 2 (Z.rem timestamp 65536)).
  change (take 2 (drop 9 b)) with (bigEndian 2 sequence).
  rewrite !fromBigEndian_bigEndian. rewrite Z.rem_mod_nonneg by lia.
  change (256 ^ Z.of_nat 4) with 4294967296. change (256 ^ Z.of_nat 2) with 65536.
  split.
  - rewrite Z.mod_mod by lia. rewrite (Z.mod_small (timestamp / 65536))
      by (split; [apply Z.div_pos; lia | apply Z.div_lt_upper_bound; lia]).
    pose proof (Z.div_mod timestamp 65536). lia.
  - apply Z.mod_small. lia.
Qed.

(** Payloads of one key version and node sort byte-wise as their
    (timestamp, sequence) pairs do; what follows the payload does not
    matter. *)
Lemma payload_order (keyVersion nodeId t1 s1 t2 s2 : Z) (sig1 sig2 : bytes) :
  0 <= t1 <= VIDGenerator.MAX_TIMESTAMP -> 0 <= t2 <= VIDGenerator.MAX_TIMESTAMP ->
  0 <= s1 <= 65535 -> 0 <= s2 <= 65535 ->
  pairLt (t1, s1) (t2, s2) ->
  bytesLt (VIDGenerator.encodePayload keyVersion t1 nodeId s1 ++ sig1)
          (VIDGenerator.encodePayload keyVersion t2 nodeId s2 ++ sig2) = true.
Proof.
  unfold VIDGenerator.MAX_TIMESTAMP, pairLt. cbn [fst snd].
  intros Ht1 Ht2 Hs1 Hs2 Hlt. rewrite !encodePayload_fields, <- !app_assoc.
  rewrite bytesLt_app_same. rewrite !Z.rem_mod_nonneg by lia.
  pose proof (Z.div_mod t1 65536 ltac:(lia)) as D1.
  pose proof (Z.div_mod t2 65536 ltac:(lia)) as D2.
  pose proof (Z.mod_pos_bound t1 65536 ltac:(lia)) as M1.
  pose proof (Z.mod_pos_bound t2 65536 ltac:(lia)) as M2.
  assert (H1 : 0 <= t1 / 65536 < 4294967296)
    by (split; [apply Z.div_pos; lia | apply Z.div_lt_upper_bound; lia]).
  assert (H2 : 0 <= t2 / 65536 < 4294967296)
    by (split; [apply Z.div_pos; lia | apply Z.div_lt_upper_bound; lia]).
  destruct (Z.lt_trichotomy (t1 / 65536) (t2 / 65536)) as [Hhi|[Hhi|Hhi]].
  - apply bytesLt_app_lt; [rewrite !length_bigEndian; reflexivity|].
    apply bytesLt_bigEndian; lia.
  - rewrite Hhi, bytesLt_app_same.
    destruct (Z.lt_trichotomy (t1 mod 65536) (t2 mod 65536)) as [Hlo|[Hlo|Hlo]].
    + apply bytesLt_app_lt; [rewrite !length_bigEndian; reflexivity|].
      apply bytesLt_bigEndian; lia.
    + rewrite Hlo, !bytesLt_app_same.
      apply bytesLt_app_lt; [rewrite !length_bigEndian; reflexivity|].
      apply bytesLt_bigEndian; lia.
    + exfalso. lia.
  - exfalso. lia.
Qed.

(** ** VIDGenerator.generate *)

Lemma validateConfig_inv (config : VIDGenerator.VIDGeneratorConfig) (kv : Z) :
  VIDGenerator.validateConfig config = Returned kv ->
  VIDGenerator.keyVersion config = Int kv /\ 0 <= kv <= 255
  /\ exists k, asUint8Array (VIDGenerator.secret config) = Some k /\ (32 <= length k)%nat.
Proof.
  unfold VIDGenerator.validateConfig, VIDGenerator.MAX_UINT8.
  destruct (VIDGenerator.keyVersion config) as [z|]; [|discriminate].
  destruct (Z.ltb_spec z 0); [discriminate|].
  destruct (Z.ltb_spec 255 z); [discriminate|]. cbn [orb].
  destruct (asUint8Array (VIDGenerator.secret config)) as [k|]; [|discriminate].
  destruct (length k =? 0)%nat; [discriminate|].
  destruct (Nat.ltb_spec (length k) 32); [discriminate|].
  intros [= <-]. split; [reflexivity|]. split; [lia|]. exists k. auto.
Qed.

Lemma constructor_bytes (b : bytes) (id : VIDValue) :
  VIDValue.constructor (VUint8Array b) = Returned id ->
  binary id = b
  /\ exists s, Base32Encoder.encode b = Returned s /\ _cachedString id = Some s.
Proof.
  unfold VIDValue.constructor, asUint8Array.
  destruct (negb _); [discriminate|].
  destruct (Base32Encoder.encode b) as [s|]; [|discriminate].
  cbn [bind]. intros [= <-]. split; [reflexivity|]. exists s. auto.
Qed.

(** What one call of [generate] does to the instance, and what it returns
    when it returns: a call that throws before the clock is read leaves the
    two fields as they were, any other call that comes back moves them
    strictly up, and a returned identifier is the payload of the new
    fields followed by its signature. *)
Lemma generate_spec (config : VIDGenerator.VIDGeneratorConfig) (s s' : Generator * World)
    (r : result VIDValue) :
  VIDGenerator.generate config s = Some (r, s') ->
  0 <= lastTimestamp (fst s) -> 0 <= sequence (fst s) ->
  (fst s' = fst s \/ pairLt (clockPair (fst s)) (clockPair (fst s')))
  /\ 0 <= lastTimestamp (fst s') /\ 0 <= sequence (fst s')
  /\ (forall id, r = Returned id ->
      exists kv nid k,
        VIDGenerator.validateConfig config = Returned kv
        /\ VIDGenerator.resolveNodeId (VIDGenerator.nodeId config) = Returned nid
        /\ asUint8Array (VIDGenerator.secret config) = Some k
        /\ (32 <= length k)%nat
        /\ binary id
           = VIDGenerator.encodePayload kv (lastTimestamp (fst s')) nid (sequence (fst s'))
             ++ take 7 (Sha256.hmacSha256 k
                  (VIDGenerator.encodePayload kv (lastTimestamp (fst s')) nid
                                              (sequence (fst s'))))
        /\ 0 <= lastTimestamp (fst s') <= VIDGenerator.MAX_TIMESTAMP
        /\ 0 <= sequence (fst s') <= 65535
        /\ pairLt (clockPair (fst s)) (clockPair (fst s'))).
Proof.
  intros H Hl Hs. unfold VIDGenerator.generate, bindRun, lift in H.
  destruct (VIDGenerator.validateConfig config) as [kv|e] eqn:Ev;
    [|injection H as <- <-; split; [left; reflexivity|];
      split; [exact Hl|]; split; [exact Hs|]; intros id [=]].
  destruct (VIDGenerator.resolveNodeId (VIDGenerator.nodeId config)) as [nid|e] eqn:Er;
    [|injection H as <- <-; split; [left; reflexivity|];
      split; [exact Hl|]; split; [exact Hs|]; intros id [=]].
  destruct (VIDGenerator.nextTimestampAndSequence s) as [[rn s1]|] eqn:En; [|discriminate].
  destruct (nextTimestampAndSequence_spec _ _ _ En Hl Hs) as (Hlt & Hl1 & Hs1 & Hp).
  destruct rn as [[ts sq]|e];
    [|injection H as <- <-; split; [right; exact Hlt|];
      split; [exact Hl1|]; split; [exact Hs1|]; intros id [=]].
  destruct (Hp _ eq_refl) as [Hpair Hsq]. cbn [snd] in Hsq.
  unfold clockPair in Hpair. injection Hpair as -> ->.
  destruct (validateConfig_inv _ _ Ev) as (Hkv & Hkvr & k & Ek & Hk).
  destruct (Z.ltb_spec VIDGenerator.MAX_TIMESTAMP (lastTimestamp (fst s1))) as [Hov|Hok].
  { injection H as <- <-. split; [right; exact Hlt|].
    split; [exact Hl1|]. split; [exact Hs1|]. intros id [=]. }
  set (P := VIDGenerator.encodePayload kv (lastTimestamp (fst s1)) nid (sequence (fst s1))) in *.
  rewrite (sign_returns (VUint8Array P) _ P k eq_refl Ek) in H
    by (unfold P; rewrite ?length_encodePayload; lia).
  assert (Hsig : negb (length (take 7 (Sha256.hmacSha256 k P))
                        =? VIDGenerator.SIGNATURE_BYTES)%nat = false)
    by (rewrite signature_length; reflexivity).
  rewrite Hsig in H. cbv beta in H.
  assert (Hr : r = VIDValue.constructor
                     (VUint8Array (ByteUtils.concat P (take 7 (Sha256.hmacSha256 k P))))
               /\ s' = s1) by (split; congruence).
  clear H. destruct Hr as [-> ->].
  split; [right; exact Hlt|]. split; [exact Hl1|]. split; [exact Hs1|].
  intros id Hid. exists kv, nid, k.
  split; [reflexivity|]. split; [reflexivity|]. split; [exact Ek|]. split; [exact Hk|].
  split; [|split; [split; [exact Hl1|exact Hok]|split; [lia|exact Hlt]]].
  apply constructor_bytes in Hid. destruct Hid as [Hid _].
  rewrite concat_app in Hid. exact Hid.
Qed.

(** ** The calls return

    Outside the overflow wait the call needs one reading of the clock and
    comes back with a pair: the reading (or the last timestamp, when the
    clock went back) and the next sequence number. *)
Lemma nextTimestampAndSequence_returns (g : Generator) (w w1 : World) (t : Z) :
  TimeUtils.now (g, w) = Some (Returned t, (g, w1)) ->
  lastTimestamp g < t \/ sequence g < 65535 ->
  VIDGenerator.nextTimestampAndSequence (g, w)
  = Some (Returned (Z.max t (lastTimestamp g),
                    if t <=? lastTimestamp g then sequence g + 1 else 0),
          ({| lastTimestamp := Z.max t (lastTimestamp g);
              sequence := if t <=? lastTimestamp g then sequence g + 1 else 0 |}, w1)).
Proof.
  intros En Hroom. unfold VIDGenerator.nextTimestampAndSequence, bindRun.
  rewrite En. cbn [getGenerator fst snd].
  unfold VIDGenerator.MAX_SEQUENCE, VIDGenerator.MAX_UINT16.
  destruct (Z.ltb_spec t (lastTimestamp g)) as [Hback|Hfwd].
  - rewrite Z.eqb_refl. cbn [setSequence fst snd lastTimestamp sequence].
    destruct (Z.ltb_spec 65535 (sequence g + 1)); [lia|].
    cbn [ret setLastTimestamp fst snd lastTimestamp sequence].
    rewrite Z.max_r by lia. destruct (Z.leb_spec t (lastTimestamp g)); [reflexivity|lia].
  - destruct (Z.eqb_spec t (lastTimestamp g)) as [->|Hne].
    + cbn [setSequence fst snd lastTimestamp sequence].
      destruct (Z.ltb_spec 65535 (sequence g + 1)); [lia|].
      cbn [ret setLastTimestamp fst snd lastTimestamp sequence].
      rewrite Z.max_id, Z.leb_refl. reflexivity.
    + cbn [setSequence ret setLastTimestamp fst snd lastTimestamp sequence].
      rewrite Z.max_l by lia. destruct (Z.leb_spec t (lastTimestamp g)); [lia|reflexivity].
Qed.

(** With a configuration that passes the guards, a reading of the clock
    within 48 bits and room in the sequence, [generate] returns an
    identifier, and the instance holds the pair it embeds. *)
Lemma generate_returns (config : VIDGenerator.VIDGeneratorConfig) (kv nid : Z)
    (g : Generator) (w w1 : World) (t : Z) :
  VIDGenerator.validateConfig config = Returned kv ->
  VIDGenerator.resolveNodeId (VIDGenerator.nodeId config) = Returned nid ->
  TimeUtils.now (g, w) = Some (Returned t, (g, w1)) ->
  lastTimestamp g < t \/ sequence g < 65535 ->
  Z.max t (lastTimestamp g) <= VIDGenerator.MAX_TIMESTAMP ->
  exists id g',
    VIDGenerator.generate config (g, w) = Some (Returned id, (g', w1))
    /\ clockPair g'
       = (Z.max t (lastTimestamp g), if t <=? lastTimestamp g then sequence g + 1 else 0).
Proof.
  intros Ev Er En Hroom Hmax.
  destruct (validateConfig_inv _ _ Ev) as (Hkv & Hkvr & k & Ek & Hk).
  unfold VIDGenerator.generate, bindRun, lift. rewrite Ev, Er.
  rewrite (nextTimestampAndSequence_returns g w w1 t En Hroom).
  destruct (Z.ltb_spec VIDGenerator.MAX_TIMESTAMP (Z.max t (lastTimestamp g))); [lia|].
  set (P := VIDGenerator.encodePayload kv _ nid _).
  rewrite (sign_returns (VUint8Array P) _ P k eq_refl Ek)
    by (unfold P; rewrite ?length_encodePayload; lia).
  assert (Hsig : negb (length (take 7 (Sha256.hmacSha256 k P))
                        =? VIDGenerator.SIGNATURE_BYTES)%nat = false)
    by (rewrite signature_length; reflexivity).
  rewrite Hsig. cbv beta. rewrite concat_app.
  set (b := P ++ take 7 (Sha256.hmacSha256 k P)).
  assert (Hb : length b = 18%nat)
    by (unfold b, P; rewrite length_app, length_encodePayload, signature_length; reflexivity).
  destruct (encode_spec b Hb) as (str & Hstr & _).
  unfold VIDValue.constructor, asUint8Array, VIDValue.VID_BYTE_LENGTH.
  rewrite Hb, Hstr. cbn [Nat.eqb negb bind].
  eexists. eexists. split; reflexivity.
Qed.

(** The overflow path: the sequence is at its maximum and the clock still
    reads the same millisecond, so the call polls until the clock moves and
    starts the new millisecond at sequence 0. *)
Example generate_waits_on_overflow :
  VIDGenerator.nextTimestampAndSequence
    ({| lastTimestamp := 1700000000000; sequence := 65535 |},
     {| provider := Some [1700000000000; 1700000000000; 1700000000001];
        date := [1700000000000; 1700000000000; 1700000000001] |})
  = Some (Returned (1700000000001, 0),
          ({| lastTimestamp := 1700000000001; sequence := 0 |},
           {| provider := Some []; date := [] |})).
Proof. vm_compute. reflexivity. Qed.

(** The clock fault: the clock stays on the same millisecond while the wall
    clock passes the deadline of 5000 ms, and the call throws [Error]. The
    sequence is left one above its maximum, never wrapped. *)
Example generate_clock_fault :
  VIDGenerator.nextTimestampAndSequence
    ({| lastTimestamp := 1700000000000; sequence := 65535 |},
     {| provider := Some [1700000000000; 1700000000000; 1700000000000];
        date := [1700000000000; 1700000002500; 1700000005001] |})
  = Some (Threw Error,
          ({| lastTimestamp := 1700000000000; sequence := 65536 |},
           {| provider := Some []; date := [] |})).
Proof. vm_compute. reflexivity. Qed.

(** A clock that goes back does not take the identifiers back: the last
    timestamp is kept and the sequence goes on. *)
Example generate_clock_regression :
  VIDGenerator.nextTimestampAndSequence
    ({| lastTimestamp := 1700000000000; sequence := 4 |},
     {| provider := Some [1699999999000]; date := [] |})
  = Some (Returned (1700000000000, 5),
          ({| lastTimestamp := 1700000000000; sequence := 5 |},
           {| provider := Some []; date := [] |})).
Proof. vm_compute. reflexivity. Qed.

(** ** Successive calls of generate *)

Lemma pairLt_trans (p q r : Z * Z) : pairLt p q -> pairLt q r -> pairLt p r.
Proof. unfold pairLt. lia. Qed.

Lemma mintedBy_generate (config : VIDGenerator.VIDGeneratorConfig) (s s' : Generator * World)
    (id : VIDValue) :
  VIDGenerator.generate config s = Some (Returned id, s') ->
  0 <= lastTimestamp (fst s) -> 0 <= sequence (fst s) ->
  (exists kv nid,
      VIDGenerator.keyVersion config = Int kv
      /\ VIDGenerator.resolveNodeId (VIDGenerator.nodeId config) = Returned nid
      /\ mintedBy kv nid id)
  /\ embeddedPair id = clockPair (fst s')
  /\ pairLt (clockPair (fst s)) (clockPair (fst s')).
Proof.
  intros H Hl Hs.
  destruct (generate_spec _ _ _ _ H Hl Hs) as (_ & _ & _ & Hret).
  destruct (Hret id eq_refl) as (kv & nid & k & Ev & Er & _ & _ & Hb & Ht & Hq & Hlt).
  split; [|split; [|exact Hlt]].
  - exists kv, nid. split; [apply (validateConfig_inv _ _ Ev)|]. split; [exact Er|].
    eexists _, _, _. eauto.
  - unfold embeddedPair, clockPair. rewrite Hb.
    destruct (parser_reads_payload kv (lastTimestamp (fst s')) nid (sequence (fst s'))
                (take 7 (Sha256.hmacSha256 k
                   (VIDGenerator.encodePayload kv (lastTimestamp (fst s')) nid
                                               (sequence (fst s'))))) Ht Hq) as [-> ->].
    reflexivity.
Qed.

Lemma generateEach_spec (keyVersion : number) (nodeId : NodeId)
    (configs : list VIDGenerator.VIDGeneratorConfig) :
  Forall (fun c => VIDGenerator.keyVersion c = keyVersion /\ VIDGenerator.nodeId c = nodeId)
         configs ->
  forall s : Generator * World,
    0 <= lastTimestamp (fst s) -> 0 <= sequence (fst s) ->
    Forall (fun id => exists kv nid,
                keyVersion = Int kv /\ VIDGenerator.resolveNodeId nodeId = Returned nid
                /\ mintedBy kv nid id)
           (returned (VIDGenerator.generateEach configs s))
    /\ StronglySorted pairLt
         (map embeddedPair (returned (VIDGenerator.generateEach configs s)))
    /\ Forall (fun id => pairLt (clockPair (fst s)) (embeddedPair id))
         (returned (VIDGenerator.generateEach configs s)).
Proof.
  induction configs as [|config configs IH]; intros Hsame s Hl Hs.
  - cbn. repeat constructor.
  - apply Forall_cons_iff in Hsame. destruct Hsame as [[Hk Hn] Hsame].
    cbn [VIDGenerator.generateEach].
    destruct (VIDGenerator.generate config s) as [[r s1]|] eqn:E;
      [|cbn; repeat constructor].
    destruct (generate_spec _ _ _ _ E Hl Hs) as (Hst & Hl1 & Hs1 & _).
    destruct (IH Hsame s1 Hl1 Hs1) as (IH1 & IH2 & IH3).
    assert (Hup : forall id, pairLt (clockPair (fst s1)) (embeddedPair id) ->
                             pairLt (clockPair (fst s)) (embeddedPair id)).
    { intros id Hid. destruct Hst as [Heq|Hlt]; [rewrite <- Heq; exact Hid|].
      eapply pairLt_trans; eassumption. }
    unfold returned in *. cbn [flat_map]. destruct r as [id|e]; cbn [app].
    + destruct (mintedBy_generate _ _ _ _ E Hl Hs) as (Hm & Hp & Hlt).
      rewrite Hk, Hn in Hm.
      split; [constructor; assumption|]. cbn [map]. split.
      * constructor; [exact IH2|]. rewrite Hp. apply Forall_map. exact IH3.
      * constructor; [rewrite Hp; exact Hlt|].
        eapply Forall_impl; [exact IH3|exact Hup].
    + split; [exact IH1|]. split; [exact IH2|].
      eapply Forall_impl; [exact IH3|exact Hup].
Qed.

Lemma mintedBy_order (kv nid : Z) (a b : VIDValue) :
  mintedBy kv nid a -> mintedBy kv nid b ->
  pairLt (embeddedPair a) (embeddedPair b) -> bytesLt (binary a) (binary b) = true.
Proof.
  intros (ta & sa & ga & Ha & Hta & Hsa) (tb & sb & gb & Hb & Htb & Hsb) Hlt.
  unfold embeddedPair in Hlt. rewrite Ha, Hb in *.
  destruct (parser_reads_payload kv ta nid sa ga Hta Hsa) as [Ea1 Ea2].
  destruct (parser_reads_payload kv tb nid sb gb Htb Hsb) as [Eb1 Eb2].
  cbv zeta in Ea1, Ea2, Eb1, Eb2. rewrite Ea1, Ea2, Eb1, Eb2 in Hlt.
  apply payload_order; assumption.
Qed.

Lemma sorted_binaries (P : VIDValue -> Prop) (ids : list VIDValue) :
  (forall a b, P a -> P b -> exists kv nid, mintedBy kv nid a /\ mintedBy kv nid b) ->
  Forall P ids ->
  StronglySorted pairLt (map embeddedPair ids) ->
  StronglySorted (fun a b => bytesLt a b = true) (map binary ids).
Proof.
  intros HP. induction ids as [|id ids IH]; intros Hm Hs; cbn [map]; [constructor|].
  cbn [map] in Hs. apply StronglySorted_inv in Hs. destruct Hs as [Hs Hall].
  apply Forall_cons_iff in Hm. destruct Hm as [Hid Hm].
  constructor; [apply IH; assumption|].
  apply Forall_map. rewrite Forall_map in Hall.
  rewrite Forall_forall in *. intros b Hb.
  destruct (HP id b Hid (Hm b Hb)) as (kv & nid & Ha & Hb').
  apply (mintedBy_order kv nid); auto.
Qed.

(** ** The calls return *)

Lemma now_reads (g : Generator) (w : World) (t : Z) (rest : list Z) :
  readings w = t :: rest ->
  exists w1, TimeUtils.now (g, w) = Some (Returned t, (g, w1)) /\ readings w1 = rest.
Proof.
  unfold readings, TimeUtils.now, Date_now. cbn [fst snd].
  destruct (provider w) as [l|] eqn:Ep; intros Hr.
  - subst l. eexists. split; [reflexivity|]. reflexivity.
  - rewrite Hr. eexists. split; [reflexivity|]. cbn [provider date]. rewrite ?Ep. reflexivity.
Qed.

Lemma returned_map_Returned {A} (ids : list A) : returned (map Returned ids) = ids.
Proof.
  unfold returned. induction ids as [|id ids IH]; [reflexivity|].
  cbn [map flat_map app]. f_equal. exact IH.
Qed.

(** A run of calls with configurations that pass the guards, on a clock
    that has a reading within 48 bits for each call, with room left in the
    sequence for all of them: every call returns an identifier. *)
Lemma generateEach_returns (configs : list VIDGenerator.VIDGeneratorConfig) :
  forall (g : Generator) (w : World),
    Forall (fun c => exists kv nid,
                VIDGenerator.validateConfig c = Returned kv
                /\ VIDGenerator.resolveNodeId (VIDGenerator.nodeId c) = Returned nid)
           configs ->
    (length configs <= length (readings w))%nat ->
    Forall (fun t => t <= VIDGenerator.MAX_TIMESTAMP) (take (length configs) (readings w)) ->
    lastTimestamp g <= VIDGenerator.MAX_TIMESTAMP ->
    0 <= sequence g -> sequence g + Z.of_nat (length configs) <= 65535 ->
    exists ids,
      VIDGenerator.generateEach configs (g, w) = map Returned ids
      /\ length ids = length configs.
Proof.
  induction configs as [|config configs IH]; intros g w Hvalid Hlen Hmax Hlast Hseq0 Hseq.
  - exists []. split; reflexivity.
  - apply Forall_cons_iff in Hvalid. destruct Hvalid as [(kv & nid & Ev & Er) Hvalid].
    cbn [length] in Hlen, Hmax, Hseq.
    destruct (readings w) as [|t rest] eqn:Hr; [cbn [length] in Hlen; lia|].
    cbn [length take firstn] in Hlen, Hmax.
    apply Forall_cons_iff in Hmax. destruct Hmax as [Ht Hmax].
    destruct (now_reads g w t rest Hr) as (w1 & Hnow & Hr1).
    destruct (generate_returns config kv nid g w w1 t Ev Er Hnow) as (id & g' & Hg & Hp);
      [lia|lia|].
    unfold clockPair in Hp. injection Hp as Hl' Hs'.
    destruct (IH g' w1 Hvalid) as (ids & He & Hn).
    + rewrite Hr1. lia.
    + rewrite Hr1. exact Hmax.
    + rewrite Hl'. lia.
    + rewrite Hs'. destruct (t <=? lastTimestamp g); lia.
    + rewrite Hs'. destruct (t <=? lastTimestamp g); lia.
    + exists (id :: ids). cbn [VIDGenerator.generateEach]. rewrite Hg, He.
      split; [reflexivity|]. cbn [length]. rewrite Hn. reflexivity.
Qed.

(** C2. Take N successive calls of [generate] on a new instance, all with
    the same key version and node identifier, whatever the clock reads (in
    particular when its readings never decrease). The (timestamp,
    sequence) pairs embedded in the identifiers returned are strictly
    increasing lexicographically in call order, and so are the 18-byte
    binaries in byte-wise order: sorting them gives back the call order.
    And the calls do return: when the configurations pass the guards of
    [generate], the clock has a reading of at most 48 bits for each call
    and N is at most 65535 (so that the sequence cannot run out), each of
    the N calls returns an identifier, and these N identifiers are the
    ones ordered above. *)
Theorem generate_monotonic (keyVersion : number) (nodeId : NodeId)
    (configs : list VIDGenerator.VIDGeneratorConfig) (w : World) :
  Forall (fun c => VIDGenerator.keyVersion c = keyVersion /\ VIDGenerator.nodeId c = nodeId)
         configs ->
  StronglySorted pairLt
    (map embeddedPair (returned (VIDGenerator.generateEach configs (VIDGenerator.new, w))))
  /\ StronglySorted (fun a b => bytesLt a b = true)
       (map binary (returned (VIDGenerator.generateEach configs (VIDGenerator.new, w))))
  /\ (Forall (fun c => exists kv, VIDGenerator.validateConfig c = Returned kv) configs ->
      (exists nid, VIDGenerator.resolveNodeId nodeId = Returned nid) ->
      Z.of_nat (length configs) <= 65535 ->
      (length configs <= length (readings w))%nat ->
      Forall (fun t => t <= VIDGenerator.MAX_TIMESTAMP)
             (take (length configs) (readings w)) ->
      VIDGenerator.generateEach configs (VIDGenerator.new, w)
      = map Returned (returned (VIDGenerator.generateEach configs (VIDGenerator.new, w)))
      /\ length (returned (VIDGenerator.generateEach configs (VIDGenerator.new, w)))
         = length configs).
Proof.
  intros Hsame.
  destruct (generateEach_spec keyVersion nodeId configs Hsame (VIDGenerator.new, w))
    as (Hm & Hs & _); [cbn; lia|cbn; lia|].
  split; [exact Hs|]. split.
  - eapply sorted_binaries; [|exact Hm|exact Hs].
    intros a b (kv & nid & Hk & Hn & Ha) (kv' & nid' & Hk' & Hn' & Hb).
    rewrite Hk in Hk'. rewrite Hn in Hn'. injection Hk' as <-. injection Hn' as <-.
    exists kv, nid. auto.
  - intros Hvalid (nid & Hnid) Hn Hlen Hmax.
    destruct (generateEach_returns configs VIDGenerator.new w) as (ids & He & Hl).
    + rewrite Forall_forall in *. intros c Hc.
      destruct (Hvalid c Hc) as (kv & Hkv). destruct (Hsame c Hc) as (_ & Hnode).
      exists kv, nid. rewrite Hnode. auto.
    + exact Hlen.
    + exact Hmax.
    + cbn. unfold VIDGenerator.MAX_TIMESTAMP. lia.
    + cbn [VIDGenerator.new sequence]. lia.
    + cbn [VIDGenerator.new sequence]. lia.
    + rewrite He, returned_map_Returned. auto.
Qed.

Lemma generate_monotonic_witness :
  StronglySorted pairLt
    (map embeddedPair
       (returned (VIDGenerator.generateEach [exampleConfig; exampleConfig; exampleConfig]
                    (VIDGenerator.new, exampleWorld))))
  /\ StronglySorted (fun a b => bytesLt a b = true)
       (map binary
          (returned (VIDGenerator.generateEach [exampleConfig; exampleConfig; exampleConfig]
                       (VIDGenerator.new, exampleWorld))))
  /\ VIDGenerator.generateEach [exampleConfig; exampleConfig; exampleConfig]
                               (VIDGenerator.new, exampleWorld)
     = map Returned
         (returned (VIDGenerator.generateEach [exampleConfig; exampleConfig; exampleConfig]
                      (VIDGenerator.new, exampleWorld)))
  /\ length (returned (VIDGenerator.generateEach [exampleConfig; exampleConfig; exampleConfig]
                         (VIDGenerator.new, exampleWorld)))
     = 3%nat.
Proof.
  destruct (generate_monotonic (Int 1) (NodeString (js "node-a"))
              [exampleConfig; exampleConfig; exampleConfig] exampleWorld)
    as (Hpairs & Hbytes & Hreturn).
  - repeat constructor.
  - split; [exact Hpairs|]. split; [exact Hbytes|]. apply Hreturn.
    + repeat constructor; exists 1; vm_compute; reflexivity.
    + exists 26199. vm_compute. reflexivity.
    + cbn. lia.
    + cbn. lia.
    + repeat constructor; vm_compute; discriminate.
Defined.

(** Three calls on the scenario's clock: the same millisecond twice, then
    the next one. All three return; the identifiers differ in the sequence
    field, then in the timestamp. *)
Example generate_three :
  map (fun id => (binary id, embeddedPair id))
      (returned (VIDGenerator.generateEach [exampleConfig; exampleConfig; exampleConfig]
                                           (VIDGenerator.new, exampleWorld)))
  = [(hex "01018bcfe56800665700008245393cf97f55", (1700000000000, 0));
     (hex "01018bcfe56800665700014648" ++ hex "0b5f6f960b", (1700000000000, 1));
     (hex "01018bcfe5680166570000c7e83be57ea403", (1700000000001, 0))].
Proof. vm_compute. reflexivity. Qed.

(** ** Key versions *)

(** A returned identifier is a payload that starts with the configured
    key version, followed by the signature of that payload under the
    configured secret; its cached text is the encoding of these bytes.
    Nothing is asked of the instance's state. *)
Lemma generate_returned (config : VIDGenerator.VIDGeneratorConfig) (s s' : Generator * World)
    (id : VIDValue) :
  VIDGenerator.generate config s = Some (Returned id, s') ->
  exists kv nid k ts sq str,
    VIDGenerator.keyVersion config = Int kv /\ 0 <= kv <= 255
    /\ asUint8Array (VIDGenerator.secret config) = Some k /\ (32 <= length k)%nat
    /\ binary id
       = VIDGenerator.encodePayload kv ts nid sq
         ++ take 7 (Sha256.hmacSha256 k (VIDGenerator.encodePayload kv ts nid sq))
    /\ Base32Encoder.encode (binary id) = Returned str
    /\ _cachedString id = Some str.
Proof.
  intros H. unfold VIDGenerator.generate, bindRun, lift in H.
  destruct (VIDGenerator.validateConfig config) as [kv|e] eqn:Ev; [|discriminate].
  destruct (VIDGenerator.resolveNodeId (VIDGenerator.nodeId config)) as [nid|e];
    [|discriminate].
  destruct (VIDGenerator.nextTimestampAndSequence s) as [[[[ts sq]|e] s1]|];
    try discriminate.
  destruct (validateConfig_inv _ _ Ev) as (Hkv & Hkvr & k & Ek & Hk).
  destruct (VIDGenerator.MAX_TIMESTAMP <? ts); [discriminate|].
  set (P := VIDGenerator.encodePayload kv ts nid sq) in *.
  rewrite (sign_returns (VUint8Array P) _ P k eq_refl Ek) in H
    by (unfold P; rewrite ?length_encodePayload; lia).
  assert (Hsig : negb (length (take 7 (Sha256.hmacSha256 k P))
                        =? VIDGenerator.SIGNATURE_BYTES)%nat = false)
    by (rewrite signature_length; reflexivity).
  rewrite Hsig in H. cbv beta in H.
  assert (Hr : VIDValue.constructor
                 (VUint8Array (ByteUtils.concat P (take 7 (Sha256.hmacSha256 k P))))
               = Returned id) by congruence.
  clear H. apply constructor_bytes in Hr. destruct Hr as (Hr & str & He & Hc).
  rewrite concat_app in Hr, He. rewrite <- Hr in He.
  exists kv, nid, k, ts, sq, str. auto 10.
Qed.

(** Every form of an identifier with its 18 bytes and the text of these
    bytes normalizes to the bytes. *)
Lemma normalize_representation (U : jsstring -> jsstring) (id : VIDValue) (str : jsstring)
    (input : jsval) :
  length (binary id) = 18%nat ->
  Base32Encoder.encode (binary id) = Returned str ->
  _cachedString id = Some str ->
  In input (representations id) ->
  VIDVerifier.normalizeToBinary U input = inl (binary id).
Proof.
  intros Hlen He Hc Hin. unfold representations in Hin. rewrite Hc in Hin.
  cbn [app In] in Hin.
  destruct Hin as [<-|[<-|[<-|[<-|[<-|[]]]]]]; try reflexivity.
  destruct (encode_then_decode U _ _ Hlen He) as (Hls & Hall & Hn & Hd).
  unfold VIDVerifier.normalizeToBinary, VIDVerifier.VID_STRING_LENGTH,
    VIDVerifier.BASE32_REGEX, testBase32.
  rewrite Hn, Hls, Hall, Hd. reflexivity.
Qed.

Lemma first_byte_of_payload (kv ts nid sq : Z) (rest : bytes) :
  0 <= kv <= 255 ->
  byteZ (nth 0 (VIDGenerator.encodePayload kv ts nid sq ++ rest) x00) = kv.
Proof.
  intros H. rewrite encodePayload_fields. cbn [bigEndian app nth].
  rewrite byteZ_Zbyte. change (256 ^ Z.of_nat 0) with 1. rewrite Z.div_1_r.
  apply Z.mod_small. lia.
Qed.

Lemma split_binary (p sig : bytes) :
  length p = 11%nat -> length sig = 7%nat ->
  subarray (p ++ sig) 0 VIDVerifier.PAYLOAD_END = p
  /\ subarray (p ++ sig) VIDVerifier.PAYLOAD_END
       (VIDVerifier.PAYLOAD_END + VIDVerifier.SIGNATURE_BYTES) = sig.
Proof.
  intros Hp Hs. unfold subarray, VIDVerifier.PAYLOAD_END, VIDVerifier.SIGNATURE_BYTES.
  split.
  - rewrite drop_0. cbn [Nat.sub]. rewrite <- Hp. apply take_app_length.
  - replace (drop 11 (p ++ sig)) with sig
      by (rewrite <- Hp, drop_app_length; reflexivity).
    replace (11 + 7 - 11)%nat with (length sig) by lia. apply firstn_all.
Qed.

(** C5, as the code has it. Take an identifier that [generate] returned
    under key version [kv], in any of its forms, and a key map that
    [validateKeys] accepts (it is not empty, its versions are integers from
    0 to 255 and its secrets have at least 32 bytes). Byte 0 of the
    identifier is [kv]. If the map has an entry for [kv] that holds the
    bytes of the minting secret, [verifyDetailed] returns valid, whatever
    other entries the map has; if it has no entry for [kv],
    [verifyDetailed] returns the reason [UNKNOWN_KEY_VERSION]. *)
Theorem minted_id_verifies (U : jsstring -> jsstring)
    (config : VIDGenerator.VIDGeneratorConfig) (s s' : Generator * World) (id : VIDValue)
    (kv : Z) (keys : VIDVerifier.KeyMap) (input : jsval) :
  VIDGenerator.generate config s = Some (Returned id, s') ->
  VIDGenerator.keyVersion config = Int kv ->
  VIDVerifier.validateKeys keys = Returned tt ->
  In input (representations id) ->
  byteZ (nth 0 (binary id) x00) = kv
  /\ (forall secret,
        VIDVerifier.get keys kv = Some secret ->
        asUint8Array secret = asUint8Array (VIDGenerator.secret config) ->
        VIDVerifier.verifyDetailed U input keys = Returned VIDVerifier.Valid)
  /\ (VIDVerifier.get keys kv = None ->
      VIDVerifier.verifyDetailed U input keys
      = Returned (VIDVerifier.Invalid VIDVerifier.UNKNOWN_KEY_VERSION)).
Proof.
  intros Hg Hkv Hkeys Hin.
  destruct (generate_returned _ _ _ _ Hg)
    as (kv' & nid & k & ts & sq & str & Hkv' & Hr & Ek & Hk & Hb & He & Hc).
  rewrite Hkv in Hkv'. injection Hkv' as <-.
  set (P := VIDGenerator.encodePayload kv ts nid sq) in *.
  assert (Hfirst : byteZ (nth 0 (binary id) x00) = kv)
    by (rewrite Hb; apply first_byte_of_payload, Hr).
  assert (Hlen : length (binary id) = 18%nat)
    by (rewrite Hb, length_app, signature_length; unfold P;
        rewrite length_encodePayload; reflexivity).
  split; [exact Hfirst|].
  unfold VIDVerifier.verifyDetailed. rewrite Hkeys. cbn [bind].
  rewrite (normalize_representation U id str input Hlen He Hc Hin).
  unfold VIDVerifier.VID_BYTE_LENGTH.
  rewrite Hlen, Hfirst. cbn [Nat.eqb negb].
  split.
  - intros secret Hget Hsec. rewrite Hget, Hsec, Ek.
    destruct (Nat.eqb_spec (length k) 0) as [Hz|_]; [lia|].
    rewrite Hb.
    destruct (split_binary P (take 7 (Sha256.hmacSha256 k P))) as [-> ->];
      [apply length_encodePayload | apply signature_length |].
    assert (HlP : (1 <= length P)%nat) by (unfold P; rewrite length_encodePayload; lia).
    assert (Hs : asUint8Array secret = Some k) by (rewrite Hsec; exact Ek).
    rewrite (verify_of_sign (VUint8Array P) secret P k eq_refl Hs HlP Hk). reflexivity.
  - intros Hget. rewrite Hget. reflexivity.
Qed.

Lemma minted_id_verifies_witness :
  byteZ (nth 0 (binary exampleId) x00) = 1
  /\ (forall secret,
        VIDVerifier.get exampleKeys 1 = Some secret ->
        asUint8Array secret = asUint8Array (VIDGenerator.secret exampleConfig) ->
        VIDVerifier.verifyDetailed keepCase (VString (js "AEAYXT7FNAAGMVYAACBEKOJ47F7VK"))
          exampleKeys
        = Returned VIDVerifier.Valid)
  /\ (VIDVerifier.get exampleKeys 1 = None ->
      VIDVerifier.verifyDetailed keepCase (VString (js "AEAYXT7FNAAGMVYAACBEKOJ47F7VK"))
        exampleKeys
      = Returned (VIDVerifier.Invalid VIDVerifier.UNKNOWN_KEY_VERSION)).
Proof.
  apply (minted_id_verifies keepCase exampleConfig (VIDGenerator.new, exampleWorld)
           ({| lastTimestamp := 1700000000000; sequence := 0 |},
            {| provider := Some [1700000000000; 1700000000001]; date := [] |})).
  - vm_compute. reflexivity.
  - reflexivity.
  - reflexivity.
  - cbn. auto 10.
Defined.

(** The scenario of the specification: the identifier minted under key
    version 1 is valid against the map of versions 1 and 2, and unknown to
    a map that has version 2 only. *)
Example key_rotation_scenario :
  VIDGenerator.generate exampleConfig (VIDGenerator.new, exampleWorld)
  = Some (Returned exampleId,
          ({| lastTimestamp := 1700000000000; sequence := 0 |},
           {| provider := Some [1700000000000; 1700000000001]; date := [] |}))
  /\ VIDVerifier.verifyDetailed keepCase (VVIDValue exampleId) exampleKeys
     = Returned VIDVerifier.Valid
  /\ VIDVerifier.verifyDetailed keepCase (VString (js " aeayxt7fnaagmvyaacbekoj47f7vk"))
       exampleKeys
     = Returned VIDVerifier.Valid
  /\ VIDVerifier.verifyDetailed keepCase (VVIDValue exampleId) (drop 1 exampleKeys)
     = Returned (VIDVerifier.Invalid VIDVerifier.UNKNOWN_KEY_VERSION).
Proof. split; [|split; [|split]]; vm_compute; reflexivity. Qed.

(** C5 as stated fails on the empty key map: it has no entry for the
    identifier's key version, and [verifyDetailed] throws a [RangeError]
    instead of returning a reason. *)
Lemma empty_key_map_counterexample :
  VIDGenerator.generate exampleConfig (VIDGenerator.new, exampleWorld)
  = Some (Returned exampleId,
          ({| lastTimestamp := 1700000000000; sequence := 0 |},
           {| provider := Some [1700000000000; 1700000000001]; date := [] |}))
  /\ VIDVerifier.get [] 1 = None
  /\ VIDVerifier.verifyDetailed keepCase (VVIDValue exampleId) [] = Threw RangeError.
Proof. split; [|split]; vm_compute; reflexivity. Qed.

(* ================================================================== *)
(** * Part IV: the rest of the code                                    *)
(* ================================================================== *)

(** ** Base32Encoder: every outcome of [encode] and [decode] *)

(** A character outside the alphabet stops the decoder with [Error],
    whatever it has accumulated. *)
Lemma decodeChar_invalid (st : Z * Z * bytes * nat) (c : N) :
  isBase32Char c = false -> Base32Encoder.decodeChar st c = Threw Error.
Proof.
  intros Hc. destruct st as [[[bits value] output] k]. unfold Base32Encoder.decodeChar.
  destruct (N.ltb_spec Base32Encoder.MAX_ASCII c) as [Hhi|Hlo]; [reflexivity|].
  pose (P := fun n : nat =>
     implb (negb (isBase32Char (N.of_nat n)))
           (nth n Base32Encoder.DECODE_LOOKUP 0 =? -1)).
  assert (HP : P (N.to_nat c) = true).
  { apply (forall_below P 128); [vm_compute; reflexivity|].
    unfold Base32Encoder.MAX_ASCII in Hlo. lia. }
  unfold P in HP. rewrite N2Nat.id, Hc in HP. cbn [negb implb] in HP.
  rewrite HP. reflexivity.
Qed.

Lemma decodeChar_valid (st : Z * Z * bytes * nat) (c : N) :
  isBase32Char c = true -> exists st', Base32Encoder.decodeChar st c = Returned st'.
Proof.
  intros Hc. destruct st as [[[bits value] output] k]. unfold Base32Encoder.decodeChar.
  destruct (base32_char c Hc) as (Hhi & Hr & _). rewrite Hhi.
  fold (charValue c).
  destruct (Z.eqb_spec (charValue c) (-1)) as [E|_]; [lia|].
  destruct (Base32Encoder.BITS_PER_BYTE <=? bits + Base32Encoder.BITS_PER_CHAR); eauto.
Qed.

Lemma decodeLoop_invalid (s : jsstring) :
  forallb isBase32Char s = false ->
  forall st, Base32Encoder.decodeLoop s st = Threw Error.
Proof.
  induction s as [|c s IH]; intros H st; [discriminate H|].
  cbn [forallb] in H. cbn [Base32Encoder.decodeLoop].
  destruct (isBase32Char c) eqn:Hc.
  - destruct (decodeChar_valid st c Hc) as [st' ->]. cbn [bind]. apply IH. exact H.
  - rewrite decodeChar_invalid by exact Hc. reflexivity.
Qed.

(** X1. [encode] returns exactly on an array of 18 bytes, and then a text
    of 29 characters of the alphabet, one that the verifier's and the
    parser's [/^[A-Z2-7]{29}$/] accept; on any other length it throws
    [RangeError]. *)
Theorem encode_outcome (b : bytes) :
  match Base32Encoder.encode b with
  | Returned s =>
      length b = 18%nat /\ length s = 29%nat /\ forallb isBase32Char s = true
      /\ VIDVerifier.BASE32_REGEX s = true
  | Threw e => e = RangeError /\ length b <> 18%nat
  end.
Proof.
  destruct (Nat.eq_dec (length b) 18%nat) as [Hlen|Hlen].
  - destruct (encode_spec b Hlen) as (s & -> & _ & Hall & Hls).
    split; [exact Hlen|]. split; [exact Hls|]. split; [exact Hall|].
    unfold VIDVerifier.BASE32_REGEX, testBase32. rewrite Hls, Hall. reflexivity.
  - unfold Base32Encoder.encode, Base32Encoder.VID_BINARY_BYTES.
    destruct (Nat.eqb_spec (length b) 18%nat) as [E|_]; [contradiction|].
    cbn [negb]. split; [reflexivity|exact Hlen].
Qed.

(** X2. [decode] returns exactly when the trimmed, uppercased input is 29
    characters of the alphabet, and then 18 bytes: the first 144 bits of
    the text. Another length throws [RangeError], a character outside the
    alphabet throws [Error]; the final guard on the number of bytes
    written never fires. *)
Theorem decode_outcome (U : jsstring -> jsstring) (s : jsstring) :
  let normalized := toUpperCase U (trim s) in
  match Base32Encoder.decode U s with
  | Returned b =>
      length normalized = 29%nat /\ forallb isBase32Char normalized = true
      /\ length b = 18%nat /\ flat8 b = take 144 (flat5 normalized)
  | Threw RangeError => length normalized <> 29%nat
  | Threw Error => length normalized = 29%nat /\ forallb isBase32Char normalized = false
  | Threw TypeError => False
  end.
Proof.
  intros normalized.
  destruct (Nat.eq_dec (length normalized) 29%nat) as [Hlen|Hlen].
  - destruct (forallb isBase32Char normalized) eqn:Hall.
    + destruct (decode_spec U s Hlen Hall) as (b & pad & -> & Hb & Hf).
      split; [exact Hlen|]. split; [reflexivity|]. split; [exact Hb|].
      fold normalized in Hf. rewrite <- Hf.
      rewrite take_app_length' by (rewrite length_flat8; lia). reflexivity.
    + unfold Base32Encoder.decode. fold normalized.
      change Base32Encoder.VID_STRING_CHARS with 29%nat.
      rewrite Hlen. cbn [Nat.eqb negb].
      rewrite decodeLoop_invalid by exact Hall. cbn [bind]. auto.
  - unfold Base32Encoder.decode. fold normalized.
    change Base32Encoder.VID_STRING_CHARS with 29%nat.
    destruct (Nat.eqb_spec (length normalized) 29%nat) as [E|_]; [contradiction|].
    cbn [negb]. exact Hlen.
Qed.

(** X3. Distinct identifiers never share their base32 form: two different
    arrays of 18 bytes have different texts. *)
Theorem encode_injective (a b : bytes) :
  length a = 18%nat -> length b = 18%nat -> a <> b ->
  Base32Encoder.encode a <> Base32Encoder.encode b.
Proof.
  intros La Lb Hab He.
  destruct (encode_spec a La) as (s & Ha & _).
  destruct (encode_then_decode keepCase a s La Ha) as (_ & _ & _ & Da).
  rewrite He in Ha.
  destruct (encode_then_decode keepCase b s Lb Ha) as (_ & _ & _ & Db).
  congruence.
Qed.

Lemma encode_injective_witness :
  hex "01018bcfe56800665700008245393cf97f55" <> hex "01018bcfe56800665700014648" ++ hex "0b5f6f960b"
  /\ Base32Encoder.encode (hex "01018bcfe56800665700008245393cf97f55")
     <> Base32Encoder.encode (hex "01018bcfe56800665700014648" ++ hex "0b5f6f960b").
Proof.
  split; [vm_compute; discriminate|].
  apply encode_injective; [reflexivity|reflexivity|vm_compute; discriminate].
Defined.

(** ** ByteUtils *)

Lemma copy_id (src : bytes) : ByteUtils.copy src = src.
Proof.
  unfold ByteUtils.copy, ByteUtils.set, newUint8Array.
  rewrite take_0. cbn [app Nat.add].
  rewrite drop_ge by (rewrite length_replicate; lia). apply app_nil_r.
Qed.

(** X4. [concat] returns a new array holding the bytes of [a] followed by
    those of [b], and [copy] an array with the bytes of its argument;
    both throw [TypeError] on an argument that is not a [Uint8Array]. *)
Theorem concat_copy_outcome (x y : jsval) :
  ByteUtilsGuarded.concat x y
  = match asUint8Array x, asUint8Array y with
    | Some a, Some b => Returned (a ++ b)
    | _, _ => Threw TypeError
    end
  /\ ByteUtilsGuarded.copy x
     = match asUint8Array x with
       | Some a => Returned a
       | None => Threw TypeError
       end.
Proof.
  unfold ByteUtilsGuarded.concat, ByteUtilsGuarded.copy, ByteUtilsGuarded.assertUint8Array.
  destruct (asUint8Array x) as [a|]; [|split; reflexivity].
  destruct (asUint8Array y) as [b|]; cbn [bind]; rewrite ?concat_app, ?copy_id;
    split; reflexivity.
Qed.

Lemma equalFrom_spec (fuel : nat) :
  forall (i : nat) (a b : bytes),
    length a = length b -> (i + fuel)%nat = length a ->
    ByteUtilsGuarded.equalFrom fuel i a b = true <-> drop i a = drop i b.
Proof.
  induction fuel as [|fuel IH]; intros i a b Hlen Hi.
  - cbn [ByteUtilsGuarded.equalFrom].
    rewrite !drop_ge by lia. split; reflexivity.
  - cbn [ByteUtilsGuarded.equalFrom]. unfold ByteUtilsGuarded.differAt.
    destruct (lookup_lt_is_Some_2 a i) as [x Hx]; [lia|].
    destruct (lookup_lt_is_Some_2 b i) as [y Hy]; [lia|].
    rewrite Hx, Hy. rewrite (drop_S a x i Hx), (drop_S b y i Hy).
    destruct (Byte.eqb x y) eqn:E; cbn [negb].
    + apply Byte.byte_dec_bl in E. subst y.
      rewrite (IH (S i) a b Hlen) by lia.
      split; [intros ->; reflexivity|intros [= H]; exact H].
    + split; [discriminate|]. intros [= H _]. subst y.
      rewrite (Byte.byte_dec_lb eq_refl) in E. discriminate E.
Qed.

(** X5. On two arrays [equal] returns [true] exactly when they have the
    same length and the same bytes; it throws [TypeError] when an argument
    is not a [Uint8Array]. *)
Theorem equal_outcome (x y : jsval) :
  match asUint8Array x, asUint8Array y with
  | Some a, Some b =>
      exists r, ByteUtilsGuarded.equal x y = Returned r /\ (r = true <-> a = b)
  | _, _ => ByteUtilsGuarded.equal x y = Threw TypeError
  end.
Proof.
  unfold ByteUtilsGuarded.equal, ByteUtilsGuarded.assertUint8Array.
  destruct (asUint8Array x) as [a|]; [|reflexivity].
  destruct (asUint8Array y) as [b|]; [|reflexivity]. cbn [bind].
  destruct (Nat.eqb_spec (length a) (length b)) as [Hlen|Hlen]; cbn [negb].
  - eexists. split; [reflexivity|].
    rewrite (equalFrom_spec (length a) 0 a b Hlen) by lia. rewrite !drop_0. reflexivity.
  - exists false. split; [reflexivity|]. split; [discriminate|].
    intros ->. contradiction.
Qed.

(** ** HMACSigner.verify *)

Lemma bytes_eqb_eq (a b : bytes) : HMACSigner.bytes_eqb a b = true <-> a = b.
Proof.
  split; [|intros ->; apply bytes_eqb_refl].
  unfold HMACSigner.bytes_eqb. intros H. apply andb_true_iff in H.
  destruct H as [Hlen H]. apply Nat.eqb_eq in Hlen.
  revert b Hlen H. induction a as [|x a IH]; intros [|y b] Hlen H;
    cbn [length] in Hlen; try lia; [reflexivity|].
  cbn [combine forallb fst snd] in H. apply andb_true_iff in H. destruct H as [Hxy H].
  apply Byte.byte_dec_bl in Hxy. subst y. f_equal. apply IH; [lia|exact H].
Qed.

(** What [verify] computes: the guards, then the comparison of the
    signature with the first 7 bytes of the HMAC. *)
Lemma verify_eq (payload signature secret : jsval) :
  HMACSigner.verify payload signature secret
  = Returned
      match asUint8Array payload, asUint8Array signature, asUint8Array secret with
      | Some p, Some s, Some k =>
          (1 <=? length p)%nat && (32 <=? length k)%nat && (length s =? 7)%nat
          && HMACSigner.bytes_eqb (take 7 (Sha256.hmacSha256 k p)) s
      | _, _, _ => false
      end.
Proof.
  unfold HMACSigner.verify.
  destruct (asUint8Array payload) as [p|] eqn:Ep; [|reflexivity].
  destruct (asUint8Array signature) as [s|] eqn:Es; [|reflexivity].
  destruct (asUint8Array secret) as [k|] eqn:Ek; [|reflexivity].
  unfold HMACSigner.MIN_PAYLOAD_BYTES, HMACSigner.MIN_SECRET_BYTES,
    HMACSigner.SIGNATURE_BYTES.
  destruct (Nat.ltb_spec (length p) 1) as [Hp|Hp];
    [destruct (Nat.leb_spec 1 (length p)); [lia|reflexivity]|].
  destruct (Nat.leb_spec 1 (length p)); [|lia].
  destruct (Nat.ltb_spec (length k) 32) as [Hk|Hk];
    [destruct (Nat.leb_spec 32 (length k)); [lia|reflexivity]|].
  destruct (Nat.leb_spec 32 (length k)); [|lia].
  destruct (Nat.eqb_spec (length s) 7) as [Hs|Hs]; cbn [negb andb]; [|reflexivity].
  rewrite (sign_returns payload secret p k Ep Ek) by lia.
  rewrite signature_length, Hs. cbn [Nat.eqb negb].
  unfold HMACSigner.timingSafeEqual. rewrite signature_length, Hs. reflexivity.
Qed.

(** X6. [verify] returns [true] exactly when the three arguments are byte
    arrays, the payload is not empty, the secret has at least 32 bytes and
    the signature is the first 7 bytes of HMAC-SHA256(secret, payload):
    no other signature is accepted for a payload. *)
Theorem verify_true_iff (payload signature secret : jsval) :
  HMACSigner.verify payload signature secret = Returned true
  <-> exists p s k,
        asUint8Array payload = Some p /\ asUint8Array signature = Some s
        /\ asUint8Array secret = Some k
        /\ (1 <= length p)%nat /\ (32 <= length k)%nat
        /\ s = take 7 (Sha256.hmacSha256 k p).
Proof.
  rewrite verify_eq.
  destruct (asUint8Array payload) as [p|];
    [|split; [discriminate|intros (? & ? & ? & [=] & _)]].
  destruct (asUint8Array signature) as [s|];
    [|split; [discriminate|intros (? & ? & ? & _ & [=] & _)]].
  destruct (asUint8Array secret) as [k|];
    [|split; [discriminate|intros (? & ? & ? & _ & _ & [=] & _)]].
  pose proof (bytes_eqb_eq (take 7 (Sha256.hmacSha256 k p)) s) as Heq.
  pose proof (signature_length k p) as Hlen.
  set (expected := take 7 (Sha256.hmacSha256 k p)) in *.
  destruct (Nat.leb_spec 1 (length p)) as [Hp|Hp];
    [|split; [discriminate|intros (? & ? & ? & [= <-] & _ & _ & ? & _); lia]].
  destruct (Nat.leb_spec 32 (length k)) as [Hk|Hk];
    [|split; [discriminate|intros (? & ? & ? & _ & _ & [= <-] & _ & ? & _); lia]].
  cbn [andb].
  destruct (Nat.eqb_spec (length s) 7) as [Hs|Hs]; cbn [andb].
  - destruct (HMACSigner.bytes_eqb expected s).
    + split; [|reflexivity]. intros _. exists p, s, k.
      assert (expected = s) by (apply Heq; reflexivity). auto 10.
    + split; [discriminate|]. intros (? & ? & ? & [= <-] & [= <-] & [= <-] & _ & _ & E).
      symmetry in E. apply Heq in E. discriminate E.
  - split; [discriminate|]. intros (? & ? & ? & _ & [= <-] & _ & _ & _ & E).
    subst s. contradiction.
Qed.

(** ** VIDValue *)

(** X7. The constructor (and [fromBinary]) returns exactly on a
    [Uint8Array] or [Buffer] of 18 bytes, and the value then holds those
    bytes and the text [encode] gives them; it throws [TypeError] on
    anything that is not a byte array, [RangeError] on another length, and
    nothing comes from [encode]. *)
Theorem constructor_outcome (x : jsval) :
  VIDValue.fromBinary x = VIDValue.constructor x
  /\ match VIDValue.constructor x with
     | Returned v =>
         exists b s,
           asUint8Array x = Some b /\ length b = 18%nat /\ binary v = b
           /\ Base32Encoder.encode b = Returned s /\ _cachedString v = Some s
     | Threw TypeError => asUint8Array x = None
     | Threw RangeError => exists b, asUint8Array x = Some b /\ length b <> 18%nat
     | Threw Error => False
     end.
Proof.
  split; [reflexivity|].
  assert (H : VIDValue.constructor x
              = match asUint8Array x with
                | None => Threw TypeError
                | Some b =>
                    if negb (length b =? 18)%nat then Threw RangeError
                    else let* s := Base32Encoder.encode b in
                         Returned {| binary := b; _cachedString := Some s |}
                end)
    by (destruct x; reflexivity).
  rewrite H. destruct (asUint8Array x) as [b|]; [|reflexivity].
  destruct (Nat.eqb_spec (length b) 18%nat) as [Hlen|Hlen]; cbn [negb].
  - destruct (encode_spec b Hlen) as (s & He & _). rewrite He. cbn [bind].
    exists b, s. auto 10.
  - exists b. auto.
Qed.

(** X8. As long as the array the constructor was given holds the bytes it
    held at construction, the text of the value is 29 characters, [decode]
    of it gives the bytes [toBinary] returns, and [fromBinary] of those
    bytes gives a value with the same bytes and the same text. (Once the
    caller has written into that array, the cached text and the bytes can
    differ: the constructor keeps the array.) *)
Theorem toString_round_trip (U : jsstring -> jsstring) (h h' : Heap.store) (r : Heap.ref)
    (v : Heap.VIDValueObject) :
  Heap.constructor h r = Returned v ->
  Heap.read h' r = Heap.read h r ->
  exists s,
    HeapValue.toString h' v = Returned (s, v) /\ length s = 29%nat
    /\ Base32Encoder.decode U s
       = Returned (Heap.read (snd (Heap.toBinary h' v)) (fst (Heap.toBinary h' v)))
    /\ exists v',
         HeapValue.fromBinary (snd (Heap.toBinary h' v)) (fst (Heap.toBinary h' v))
         = Returned v'
         /\ Heap.binaryRef v' = fst (Heap.toBinary h' v)
         /\ Heap.cachedString v' = Heap.cachedString v
         /\ Heap.read (snd (Heap.toBinary h' v)) (Heap.binaryRef v')
            = Heap.read h' (Heap.binaryRef v).
Proof.
  intros Hc Hsame.
  pose proof (heap_constructor_ref h r v Hc) as Href.
  unfold Heap.constructor, VIDValue.VID_BYTE_LENGTH in Hc.
  destruct (Nat.eqb_spec (length (Heap.read h r)) 18%nat) as [Hlen|_]; [|discriminate Hc].
  cbn [negb] in Hc.
  destruct (Base32Encoder.encode (Heap.read h r)) as [s|e] eqn:He; [|discriminate Hc].
  cbn [bind] in Hc. injection Hc as <-.
  cbn [Heap.binaryRef Heap.cachedString] in *.
  destruct (encode_then_decode U (Heap.read h r) s Hlen He) as (Hls & _ & _ & Hd).
  assert (Hcopy : Heap.read (h' ++ [Heap.read h' r]) (length h') = Heap.read h' r).
  { unfold Heap.read at 1. rewrite lookup_app_r by lia. rewrite Nat.sub_diag. reflexivity. }
  exists s. unfold HeapValue.toString, HeapValue.fromBinary, Heap.toBinary,
    Heap.newUint8ArrayFrom.
  cbn [Heap.binaryRef Heap.cachedString fst snd].
  split; [reflexivity|]. split; [exact Hls|].
  rewrite Hcopy. split; [rewrite Hsame; exact Hd|].
  unfold Heap.constructor, VIDValue.VID_BYTE_LENGTH.
  rewrite Hcopy, Hsame, Hlen, He. cbn [Nat.eqb negb bind].
  eexists. split; [reflexivity|]. cbn [Heap.binaryRef Heap.cachedString].
  split; [reflexivity|]. split; [reflexivity|]. rewrite <- Hsame. exact Hcopy.
Qed.

Lemma toString_round_trip_witness :
  exists s,
    HeapValue.toString [replicate 18 x00; [xff]] zeroValue = Returned (s, zeroValue)
    /\ length s = 29%nat
    /\ Base32Encoder.decode keepCase s
       = Returned (Heap.read (snd (Heap.toBinary [replicate 18 x00; [xff]] zeroValue))
                             (fst (Heap.toBinary [replicate 18 x00; [xff]] zeroValue)))
    /\ exists v',
         HeapValue.fromBinary (snd (Heap.toBinary [replicate 18 x00; [xff]] zeroValue))
                              (fst (Heap.toBinary [replicate 18 x00; [xff]] zeroValue))
         = Returned v'
         /\ Heap.binaryRef v' = fst (Heap.toBinary [replicate 18 x00; [xff]] zeroValue)
         /\ Heap.cachedString v' = Heap.cachedString zeroValue
         /\ Heap.read (snd (Heap.toBinary [replicate 18 x00; [xff]] zeroValue))
                      (Heap.binaryRef v')
            = Heap.read [replicate 18 x00; [xff]] (Heap.binaryRef zeroValue).
Proof.
  apply (toString_round_trip keepCase [replicate 18 x00] [replicate 18 x00; [xff]] 0%nat).
  - vm_compute. reflexivity.
  - reflexivity.
Defined.

(** ** VIDVerifier: every outcome *)

Lemma validateEntries_get (keys : VIDVerifier.KeyMap) (kv : Z) (secret : jsval) :
  VIDVerifier.validateEntries keys = Returned tt ->
  VIDVerifier.get keys kv = Some secret ->
  exists k, asUint8Array secret = Some k /\ (32 <= length k)%nat.
Proof.
  induction keys as [|[n v] keys IH]; intros Hv Hg; [discriminate Hg|].
  cbn [VIDVerifier.validateEntries] in Hv.
  destruct (VIDVerifier.validateEntry (n, v)) as [[]|e] eqn:Ee; [|discriminate Hv].
  cbn [bind] in Hv. cbn [VIDVerifier.get] in Hg.
  destruct n as [z|]; [|apply IH; assumption].
  destruct (z =? kv); [|apply IH; assumption].
  injection Hg as <-. unfold VIDVerifier.validateEntry in Ee. cbn [fst snd] in Ee.
  destruct ((z <? 0) || (255 <? z)); [discriminate Ee|].
  destruct (asUint8Array v) as [k|]; [|discriminate Ee].
  destruct (length k =? 0)%nat; [discriminate Ee|].
  destruct (Nat.ltb_spec (length k) 32); [discriminate Ee|].
  exists k. auto.
Qed.

Lemma validateKeys_entries (keys : VIDVerifier.KeyMap) :
  VIDVerifier.validateKeys keys = Returned tt ->
  VIDVerifier.validateEntries keys = Returned tt.
Proof.
  unfold VIDVerifier.validateKeys. destruct (length keys =? 0)%nat; [discriminate|auto].
Qed.

(** What [verifyDetailed] returns on 18 bytes under accepted keys. *)
Lemma verifyDetailed_binary (U : jsstring -> jsstring) (input : jsval)
    (keys : VIDVerifier.KeyMap) (b : bytes) :
  VIDVerifier.validateKeys keys = Returned tt ->
  VIDVerifier.normalizeToBinary U input = inl b ->
  length b = 18%nat ->
  VIDVerifier.verifyDetailed U input keys
  = Returned
      match VIDVerifier.get keys (byteZ (nth 0 b x00)) with
      | None => VIDVerifier.Invalid VIDVerifier.UNKNOWN_KEY_VERSION
      | Some secret =>
          match asUint8Array secret with
          | Some k =>
              if HMACSigner.bytes_eqb (take 7 (Sha256.hmacSha256 k (take 11 b))) (drop 11 b)
              then VIDVerifier.Valid
              else VIDVerifier.Invalid VIDVerifier.SIGNATURE_MISMATCH
          | None => VIDVerifier.Invalid VIDVerifier.SIGNATURE_MISMATCH
          end
      end.
Proof.
  intros Hk Hn Hlen. unfold VIDVerifier.verifyDetailed. rewrite Hk, Hn. cbn [bind].
  unfold VIDVerifier.VID_BYTE_LENGTH. rewrite Hlen. cbn [Nat.eqb negb].
  destruct (VIDVerifier.get keys (byteZ (nth 0 b x00))) as [secret|] eqn:Hg; [|reflexivity].
  destruct (validateEntries_get keys _ secret (validateKeys_entries keys Hk) Hg)
    as (k & Ek & Hlk).
  rewrite Ek. destruct (Nat.eqb_spec (length k) 0) as [Hz|_]; [lia|].
  rewrite verify_eq. cbn [asUint8Array bind]. rewrite Ek.
  assert (Hp : subarray b 0 VIDVerifier.PAYLOAD_END = take 11 b)
    by (unfold subarray; rewrite drop_0; reflexivity).
  assert (Hs : subarray b VIDVerifier.PAYLOAD_END
                 (VIDVerifier.PAYLOAD_END + VIDVerifier.SIGNATURE_BYTES) = drop 11 b).
  { unfold subarray, VIDVerifier.PAYLOAD_END, VIDVerifier.SIGNATURE_BYTES.
    apply take_ge. rewrite length_drop. lia. }
  rewrite Hp, Hs, length_take, length_drop, Hlen.
  destruct (Nat.leb_spec 32 (length k)); [|lia].
  cbn [Nat.min Nat.sub Nat.leb Nat.eqb andb].
  destruct (HMACSigner.bytes_eqb _ _); reflexivity.
Qed.

(** The verifier's normalizer on a text whose trimmed, uppercased form is
    29 characters of the alphabet: [decode] returns, [DECODE_ERROR] is not
    the answer. *)
Lemma normalize_string (U : jsstring -> jsstring) (s : jsstring) :
  length (toUpperCase U (trim s)) = 29%nat ->
  forallb isBase32Char (toUpperCase U (trim s)) = true ->
  exists b,
    VIDVerifier.normalizeToBinary U (VString s) = inl b /\ length b = 18%nat
    /\ Base32Encoder.decode U (toUpperCase U (trim s)) = Returned b.
Proof.
  intros Hlen Hall. set (n := toUpperCase U (trim s)) in *.
  assert (Hn : toUpperCase U (trim n) = n)
    by (rewrite trim_base32 by exact Hall; apply toUpperCase_base32, Hall).
  destruct (decode_spec U n) as (b & pad & Hd & Hb & _).
  { rewrite Hn. exact Hlen. }
  { rewrite Hn. exact Hall. }
  exists b. split; [|split; [exact Hb|exact Hd]].
  unfold VIDVerifier.normalizeToBinary, VIDVerifier.VID_STRING_LENGTH,
    VIDVerifier.BASE32_REGEX, testBase32.
  fold n. rewrite Hlen, Hall, Hd. reflexivity.
Qed.

Lemma normalize_reasons (U : jsstring -> jsstring) (input : jsval) :
  match VIDVerifier.normalizeToBinary U input with
  | inl _ => True
  | inr VIDVerifier.NULL_INPUT => input = VNull \/ input = VUndefined
  | inr VIDVerifier.UNSUPPORTED_TYPE => asUint8Array input = None
  | inr VIDVerifier.INVALID_STRING_LENGTH =>
      exists s, input = VString s /\ length (toUpperCase U (trim s)) <> 29%nat
  | inr VIDVerifier.INVALID_STRING_CHARS =>
      exists s, input = VString s /\ length (toUpperCase U (trim s)) = 29%nat
                /\ forallb isBase32Char (toUpperCase U (trim s)) = false
  | inr _ => False
  end.
Proof.
  destruct input as [| |s|n|b|b|b|v|]; cbn [VIDVerifier.normalizeToBinary]; auto.
  unfold VIDVerifier.VID_STRING_LENGTH.
  destruct (Nat.eqb_spec (length (toUpperCase U (trim s))) 29%nat) as [Hlen|Hlen];
    cbn [negb]; [|eauto].
  unfold VIDVerifier.BASE32_REGEX, testBase32. rewrite Hlen. cbn [Nat.eqb andb].
  destruct (forallb isBase32Char (toUpperCase U (trim s))) eqn:Hall; cbn [negb]; [|eauto].
  destruct (normalize_string U s Hlen Hall) as (b & _ & _ & ->). exact I.
Qed.

Lemma verifyDetailed_returns (U : jsstring -> jsstring) (input : jsval)
    (keys : VIDVerifier.KeyMap) :
  VIDVerifier.validateKeys keys = Returned tt ->
  exists r,
    VIDVerifier.verifyDetailed U input keys = Returned r
    /\ match r with
       | VIDVerifier.Invalid VIDVerifier.DECODE_ERROR => False
       | _ => True
       end.
Proof.
  intros Hk.
  destruct (VIDVerifier.normalizeToBinary U input) as [b|reason] eqn:Hn.
  - destruct (Nat.eq_dec (length b) 18%nat) as [Hlen|Hlen].
    + rewrite (verifyDetailed_binary U input keys b Hk Hn Hlen).
      eexists. split; [reflexivity|].
      destruct (VIDVerifier.get keys _) as [secret|]; [|exact I].
      destruct (asUint8Array secret) as [k|]; [|exact I].
      destruct (HMACSigner.bytes_eqb _ _); exact I.
    + unfold VIDVerifier.verifyDetailed. rewrite Hk, Hn. cbn [bind].
      unfold VIDVerifier.VID_BYTE_LENGTH.
      destruct (Nat.eqb_spec (length b) 18%nat) as [E|_]; [contradiction|].
      cbn [negb]. eexists. split; [reflexivity|exact I].
  - unfold VIDVerifier.verifyDetailed. rewrite Hk, Hn. cbn [bind].
    eexists. split; [reflexivity|].
    pose proof (normalize_reasons U input) as Hr. rewrite Hn in Hr.
    destruct reason; auto.
Qed.

(** X9. With a key map that [validateKeys] accepts, [verifyDetailed] and
    [verify] never throw, whatever the input is; [verify] returns the
    [valid] flag of [verifyDetailed], and the reason is never
    [DECODE_ERROR]. With a key map that [validateKeys] rejects, both throw
    what [validateKeys] throws. *)
Theorem verifier_outcome (U : jsstring -> jsstring) (input : jsval)
    (keys : VIDVerifier.KeyMap) :
  match VIDVerifier.validateKeys keys with
  | Returned _ =>
      exists r,
        VIDVerifier.verifyDetailed U input keys = Returned r
        /\ VIDVerifier.verify U input keys = Returned (VIDVerifier.valid r)
        /\ match r with
           | VIDVerifier.Invalid VIDVerifier.DECODE_ERROR => False
           | _ => True
           end
  | Threw e =>
      VIDVerifier.verifyDetailed U input keys = Threw e
      /\ VIDVerifier.verify U input keys = Threw e
  end.
Proof.
  destruct (VIDVerifier.validateKeys keys) as [[]|e] eqn:Hk.
  - destruct (verifyDetailed_returns U input keys Hk) as (r & Hr & Hd).
    exists r. split; [exact Hr|]. split; [|exact Hd].
    unfold VIDVerifier.verify. rewrite Hk, Hr. reflexivity.
  - unfold VIDVerifier.verify, VIDVerifier.verifyDetailed. rewrite Hk. split; reflexivity.
Qed.

(** X10. The reasons of the verifier's normalizer: [NULL_INPUT] only on
    [null] and [undefined], [UNSUPPORTED_TYPE] only on what is neither a
    string, a byte array, an [ArrayBuffer] nor a [VIDValue],
    [INVALID_STRING_LENGTH] only on a string whose trimmed, uppercased form
    is not 29 characters, [INVALID_STRING_CHARS] only on one of 29
    characters with a character outside the alphabet; a string of 29
    alphabet characters always normalizes to 18 bytes. *)
Theorem normalizeToBinary_outcome (U : jsstring -> jsstring) (input : jsval) :
  match VIDVerifier.normalizeToBinary U input with
  | inl b =>
      match input with
      | VString s =>
          length (toUpperCase U (trim s)) = 29%nat
          /\ forallb isBase32Char (toUpperCase U (trim s)) = true
          /\ length b = 18%nat
          /\ Base32Encoder.decode U (toUpperCase U (trim s)) = Returned b
      | VVIDValue v => b = VIDValue.toBinary v
      | VUint8Array a | VBuffer a | VArrayBuffer a => b = a
      | _ => False
      end
  | inr VIDVerifier.NULL_INPUT => input = VNull \/ input = VUndefined
  | inr VIDVerifier.UNSUPPORTED_TYPE =>
      match input with VNumber _ | VObject => True | _ => False end
  | inr VIDVerifier.INVALID_STRING_LENGTH =>
      exists s, input = VString s /\ length (toUpperCase U (trim s)) <> 29%nat
  | inr VIDVerifier.INVALID_STRING_CHARS =>
      exists s, input = VString s /\ length (toUpperCase U (trim s)) = 29%nat
                /\ forallb isBase32Char (toUpperCase U (trim s)) = false
  | inr _ => False
  end.
Proof.
  destruct input as [| |s|n|b|b|b|v|]; cbn [VIDVerifier.normalizeToBinary]; auto.
  unfold VIDVerifier.VID_STRING_LENGTH.
  destruct (Nat.eqb_spec (length (toUpperCase U (trim s))) 29%nat) as [Hlen|Hlen];
    cbn [negb]; [|eauto].
  unfold VIDVerifier.BASE32_REGEX, testBase32. rewrite Hlen. cbn [Nat.eqb andb].
  destruct (forallb isBase32Char (toUpperCase U (trim s))) eqn:Hall; cbn [negb]; [|eauto].
  destruct (normalize_string U s Hlen Hall) as (b & _ & Hb & Hd). rewrite Hd. auto.
Qed.

(** X11. [verifyDetailed] answers valid exactly when the key map is
    accepted, the input normalizes to 18 bytes, the map has a secret for
    byte 0 and bytes 11-17 are the first 7 bytes of HMAC-SHA256 of bytes
    0-10 under that secret. *)
Theorem verifyDetailed_valid_iff (U : jsstring -> jsstring) (input : jsval)
    (keys : VIDVerifier.KeyMap) :
  VIDVerifier.verifyDetailed U input keys = Returned VIDVerifier.Valid
  <-> VIDVerifier.validateKeys keys = Returned tt
      /\ exists b secret k,
           VIDVerifier.normalizeToBinary U input = inl b /\ length b = 18%nat
           /\ VIDVerifier.get keys (byteZ (nth 0 b x00)) = Some secret
           /\ asUint8Array secret = Some k /\ (32 <= length k)%nat
           /\ drop 11 b = take 7 (Sha256.hmacSha256 k (take 11 b)).
Proof.
  split.
  - intros H.
    destruct (VIDVerifier.validateKeys keys) as [[]|e] eqn:Hk;
      [|unfold VIDVerifier.verifyDetailed in H; rewrite Hk in H; discriminate H].
    split; [reflexivity|].
    destruct (VIDVerifier.normalizeToBinary U input) as [b|reason] eqn:Hn;
      [|unfold VIDVerifier.verifyDetailed in H; rewrite Hk, Hn in H; discriminate H].
    destruct (Nat.eq_dec (length b) 18%nat) as [Hlen|Hlen].
    + rewrite (verifyDetailed_binary U input keys b Hk Hn Hlen) in H.
      destruct (VIDVerifier.get keys (byteZ (nth 0 b x00))) as [secret|] eqn:Hg;
        [|discriminate H].
      destruct (validateEntries_get keys _ secret (validateKeys_entries keys Hk) Hg)
        as (k & Ek & Hlk).
      rewrite Ek in H.
      destruct (HMACSigner.bytes_eqb _ _) eqn:E; [|discriminate H].
      apply bytes_eqb_eq in E. exists b, secret, k. auto 10.
    + unfold VIDVerifier.verifyDetailed, VIDVerifier.VID_BYTE_LENGTH in H.
      rewrite Hk, Hn in H. cbn [bind] in H.
      destruct (Nat.eqb_spec (length b) 18%nat) as [E|_]; [contradiction|].
      discriminate H.
  - intros (Hk & b & secret & k & Hn & Hlen & Hg & Ek & _ & Hsig).
    rewrite (verifyDetailed_binary U input keys b Hk Hn Hlen), Hg, Ek, <- Hsig.
    rewrite bytes_eqb_refl. reflexivity.
Qed.

(** X12. An identifier that verifies stops verifying when any of its 7
    signature bytes is changed: 18 other bytes with the same first 11 get
    the reason [SIGNATURE_MISMATCH]. *)
Theorem tampered_signature (U : jsstring -> jsstring) (keys : VIDVerifier.KeyMap)
    (b b' : bytes) :
  VIDVerifier.verifyDetailed U (VUint8Array b) keys = Returned VIDVerifier.Valid ->
  length b' = 18%nat -> take 11 b' = take 11 b -> b' <> b ->
  VIDVerifier.verifyDetailed U (VUint8Array b') keys
  = Returned (VIDVerifier.Invalid VIDVerifier.SIGNATURE_MISMATCH).
Proof.
  intros Hv Hlen' Hp Hne.
  assert (Hk : VIDVerifier.validateKeys keys = Returned tt).
  { destruct (VIDVerifier.validateKeys keys) as [[]|e] eqn:Hk; [reflexivity|].
    unfold VIDVerifier.verifyDetailed in Hv. rewrite Hk in Hv. discriminate Hv. }
  assert (Hlen : length b = 18%nat).
  { unfold VIDVerifier.verifyDetailed, VIDVerifier.VID_BYTE_LENGTH in Hv.
    rewrite Hk in Hv. cbn [bind VIDVerifier.normalizeToBinary] in Hv.
    destruct (Nat.eqb_spec (length b) 18%nat); [assumption|discriminate Hv]. }
  rewrite (verifyDetailed_binary U (VUint8Array b) keys b Hk eq_refl Hlen) in Hv.
  rewrite (verifyDetailed_binary U (VUint8Array b') keys b' Hk eq_refl Hlen').
  assert (H0 : nth 0 b' x00 = nth 0 b x00).
  { rewrite <- (take_drop 11 b'), <- (take_drop 11 b), Hp.
    rewrite !app_nth1 by (rewrite length_take; lia). reflexivity. }
  rewrite H0, Hp.
  destruct (VIDVerifier.get keys (byteZ (nth 0 b x00))) as [secret|]; [|discriminate Hv].
  destruct (asUint8Array secret) as [k|]; [|reflexivity].
  destruct (HMACSigner.bytes_eqb _ (drop 11 b)) eqn:E; [|discriminate Hv].
  apply bytes_eqb_eq in E.
  destruct (HMACSigner.bytes_eqb _ (drop 11 b')) eqn:E'; [|reflexivity].
  apply bytes_eqb_eq in E'. exfalso. apply Hne.
  rewrite <- (take_drop 11 b'), <- (take_drop 11 b), Hp. congruence.
Qed.

Lemma tampered_signature_witness :
  VIDVerifier.verifyDetailed keepCase
    (VUint8Array (hex "01018bcfe56800665700008245393cf97f54")) exampleKeys
  = Returned (VIDVerifier.Invalid VIDVerifier.SIGNATURE_MISMATCH).
Proof.
  apply (tampered_signature keepCase exampleKeys (binary exampleId)).
  - vm_compute. reflexivity.
  - reflexivity.
  - reflexivity.
  - vm_compute. discriminate.
Defined.

(** ** VIDParser.parse *)

Example toISOString_scenario :
  JSDate.toISOString (JSDate.ofNumber 1700000000000) = Returned (js "2023-11-14T22:13:20.000Z")
  /\ JSDate.toISOString (JSDate.ofNumber Parse.MIN_TIMESTAMP)
     = Returned (js "2020-01-01T00:00:00.000Z")
  /\ JSDate.toISOString (JSDate.ofNumber Parse.MAX_TIMESTAMP)
     = Returned (js "+010889-08-02T05:31:50.655Z")
  /\ JSDate.toISOString (JSDate.ofNumber 951782400000) = Returned (js "2000-02-29T00:00:00.000Z")
  /\ JSDate.toISOString (JSDate.ofNumber (-1)) = Returned (js "1969-12-31T23:59:59.999Z").
Proof. vm_compute. auto 6. Qed.

Lemma getUint_range (w : nat) (b : bytes) (off : nat) :
  0 <= getUint w b off < 256 ^ Z.of_nat w.
Proof.
  unfold getUint. pose proof (fromBigEndian_range (take w (drop off b))) as H.
  assert (Hl : (length (take w (drop off b)) <= w)%nat) by (rewrite length_take; lia).
  assert (256 ^ Z.of_nat (length (take w (drop off b))) <= 256 ^ Z.of_nat w)
    by (apply Z.pow_le_mono_r; lia).
  lia.
Qed.

Lemma timestamp_range (b : bytes) : 0 <= VIDParser.timestamp b <= Parse.MAX_TIMESTAMP.
Proof.
  unfold VIDParser.timestamp, VIDParser.TIMESTAMP_HIGH_MULTIPLIER, Parse.MAX_TIMESTAMP.
  pose proof (getUint_range 4 b VIDParser.OFFSET_TIMESTAMP_HIGH) as H4.
  pose proof (getUint_range 2 b VIDParser.OFFSET_TIMESTAMP_LOW) as H2.
  change (256 ^ Z.of_nat 4) with 4294967296 in H4.
  change (256 ^ Z.of_nat 2) with 65536 in H2. lia.
Qed.

Lemma toISOString_returns (t : Z) :
  Z.abs t <= JSDate.MAX_TIME ->
  JSDate.toISOString (JSDate.ofNumber t) = Returned (isoText t).
Proof.
  intros H. unfold isoText, JSDate.ofNumber.
  destruct (Z.leb_spec (Z.abs t) JSDate.MAX_TIME); [|lia].
  unfold JSDate.toISOString. destruct (JSDate.civil _) as [[y m] d]. reflexivity.
Qed.

(** What [parse] does once the input is normalized to 18 bytes: the only
    guard left that can fire is the minimum timestamp. *)
Lemma parse_binary (U : jsstring -> jsstring) (input : jsval) (b : bytes) :
  Parse.normalizeToBinary U input = Returned b -> length b = 18%nat ->
  Parse.parse U input
  = if VIDParser.timestamp b <? Parse.MIN_TIMESTAMP then Threw RangeError
    else Returned (metadataOf b).
Proof.
  intros Hn Hlen. unfold Parse.parse. rewrite Hn. cbn [bind].
  unfold Parse.VID_BYTE_LENGTH. rewrite Hlen. cbn [Nat.eqb negb].
  fold (VIDParser.timestamp b).
  pose proof (timestamp_range b) as Hr. unfold Parse.MAX_TIMESTAMP in Hr.
  destruct (Z.leb_spec (Z.abs (VIDParser.timestamp b)) Parse.MAX_SAFE_INTEGER) as [_|Hbad];
    [|unfold Parse.MAX_SAFE_INTEGER in Hbad; lia].
  cbn [negb].
  destruct (Z.ltb_spec (VIDParser.timestamp b) Parse.MIN_TIMESTAMP) as [Hlo|Hlo];
    [reflexivity|].
  destruct (Z.ltb_spec Parse.MAX_TIMESTAMP (VIDParser.timestamp b)) as [Hhi|_];
    [unfold Parse.MAX_TIMESTAMP in Hhi; lia|].
  cbn [orb].
  rewrite toISOString_returns by (unfold JSDate.MAX_TIME; lia).
  reflexivity.
Qed.

(** X13. On a byte array [parse] returns exactly when the array has 18
    bytes and the timestamp in bytes 1-6 is at least 1577836800000
    (2020-01-01); it then returns the four fields as big-endian reads, all
    within their ranges, with the date and the ISO text of the timestamp.
    Otherwise it throws [RangeError]; the guards on safe integers, on the
    48-bit maximum and on the ISO text never fire. *)
Theorem parse_binary_outcome (U : jsstring -> jsstring) (b : bytes) :
  match Parse.parse U (VUint8Array b) with
  | Returned m =>
      length b = 18%nat /\ m = metadataOf b
      /\ Parse.MIN_TIMESTAMP <= Parse.timestamp m <= Parse.MAX_TIMESTAMP
      /\ 0 <= Parse.keyVersion m <= 255 /\ 0 <= Parse.nodeId m <= 65535
      /\ 0 <= Parse.sequence m <= 65535
      /\ Parse.date m = Some (Parse.timestamp m)
      /\ JSDate.toISOString (Parse.date m) = Returned (Parse.iso m)
  | Threw RangeError => length b <> 18%nat \/ VIDParser.timestamp b < Parse.MIN_TIMESTAMP
  | Threw _ => False
  end.
Proof.
  destruct (Nat.eq_dec (length b) 18%nat) as [Hlen|Hlen].
  - rewrite (parse_binary U (VUint8Array b) b eq_refl Hlen).
    destruct (Z.ltb_spec (VIDParser.timestamp b) Parse.MIN_TIMESTAMP) as [Hlo|Hlo];
      [right; exact Hlo|].
    pose proof (timestamp_range b) as Hr.
    pose proof (getUint_range 1 b VIDParser.OFFSET_KEY_VERSION) as Hk.
    pose proof (getUint_range 2 b VIDParser.OFFSET_NODE_ID) as Hn.
    pose proof (getUint_range 2 b VIDParser.OFFSET_SEQUENCE) as Hs.
    change (256 ^ Z.of_nat 1) with 256 in Hk. change (256 ^ Z.of_nat 2) with 65536 in Hn, Hs.
    unfold metadataOf. cbn [Parse.timestamp Parse.keyVersion Parse.nodeId Parse.sequence
                            Parse.date Parse.iso].
    unfold VIDParser.keyVersion, VIDParser.nodeId, VIDParser.sequence.
    assert (Hd : JSDate.ofNumber (VIDParser.timestamp b) = Some (VIDParser.timestamp b)).
    { unfold JSDate.ofNumber, JSDate.MAX_TIME. unfold Parse.MAX_TIMESTAMP in Hr.
      destruct (Z.leb_spec (Z.abs (VIDParser.timestamp b)) 8640000000000000); [reflexivity|lia]. }
    split; [exact Hlen|]. split; [reflexivity|]. split; [lia|]. split; [lia|].
    split; [lia|]. split; [lia|]. split; [exact Hd|].
    apply toISOString_returns. unfold JSDate.MAX_TIME, Parse.MAX_TIMESTAMP in *. lia.
  - unfold Parse.parse. cbn [Parse.normalizeToBinary bind]. unfold Parse.VID_BYTE_LENGTH.
    destruct (Nat.eqb_spec (length b) 18%nat) as [E|_]; [contradiction|].
    cbn [negb]. left. exact Hlen.
Qed.

Lemma parser_normalize_eq (U : jsstring -> jsstring) (input : jsval) :
  Parse.normalizeToBinary U input
  = match VIDVerifier.normalizeToBinary U input with
    | inl b => Returned b
    | inr VIDVerifier.NULL_INPUT | inr VIDVerifier.UNSUPPORTED_TYPE => Threw TypeError
    | inr VIDVerifier.INVALID_STRING_LENGTH => Threw RangeError
    | inr _ => Threw Error
    end.
Proof.
  destruct input as [| |s|n|b|b|b|v|]; try reflexivity.
  cbn [Parse.normalizeToBinary VIDVerifier.normalizeToBinary].
  unfold Parse.decodeString, Parse.VID_STRING_LENGTH, VIDVerifier.VID_STRING_LENGTH,
    Parse.BASE32_REGEX, VIDVerifier.BASE32_REGEX.
  destruct (negb (length (toUpperCase U (trim s)) =? 29)%nat); [reflexivity|].
  destruct (negb (testBase32 29 (toUpperCase U (trim s)))); [reflexivity|].
  destruct (Base32Encoder.decode U (toUpperCase U (trim s))); reflexivity.
Qed.

(** X14. The parser's normalizer and the verifier's agree on every input:
    where the verifier gets bytes the parser returns the same bytes, and
    where the verifier gives a reason the parser throws: [TypeError] for
    [NULL_INPUT] and [UNSUPPORTED_TYPE], [RangeError] for
    [INVALID_STRING_LENGTH], [Error] for [INVALID_STRING_CHARS]. *)
Theorem normalizers_agree (U : jsstring -> jsstring) (input : jsval) :
  match VIDVerifier.normalizeToBinary U input with
  | inl b => Parse.normalizeToBinary U input = Returned b
  | inr VIDVerifier.NULL_INPUT | inr VIDVerifier.UNSUPPORTED_TYPE =>
      Parse.normalizeToBinary U input = Threw TypeError
  | inr VIDVerifier.INVALID_STRING_LENGTH =>
      Parse.normalizeToBinary U input = Threw RangeError
  | inr VIDVerifier.INVALID_STRING_CHARS =>
      Parse.normalizeToBinary U input = Threw Error
  | inr _ => False
  end.
Proof.
  rewrite parser_normalize_eq.
  pose proof (normalize_reasons U input) as H.
  destruct (VIDVerifier.normalizeToBinary U input) as [b|[]]; auto.
Qed.

Lemma field_of_payload (w off n : nat) (b : bytes) :
  (off + w <= n)%nat -> getUint w (take n b) off = getUint w b off.
Proof.
  intros H. unfold getUint. f_equal.
  rewrite !take_drop_commute, take_take. f_equal. f_equal. lia.
Qed.

Lemma metadataOf_payload (b : bytes) : metadataOf (take 11 b) = metadataOf b.
Proof.
  assert (Ht : VIDParser.timestamp (take 11 b) = VIDParser.timestamp b).
  { unfold VIDParser.timestamp, VIDParser.OFFSET_TIMESTAMP_HIGH,
      VIDParser.OFFSET_TIMESTAMP_LOW.
    rewrite !field_of_payload by lia. reflexivity. }
  unfold metadataOf. rewrite Ht.
  unfold VIDParser.keyVersion, VIDParser.nodeId, VIDParser.sequence,
    VIDParser.OFFSET_KEY_VERSION, VIDParser.OFFSET_NODE_ID, VIDParser.OFFSET_SEQUENCE.
  rewrite !field_of_payload by lia. reflexivity.
Qed.

(** X15. [parse] does not look at the signature: two arrays of 18 bytes with
    the same first 11 bytes parse to the same result, whether or not
    either of them verifies. *)
Theorem parse_ignores_signature (U : jsstring -> jsstring) (b b' : bytes) :
  length b = 18%nat -> length b' = 18%nat -> take 11 b = take 11 b' ->
  Parse.parse U (VUint8Array b) = Parse.parse U (VUint8Array b').
Proof.
  intros Hlen Hlen' Hp.
  rewrite (parse_binary U (VUint8Array b) b eq_refl Hlen).
  rewrite (parse_binary U (VUint8Array b') b' eq_refl Hlen').
  rewrite <- (metadataOf_payload b), <- (metadataOf_payload b'), Hp.
  assert (Ht : VIDParser.timestamp b = VIDParser.timestamp b').
  { pose proof (f_equal Parse.timestamp (metadataOf_payload b)) as H1.
    pose proof (f_equal Parse.timestamp (metadataOf_payload b')) as H2.
    cbn [metadataOf Parse.timestamp] in H1, H2. rewrite <- H1, <- H2, Hp. reflexivity. }
  rewrite Ht. reflexivity.
Qed.

Lemma parse_ignores_signature_witness :
  Parse.parse keepCase (VUint8Array (binary exampleId))
  = Parse.parse keepCase (VUint8Array (hex "01018bcfe56800665700000000000000" ++ hex "0000")).
Proof.
  apply parse_ignores_signature; reflexivity.
Defined.

(** ** The parser on what the generator encodes *)

Lemma Zbyte_add_high (a q : Z) : Zbyte (a * 256 + q) = Zbyte q.
Proof. unfold Zbyte. rewrite Z.add_comm, Z.mod_add by lia. reflexivity. Qed.

Lemma bigEndian_add_high (n : nat) :
  forall a z, bigEndian n (a * 256 ^ Z.of_nat n + z) = bigEndian n z.
Proof.
  induction n as [|n IH]; intros a z; [reflexivity|].
  cbn [bigEndian].
  assert (Hp : 0 < 256 ^ Z.of_nat n) by (apply Z.pow_pos_nonneg; lia).
  rewrite Nat2Z.inj_succ, Z.pow_succ_r by lia.
  replace (a * (256 * 256 ^ Z.of_nat n) + z) with (a * 256 * 256 ^ Z.of_nat n + z) by lia.
  rewrite IH. f_equal.
  rewrite Z.div_add_l by lia. apply Zbyte_add_high.
Qed.

Lemma bigEndian_fromBigEndian (l : bytes) : bigEndian (length l) (fromBigEndian l) = l.
Proof.
  induction l as [|x l IH]; [reflexivity|].
  rewrite fromBigEndian_cons. cbn [length bigEndian].
  pose proof (fromBigEndian_range l) as Hr.
  rewrite bigEndian_add_high, IH. f_equal.
  rewrite Z.div_add_l by lia. rewrite Z.div_small by lia.
  rewrite Z.add_0_r. apply Zbyte_byteZ.
Qed.

Lemma list_of_length_18 (b : bytes) :
  length b = 18%nat ->
  exists b0 b1 b2 b3 b4 b5 b6 b7 b8 b9 b10 b11 b12 b13 b14 b15 b16 b17,
    b = [b0; b1; b2; b3; b4; b5; b6; b7; b8; b9; b10; b11; b12; b13; b14; b15; b16; b17].
Proof.
  intros H.
  do 18 (destruct b as [|? b]; [discriminate H|]).
  destruct b; [|discriminate H]. repeat eexists.
Qed.

(** [encodePayload] of the fields read from 18 bytes gives bytes 0-10 back. *)
Lemma encodePayload_of_fields (b : bytes) :
  length b = 18%nat ->
  VIDGenerator.encodePayload (VIDParser.keyVersion b) (VIDParser.timestamp b)
                             (VIDParser.nodeId b) (VIDParser.sequence b)
  = take 11 b.
Proof.
  intros Hlen.
  destruct (list_of_length_18 b Hlen)
    as (b0 & b1 & b2 & b3 & b4 & b5 & b6 & b7 & b8 & b9 & b10 & b11 & b12 & b13 & b14
        & b15 & b16 & b17 & ->).
  rewrite encodePayload_fields.
  unfold VIDParser.keyVersion, VIDParser.timestamp, VIDParser.nodeId, VIDParser.sequence,
    getUint, VIDParser.TIMESTAMP_HIGH_MULTIPLIER.
  cbn [take drop firstn skipn VIDParser.OFFSET_KEY_VERSION VIDParser.OFFSET_TIMESTAMP_HIGH
       VIDParser.OFFSET_TIMESTAMP_LOW VIDParser.OFFSET_NODE_ID VIDParser.OFFSET_SEQUENCE].
  pose proof (fromBigEndian_range [b1; b2; b3; b4]) as Hh.
  pose proof (fromBigEndian_range [b5; b6]) as Hl.
  change (256 ^ Z.of_nat (length [b5; b6])) with 65536 in Hl.
  set (high := fromBigEndian [b1; b2; b3; b4]) in *.
  set (low := fromBigEndian [b5; b6]) in *.
  assert (Hq : (high * 65536 + low) / 65536 = high)
    by (rewrite Z.div_add_l by lia; rewrite Z.div_small by lia; lia).
  assert (Hr : Z.rem (high * 65536 + low) 65536 = low).
  { rewrite Z.rem_mod_nonneg by lia.
    rewrite Z.add_comm, Z.mod_add by lia. apply Z.mod_small. lia. }
  rewrite Hq, Hr. unfold high, low.
  change (bigEndian 1 (fromBigEndian [b0]))
    with (bigEndian (length [b0]) (fromBigEndian [b0])).
  change (bigEndian 4 (fromBigEndian [b1; b2; b3; b4]))
    with (bigEndian (length [b1; b2; b3; b4]) (fromBigEndian [b1; b2; b3; b4])).
  change (bigEndian 2 (fromBigEndian [b5; b6]))
    with (bigEndian (length [b5; b6]) (fromBigEndian [b5; b6])).
  change (bigEndian 2 (fromBigEndian [b7; b8]))
    with (bigEndian (length [b7; b8]) (fromBigEndian [b7; b8])).
  change (bigEndian 2 (fromBigEndian [b9; b10]))
    with (bigEndian (length [b9; b10]) (fromBigEndian [b9; b10])).
  rewrite !bigEndian_fromBigEndian. reflexivity.
Qed.

(** X16. What [parse] reads, the generator's [encodePayload] writes back:
    when [parse] returns on an array, encoding its four fields gives bytes
    0-10 of the array. *)
Theorem parse_then_encodePayload (U : jsstring -> jsstring) (b : bytes) :
  match Parse.parse U (VUint8Array b) with
  | Returned m =>
      VIDGenerator.encodePayload (Parse.keyVersion m) (Parse.timestamp m)
                                 (Parse.nodeId m) (Parse.sequence m)
      = take 11 b
  | Threw _ => True
  end.
Proof.
  destruct (Nat.eq_dec (length b) 18%nat) as [Hlen|Hlen].
  - rewrite (parse_binary U (VUint8Array b) b eq_refl Hlen).
    destruct (VIDParser.timestamp b <? Parse.MIN_TIMESTAMP); [exact I|].
    apply encodePayload_of_fields, Hlen.
  - unfold Parse.parse. cbn [Parse.normalizeToBinary bind]. unfold Parse.VID_BYTE_LENGTH.
    destruct (Nat.eqb_spec (length b) 18%nat) as [E|_]; [contradiction|exact I].
Qed.

Lemma parser_reads_ids (keyVersion timestamp nodeId sequence : Z) (signature : bytes) :
  0 <= keyVersion <= 255 -> 0 <= nodeId <= 65535 ->
  let b := VIDGenerator.encodePayload keyVersion timestamp nodeId sequence ++ signature in
  VIDParser.keyVersion b = keyVersion /\ VIDParser.nodeId b = nodeId.
Proof.
  intros Hk Hn b.
  unfold VIDParser.keyVersion, VIDParser.nodeId, getUint,
    VIDParser.OFFSET_KEY_VERSION, VIDParser.OFFSET_NODE_ID.
  change (take 1 (drop 0 b)) with (bigEndian 1 keyVersion).
  change (take 2 (drop 7 b)) with (bigEndian 2 nodeId).
  rewrite !fromBigEndian_bigEndian.
  change (256 ^ Z.of_nat 1) with 256. change (256 ^ Z.of_nat 2) with 65536.
  split; apply Z.mod_small; lia.
Qed.

Lemma resolveNodeId_range (n : NodeId) (nid : Z) :
  VIDGenerator.resolveNodeId n = Returned nid -> 0 <= nid <= 65535.
Proof.
  destruct n as [[z|]|s]; cbn [VIDGenerator.resolveNodeId]; [| discriminate |].
  - unfold VIDGenerator.MAX_UINT16.
    destruct (Z.ltb_spec z 0); [discriminate|].
    destruct (Z.ltb_spec 65535 z); [discriminate|]. intros [= <-]. lia.
  - destruct (length (trim s) =? 0)%nat; [discriminate|].
    intros [= <-]. apply hashToUint16_range.
Qed.

(** The parser's normalizer on every form of an identifier. *)
Lemma parser_normalize_representation (U : jsstring -> jsstring) (id : VIDValue)
    (str : jsstring) (input : jsval) :
  length (binary id) = 18%nat ->
  Base32Encoder.encode (binary id) = Returned str ->
  _cachedString id = Some str ->
  In input (representations id) ->
  Parse.normalizeToBinary U input = Returned (binary id).
Proof.
  intros Hlen He Hc Hin. rewrite parser_normalize_eq.
  rewrite (normalize_representation U id str input Hlen He Hc Hin). reflexivity.
Qed.

(** X17. [parse] gives back what [generate] put in. An identifier that
    [generate] returned, in any of its forms, parses to the key version of
    the configuration, the resolved node identifier and the timestamp and
    sequence the instance holds after the call, provided the timestamp is
    at least 1577836800000; below that, [parse] throws [RangeError] on an
    identifier that the generator did mint. *)
Theorem generate_then_parse (U : jsstring -> jsstring)
    (config : VIDGenerator.VIDGeneratorConfig) (s s' : Generator * World) (id : VIDValue)
    (input : jsval) :
  VIDGenerator.generate config s = Some (Returned id, s') ->
  0 <= lastTimestamp (fst s) -> 0 <= sequence (fst s) ->
  In input (representations id) ->
  exists kv nid,
    VIDGenerator.validateConfig config = Returned kv
    /\ VIDGenerator.resolveNodeId (VIDGenerator.nodeId config) = Returned nid
    /\ Parse.parse U input
       = if lastTimestamp (fst s') <? Parse.MIN_TIMESTAMP then Threw RangeError
         else Returned {| Parse.keyVersion := kv;
                          Parse.timestamp := lastTimestamp (fst s');
                          Parse.date := Some (lastTimestamp (fst s'));
                          Parse.iso := isoText (lastTimestamp (fst s'));
                          Parse.nodeId := nid;
                          Parse.sequence := sequence (fst s') |}.
Proof.
  intros Hg Hl Hs Hin.
  destruct (generate_spec config s s' (Returned id) Hg Hl Hs) as (_ & _ & _ & Hid).
  destruct (Hid id eq_refl) as (kv & nid & k & Ev & Er & Ek & Hk & Hb & Hts & Hsq & _).
  destruct (generate_returned _ _ _ _ Hg)
    as (kv' & nid' & k' & ts' & sq' & str & _ & _ & _ & _ & _ & He & Hc).
  destruct (validateConfig_inv _ _ Ev) as (_ & Hkv & _).
  pose proof (resolveNodeId_range _ _ Er) as Hnid.
  exists kv, nid. split; [exact Ev|]. split; [exact Er|].
  set (ts := lastTimestamp (fst s')) in *. set (sq := sequence (fst s')) in *.
  assert (Hlen : length (binary id) = 18%nat)
    by (rewrite Hb, length_app, length_encodePayload, signature_length; reflexivity).
  rewrite (parse_binary U input (binary id)
             (parser_normalize_representation U id str input Hlen He Hc Hin) Hlen).
  destruct (parser_reads_payload kv ts nid sq
              (take 7 (Sha256.hmacSha256 k (VIDGenerator.encodePayload kv ts nid sq)))
              Hts Hsq) as [Pt Ps].
  destruct (parser_reads_ids kv ts nid sq
              (take 7 (Sha256.hmacSha256 k (VIDGenerator.encodePayload kv ts nid sq)))
              Hkv Hnid) as [Pk Pn].
  rewrite <- Hb in Pt, Ps, Pk, Pn.
  unfold metadataOf. rewrite Pt, Ps, Pk, Pn.
  destruct (ts <? Parse.MIN_TIMESTAMP); [reflexivity|].
  f_equal. f_equal. unfold JSDate.ofNumber, JSDate.MAX_TIME.
  unfold VIDGenerator.MAX_TIMESTAMP in Hts.
  destruct (Z.leb_spec (Z.abs ts) 8640000000000000); [reflexivity|lia].
Qed.

Lemma generate_then_parse_witness :
  exists kv nid,
    VIDGenerator.validateConfig exampleConfig = Returned kv
    /\ VIDGenerator.resolveNodeId (VIDGenerator.nodeId exampleConfig) = Returned nid
    /\ Parse.parse keepCase (VString (js "AEAYXT7FNAAGMVYAACBEKOJ47F7VK"))
       = if 1700000000000 <? Parse.MIN_TIMESTAMP then Threw RangeError
         else Returned {| Parse.keyVersion := kv;
                          Parse.timestamp := 1700000000000;
                          Parse.date := Some 1700000000000;
                          Parse.iso := isoText 1700000000000;
                          Parse.nodeId := nid;
                          Parse.sequence := 0 |}.
Proof.
  apply (generate_then_parse keepCase exampleConfig (VIDGenerator.new, exampleWorld)
           ({| lastTimestamp := 1700000000000; sequence := 0 |},
            {| provider := Some [1700000000000; 1700000000001]; date := [] |})
           exampleId).
  - vm_compute. reflexivity.
  - vm_compute. discriminate.
  - vm_compute. discriminate.
  - vm_compute. auto 6.
Defined.

(** The scenario's first identifier, parsed. *)
Example parse_scenario :
  Parse.parse keepCase (VVIDValue exampleId)
  = Returned {| Parse.keyVersion := 1;
                Parse.timestamp := 1700000000000;
                Parse.date := Some 1700000000000;
                Parse.iso := js "2023-11-14T22:13:20.000Z";
                Parse.nodeId := 26199;
                Parse.sequence := 0 |}.
Proof. vm_compute. reflexivity. Qed.

(** ** NodeIdResolver: the fallbacks *)





(** X19. The generator resolves a node identifier of its configuration
    exactly as [NodeIdResolver.resolve] resolves an explicit one, in every
    environment: the same number, or the same kind of error. *)
Theorem resolveNodeId_agrees (env : NodeIdResolver.Env) (nodeId : NodeId) :
  VIDGenerator.resolveNodeId nodeId
  = let* r := NodeIdResolver.resolve env (Some nodeId) in
    Returned (NodeIdResolver.nodeId r).
Proof.
  destruct nodeId as [[z|]|s];
    cbn [VIDGenerator.resolveNodeId NodeIdResolver.resolve]; [|reflexivity|].
  - unfold VIDGenerator.MAX_UINT16, NodeIdResolver.MAX_UINT16.
    destruct ((z <? 0) || (65535 <? z)); reflexivity.
  - destruct (length (trim s) =? 0)%nat; cbn [bind NodeIdResolver.nodeId]; reflexivity.
Qed.

(** ** VIDGenerator: one step of the clock and the sequence *)

(** X20. A call of [nextTimestampAndSequence] that comes back either stays
    on the instance's millisecond with the next sequence number, at most
    65535, or moves to a later millisecond with sequence 0; the pair it
    returns is the one the instance then holds. When it throws, it throws
    the clock fault [Error] out of the overflow wait: the sequence was
    used up, the timestamp is left as it was and the sequence is not
    wrapped. *)
Theorem clock_step (s s' : Generator * World) (r : result (Z * Z)) :
  VIDGenerator.nextTimestampAndSequence s = Some (r, s') ->
  match r with
  | Returned p =>
      clockPair (fst s') = p
      /\ ((fst p = lastTimestamp (fst s) /\ snd p = sequence (fst s) + 1 /\ snd p <= 65535)
          \/ (lastTimestamp (fst s) < fst p /\ snd p = 0))
  | Threw e =>
      e = Error /\ 65535 <= sequence (fst s)
      /\ lastTimestamp (fst s') = lastTimestamp (fst s)
      /\ sequence (fst s') = sequence (fst s) + 1
  end.
Proof.
  unfold VIDGenerator.nextTimestampAndSequence, bindRun, clockPair.
  intros H.
  destruct (TimeUtils.now s) as [[rn s1]|] eqn:En; [|discriminate].
  destruct (TimeUtils_now_inv _ _ _ En) as [H1 [t ->]].
  destruct s as [g w], s1 as [g1 w1]. cbn [fst snd] in *. subst g1.
  cbn [getGenerator fst snd] in H.
  unfold VIDGenerator.MAX_SEQUENCE, VIDGenerator.MAX_UINT16 in H.
  set (ts := if t <? lastTimestamp g then lastTimestamp g else t) in *.
  assert (Hts : lastTimestamp g <= ts)
    by (unfold ts; destruct (Z.ltb_spec t (lastTimestamp g)); lia).
  destruct (Z.eqb_spec ts (lastTimestamp g)) as [Heq|Hne].
  - cbn [setSequence fst snd lastTimestamp sequence] in H.
    destruct (Z.ltb_spec 65535 (sequence g + 1)) as [Hov|Hok].
    + destruct (VIDGenerator.waitForNextMillisecond (lastTimestamp g) _)
        as [[rw s2]|] eqn:Ew; [|discriminate].
      destruct (waitForNextMillisecond_inv _ _ _ _ Ew) as [H2 H3].
      destruct s2 as [g2 w2]. cbn [fst snd] in H2. subst g2.
      destruct rw as [t'|e].
      * specialize (H3 t' eq_refl).
        cbn [setSequence setLastTimestamp ret fst snd lastTimestamp sequence] in H.
        injection H as <- <-. cbn [fst snd lastTimestamp sequence].
        split; [reflexivity|]. right. split; [exact H3|reflexivity].
      * injection H as <- <-. cbn [fst snd lastTimestamp sequence].
        assert (e = Error).
        { unfold VIDGenerator.waitForNextMillisecond, bindRun in Ew.
          destruct (Date_now _) as [[rd s3]|] eqn:Ed; [|discriminate].
          destruct (Date_now_inv _ _ _ Ed) as [_ [d ->]].
          clear - Ew. revert Ew. generalize (d + VIDGenerator.MAX_CLOCK_WAIT_MS).
          generalize (S (length (date (snd s3)))). intros fuel. revert s3.
          induction fuel as [|fuel IH]; intros s3 deadline Ew; [discriminate|].
          cbn [VIDGenerator.waitLoop] in Ew. unfold bindRun in Ew.
          destruct (TimeUtils.now s3) as [[rn s4]|] eqn:En; [|discriminate].
          destruct (TimeUtils_now_inv _ _ _ En) as [_ [now ->]].
          destruct (Date_now s4) as [[rd s5]|] eqn:Ed; [|discriminate].
          destruct (Date_now_inv _ _ _ Ed) as [_ [d' ->]].
          destruct (deadline <? d').
          - injection Ew as <- _. reflexivity.
          - destruct (now <=? lastTimestamp g); [eapply IH; exact Ew|discriminate]. }
        split; [assumption|]. split; [lia|]. split; reflexivity.
    + cbn [ret setLastTimestamp fst snd lastTimestamp sequence] in H.
      injection H as <- <-. cbn [fst snd lastTimestamp sequence].
      split; [reflexivity|]. left. split; [exact Heq|]. split; [reflexivity|lia].
  - cbn [setSequence ret setLastTimestamp fst snd lastTimestamp sequence] in H.
    injection H as <- <-. cbn [fst snd lastTimestamp sequence].
    split; [reflexivity|]. right. split; [lia|reflexivity].
Qed.

Lemma clock_step_witness :
  clockPair ({| lastTimestamp := 1700000000001; sequence := 0 |}) = (1700000000001, 0)
  /\ ((fst (1700000000001, 0) = lastTimestamp (fst fullSequence)
       /\ snd (1700000000001, 0) = sequence (fst fullSequence) + 1
       /\ snd (1700000000001, 0) <= 65535)
      \/ (lastTimestamp (fst fullSequence) < fst (1700000000001, 0)
          /\ snd (1700000000001, 0) = 0)).
Proof.
  apply (clock_step fullSequence
           ({| lastTimestamp := 1700000000001; sequence := 0 |},
            {| provider := Some []; date := [] |})
           (Returned (1700000000001, 0))).
  vm_compute. reflexivity.
Defined.

(** X21. An instance whose last timestamp is above the 48-bit maximum never
    returns an identifier again: [generate] commits the timestamp before
    it checks it, every later timestamp is at least the last one, and the
    check throws. One reading of the clock above 281474976710655 is
    enough to get there. *)
Theorem timestamp_overflow_is_final (config : VIDGenerator.VIDGeneratorConfig)
    (s s' : Generator * World) (r : result VIDValue) :
  VIDGenerator.MAX_TIMESTAMP < lastTimestamp (fst s) -> 0 <= sequence (fst s) ->
  VIDGenerator.generate config s = Some (r, s') ->
  (exists e, r = Threw e)
  /\ VIDGenerator.MAX_TIMESTAMP < lastTimestamp (fst s').
Proof.
  intros Hbig Hs Hg. unfold VIDGenerator.MAX_TIMESTAMP in Hbig.
  destruct (generate_spec config s s' r Hg ltac:(lia) Hs) as (Hmove & _ & _ & Hid).
  assert (Hlast : VIDGenerator.MAX_TIMESTAMP < lastTimestamp (fst s')).
  { unfold VIDGenerator.MAX_TIMESTAMP.
    destruct Hmove as [->|Hlt]; [exact Hbig|].
    unfold pairLt, clockPair in Hlt. cbn [fst snd] in Hlt. lia. }
  split; [|exact Hlast].
  destruct r as [id|e]; [|eauto].
  destruct (Hid id eq_refl) as (? & ? & ? & _ & _ & _ & _ & _ & Hts & _).
  lia.
Qed.

Lemma timestamp_overflow_is_final_witness :
  (exists e, @Threw VIDValue Error = Threw e)
  /\ VIDGenerator.MAX_TIMESTAMP < 281474976710656.
Proof.
  apply (timestamp_overflow_is_final exampleConfig
           ({| lastTimestamp := 281474976710656; sequence := 0 |}, exampleWorld)
           ({| lastTimestamp := 281474976710656; sequence := 1 |},
            {| provider := Some [1700000000000; 1700000000001]; date := [] |})
           (Threw Error)).
  - vm_compute. reflexivity.
  - vm_compute. discriminate.
  - vm_compute. reflexivity.
Defined.

(** ** The database adapters *)

Lemma fromString_threw (U : jsstring -> jsstring) (input : jsval) :
  VIDValue.fromString U input
  = Threw match input with
          | VString s =>
              if (length (toUpperCase U (trim s)) =? 29)%nat then Error else RangeError
          | _ => TypeError
          end.
Proof.
  destruct input as [| |s|n|b|b|b|v|]; try reflexivity.
  unfold VIDValue.fromString, VIDValue.VID_STRING_LENGTH, VIDValue.VID_STRING_REGEX,
    testBase32.
  destruct (Nat.eqb_spec (length (toUpperCase U (trim s))) 29%nat) as [Hl|Hl];
    cbn [negb]; [|reflexivity].
  rewrite Hl. reflexivity.
Qed.

Lemma constructed (x : jsval) (v : VIDValue) :
  VIDValue.constructor x = Returned v ->
  length (binary v) = 18%nat
  /\ VIDValue.constructor (VUint8Array (binary v)) = Returned v
  /\ VIDValue.constructor (VBuffer (binary v)) = Returned v.
Proof.
  intros Hc.
  assert (Hb : exists b, x = VUint8Array b \/ x = VBuffer b).
  { destruct x; try discriminate Hc; eauto. }
  destruct Hb as [b Hx].
  assert (Hc' : VIDValue.constructor (VUint8Array b) = Returned v)
    by (destruct Hx as [->| ->]; exact Hc).
  destruct (constructor_bytes b v Hc') as (Hbin & _).
  assert (Hlen : length b = 18%nat).
  { unfold VIDValue.constructor, asUint8Array, VIDValue.VID_BYTE_LENGTH in Hc'.
    destruct (Nat.eqb_spec (length b) 18%nat); [assumption|discriminate Hc']. }
  rewrite Hbin. auto.
Qed.

(** X22. PostgreSQL round trip. For a constructed identifier, given as the
    object or as its 18 bytes, [toDatabase] returns a [Buffer] with
    exactly the bytes of the identifier, and [fromDatabase] of that
    buffer returns the identifier: same bytes, same text. *)
Theorem postgres_round_trip (x : jsval) (v : VIDValue) (input : jsval) :
  VIDValue.constructor x = Returned v ->
  In input [VVIDValue v; VUint8Array (binary v); VBuffer (binary v)] ->
  VIDPostgresAdapter.toDatabase input = Returned (VBuffer (binary v))
  /\ VIDPostgresAdapter.fromDatabase (VBuffer (binary v)) = Returned v.
Proof.
  intros Hc Hin. destruct (constructed x v Hc) as (Hlen & _ & Hbuf).
  split.
  - unfold VIDPostgresAdapter.toDatabase, VIDPostgresAdapter.resolveToBytes,
      VIDPostgresAdapter.VID_BYTE_LENGTH.
    cbn [In] in Hin. destruct Hin as [<-|[<-|[<-|[]]]]; cbn [asUint8Array];
      rewrite ?Hlen, ?copy_id; reflexivity.
  - unfold VIDPostgresAdapter.fromDatabase, VIDPostgresAdapter.VID_BYTE_LENGTH,
      VIDValue.fromBinary.
    cbn [asUint8Array]. rewrite Hlen. exact Hbuf.
Qed.

Lemma postgres_round_trip_witness :
  VIDPostgresAdapter.toDatabase (VVIDValue exampleId) = Returned (VBuffer (binary exampleId))
  /\ VIDPostgresAdapter.fromDatabase (VBuffer (binary exampleId)) = Returned exampleId.
Proof.
  apply (postgres_round_trip (VUint8Array (binary exampleId))).
  - vm_compute. reflexivity.
  - left. reflexivity.
Defined.

(** X23. MongoDB round trip. For a constructed identifier, given as the
    object or as its 18 bytes, [toDatabase] returns a [Binary] of subtype
    0 holding exactly the bytes of the identifier, and [fromDatabase]
    (and [toVIDValue]) of that [Binary] returns the identifier. *)
Theorem mongo_round_trip (x : jsval) (v : VIDValue) (input : jsval) :
  VIDValue.constructor x = Returned v ->
  In input [VVIDValue v; VUint8Array (binary v); VBuffer (binary v)] ->
  exists stored,
    Mongo.toDatabase input = Returned stored
    /\ Mongo.buffer stored = binary v /\ Mongo.sub_type stored = 0
    /\ Mongo.fromDatabase (inl stored) = Returned v
    /\ Mongo.toVIDValue (inl stored) = Returned v.
Proof.
  intros Hc Hin. destruct (constructed x v Hc) as (Hlen & Harr & _).
  exists {| Mongo.buffer := binary v; Mongo.sub_type := Mongo.BSON_BINARY_SUBTYPE |}.
  split.
  - unfold Mongo.toDatabase, Mongo.resolveToBytes, Mongo.VID_BYTE_LENGTH.
    cbn [In] in Hin. destruct Hin as [<-|[<-|[<-|[]]]]; cbn [asUint8Array];
      rewrite ?Hlen, ?copy_id; reflexivity.
  - split; [reflexivity|]. split; [reflexivity|].
    unfold Mongo.toVIDValue, Mongo.fromDatabase, Mongo.VID_BYTE_LENGTH, VIDValue.fromBinary.
    cbn [Mongo.buffer]. rewrite Hlen. cbn [Nat.eqb negb]. split; exact Harr.
Qed.

Lemma mongo_round_trip_witness :
  exists stored,
    Mongo.toDatabase (VUint8Array (binary exampleId)) = Returned stored
    /\ Mongo.buffer stored = binary exampleId /\ Mongo.sub_type stored = 0
    /\ Mongo.fromDatabase (inl stored) = Returned exampleId
    /\ Mongo.toVIDValue (inl stored) = Returned exampleId.
Proof.
  apply (mongo_round_trip (VUint8Array (binary exampleId))).
  - vm_compute. reflexivity.
  - right. left. reflexivity.
Defined.

(** X24. The string entry points of the adapters never return.
    [VIDPostgresAdapter.fromString], [toCursor] and
    [VIDMongoAdapter.fromString] start with [VIDValue.fromString], whose
    length guard (29) and regular expression (26 characters) exclude each
    other: they throw [TypeError] on what is not a string, [RangeError] on
    a string whose trimmed, uppercased form is not 29 characters and
    [Error] on one of 29 characters, the text of a minted identifier
    included. *)
Theorem adapters_fromString_throw (U : jsstring -> jsstring) (input : jsval) :
  let e := match input with
           | VString s =>
               if (length (toUpperCase U (trim s)) =? 29)%nat then Error else RangeError
           | _ => TypeError
           end in
  VIDPostgresAdapter.fromString U input = Threw e
  /\ VIDPostgresAdapter.toCursor U input = Threw e
  /\ Mongo.fromString U input = Threw e.
Proof.
  unfold VIDPostgresAdapter.toCursor, VIDPostgresAdapter.fromString, Mongo.fromString.
  rewrite fromString_threw. cbn [bind]. auto.
Qed.

(** The text of the scenario's identifier is refused as a cursor. *)
Example toCursor_scenario :
  VIDPostgresAdapter.toCursor keepCase (VString (js "AEAYXT7FNAAGMVYAACBEKOJ47F7VK"))
  = Threw Error.
Proof. vm_compute. reflexivity. Qed.

(** ** VID: the facade *)

Section FacadeProperties.
Variable toNumber : jsstring -> number.
Variable env : NodeIdResolver.Env.

Lemma get_mapSet (keys : VIDVerifier.KeyMap) (k : Z) (v : jsval) (k' : Z) :
  VIDVerifier.get (VID.mapSet keys k v) k'
  = if k =? k' then Some v else VIDVerifier.get keys k'.
Proof.
  induction keys as [|[[z|] w] keys IH]; cbn [VID.mapSet VIDVerifier.get].
  - reflexivity.
  - destruct (Z.eqb_spec z k) as [->|Hzk]; cbn [VIDVerifier.get].
    + destruct (k =? k'); reflexivity.
    + rewrite IH. destruct (Z.eqb_spec z k') as [->|Hzk'].
      * destruct (Z.eqb_spec k k'); [congruence|reflexivity].
      * reflexivity.
  - exact IH.
Qed.

Lemma get_app_NonInt (keys : VIDVerifier.KeyMap) (v : jsval) (k : Z) :
  VIDVerifier.get (keys ++ [(NonInt, v)]) k = VIDVerifier.get keys k.
Proof.
  induction keys as [|[[z|] w] keys IH]; cbn [app VIDVerifier.get]; [reflexivity| |exact IH].
  destruct (z =? k); [reflexivity|exact IH].
Qed.

Lemma mapSet_derived (keys : VIDVerifier.KeyMap) (z : Z) (k : bytes) :
  Forall derivedEntry keys -> 0 <= z <= 255 -> length k = 32%nat ->
  Forall derivedEntry (VID.mapSet keys z (VUint8Array k)).
Proof.
  intros Hall Hz Hk.
  assert (Hnew : forall z', z' = z -> derivedEntry (Int z', VUint8Array k))
    by (intros z' ->; exists z, k; auto).
  induction Hall as [|[[z'|] w] keys Hentry Hall IH]; cbn [VID.mapSet].
  - constructor; [apply Hnew; reflexivity|constructor].
  - destruct (Z.eqb_spec z' z) as [E|_].
    + constructor; [apply Hnew, E|exact Hall].
    + constructor; assumption.
  - constructor; assumption.
Qed.

Lemma mapSet_not_nil (keys : VIDVerifier.KeyMap) (z : Z) (v : jsval) :
  VID.mapSet keys z v <> [].
Proof.
  destruct keys as [|[[z'|] w] keys]; cbn [VID.mapSet]; [discriminate| |discriminate].
  destruct (z' =? z); discriminate.
Qed.

(** The loop of the constructor on entries that [validateOptions] let
    through: it returns a map of derived keys that holds a key for every
    property name's number. *)
Lemma deriveKeys_spec (entries : list (jsstring * jsval)) :
  forall acc : VIDVerifier.KeyMap,
    VID.validateEntries toNumber entries = Returned tt ->
    Forall derivedEntry acc ->
    exists keys,
      VID.deriveKeys toNumber entries acc = Returned keys
      /\ Forall derivedEntry keys
      /\ (acc <> [] \/ entries <> [] -> keys <> [])
      /\ (forall cv,
            VIDVerifier.get acc cv <> None
            \/ (exists entry, In entry entries /\ toNumber (fst entry) = Int cv) ->
            VIDVerifier.get keys cv <> None).
Proof.
  induction entries as [|[versionKey rawSecret] entries IH]; intros acc Hv Hacc.
  - exists acc. split; [reflexivity|]. split; [exact Hacc|].
    split; [intros [Hn|Hn]; [exact Hn|contradiction]|].
    intros cv [Hc|(entry & [] & _)]. exact Hc.
  - cbn [VID.validateEntries] in Hv.
    destruct (VID.validateEntry toNumber (versionKey, rawSecret)) as [[]|e] eqn:Ee;
      [|discriminate Hv].
    cbn [bind] in Hv. unfold VID.validateEntry in Ee. cbn [fst snd] in Ee.
    cbn [VID.deriveKeys].
    destruct (toNumber versionKey) as [version|] eqn:En; [|discriminate Ee].
    unfold VID.MAX_KEY_VERSION in Ee.
    destruct (Z.ltb_spec version 0); [discriminate Ee|].
    destruct (Z.ltb_spec 255 version); [discriminate Ee|].
    cbn [orb] in Ee.
    destruct rawSecret as [| |secret|n|b|b|b|v|]; try discriminate Ee.
    cbn [VID.deriveKey bind].
    set (derived := Sha256.sha256 (utf8 secret)).
    destruct (IH (VID.mapSet acc version (VUint8Array derived)) Hv)
      as (keys & Hd & Hall & Hne & Hget).
    { apply mapSet_derived; [exact Hacc|lia|apply sha256_length]. }
    exists keys. split; [exact Hd|]. split; [exact Hall|].
    split; [intros _; apply Hne; left; apply mapSet_not_nil|].
    intros cv Hcv. apply Hget. rewrite get_mapSet.
    destruct (Z.eqb_spec version cv) as [->|Hne']; [left; discriminate|].
    destruct Hcv as [Hc|(entry & [<-|Hin] & Hn)].
    + left. exact Hc.
    + cbn [fst] in Hn. congruence.
    + right. eauto.
Qed.

Lemma derived_validateEntries (keys : VIDVerifier.KeyMap) :
  Forall derivedEntry keys -> VIDVerifier.validateEntries keys = Returned tt.
Proof.
  induction 1 as [|entry keys (z & k & -> & Hz & Hk) _ IH]; [reflexivity|].
  cbn [VIDVerifier.validateEntries]. unfold VIDVerifier.validateEntry.
  cbn [fst snd asUint8Array].
  destruct (Z.ltb_spec z 0); [lia|]. destruct (Z.ltb_spec 255 z); [lia|].
  cbn [orb]. rewrite Hk. cbn [Nat.eqb Nat.ltb Nat.leb bind]. exact IH.
Qed.

Lemma hasProperty_In (name : jsstring) (entries : list (jsstring * jsval)) :
  VID.hasProperty name entries = true -> exists entry, In entry entries /\ fst entry = name.
Proof.
  unfold VID.hasProperty. intros H. apply existsb_exists in H.
  destruct H as (entry & Hin & Hb). apply bool_decide_eq_true in Hb. eauto.
Qed.

(** What a returned [initialize] has checked and built. *)
Lemma initialize_inv (options : VID.VIDInitOptions) (this : VID.Instance) :
  VID.initialize toNumber env options = Returned this ->
  VIDVerifier.validateKeys (VID.this_keys this) = Returned tt
  /\ Forall derivedEntry (VID.this_keys this)
  /\ VID.currentKeyVersion options = Int (VID.this_currentKeyVersion this)
  /\ 0 <= VID.this_currentKeyVersion this <= 255
  /\ (exists r, NodeIdResolver.resolve env (VID.nodeId options) = Returned r
                /\ VID.this_nodeId this = NodeIdResolver.nodeId r)
  /\ (toNumber (VID.numberToString (VID.this_currentKeyVersion this))
      = Int (VID.this_currentKeyVersion this) ->
      VIDVerifier.get (VID.this_keys this) (VID.this_currentKeyVersion this) <> None).
Proof.
  unfold VID.initialize, VID.constructor. intros H.
  destruct (VID.validateOptions toNumber options) as [[]|e] eqn:Ev; [|discriminate H].
  cbn [bind] in H. unfold VID.validateOptions in Ev.
  destruct (Nat.eqb_spec (length (VID.keys options)) 0) as [_|Hne]; [discriminate Ev|].
  destruct (VID.validateEntries toNumber (VID.keys options)) as [[]|e] eqn:Ee;
    [|discriminate Ev].
  cbn [bind] in Ev.
  destruct (deriveKeys_spec (VID.keys options) [] Ee (List.Forall_nil _))
    as (keys & Hd & Hall & Hnil & Hget).
  rewrite Hd in H. cbn [bind] in H.
  destruct (VID.currentKeyVersion options) as [cv|]; [|discriminate H].
  unfold VID.MAX_KEY_VERSION in Ev.
  destruct (Z.ltb_spec cv 0); [discriminate Ev|].
  destruct (Z.ltb_spec 255 cv); [discriminate Ev|].
  cbn [orb] in Ev.
  destruct (VID.hasProperty (VID.numberToString cv) (VID.keys options)) eqn:Hp;
    [|discriminate Ev].
  destruct (NodeIdResolver.resolve env (VID.nodeId options)) as [r|e] eqn:Er;
    [|discriminate H].
  cbn [bind] in H. injection H as <-.
  cbn [VID.this_keys VID.this_currentKeyVersion VID.this_nodeId].
  assert (Hk : keys <> []).
  { apply Hnil. right. intros E. rewrite E in Hne. apply Hne. reflexivity. }
  split.
  { unfold VIDVerifier.validateKeys.
    destruct keys as [|entry keys]; [contradiction|].
    cbn [length Nat.eqb]. apply derived_validateEntries, Hall. }
  split; [exact Hall|]. split; [reflexivity|]. split; [lia|].
  split; [eauto|].
  intros Hnum. apply Hget. right.
  destruct (hasProperty_In _ _ Hp) as (entry & Hin & Hname).
  exists entry. split; [exact Hin|]. rewrite Hname. exact Hnum.
Qed.

Lemma mapSet_Forall (P : number * jsval -> Prop) (keys : VIDVerifier.KeyMap)
    (z : Z) (v : jsval) :
  Forall P keys -> P (Int z, v) -> Forall P (VID.mapSet keys z v).
Proof.
  intros Hall Hnew.
  induction Hall as [|[[z'|] w] keys Hentry Hall IH]; cbn [VID.mapSet].
  - constructor; [exact Hnew|constructor].
  - destruct (Z.eqb_spec z' z) as [->|_]; constructor; assumption.
  - constructor; assumption.
Qed.

(** What the loop of the constructor leaves under each version: the digest
    of the last raw secret whose property name is that version, and what
    the map held before where no property name is. *)
Lemma deriveKeys_get (entries : list (jsstring * jsval)) :
  forall (acc keys : VIDVerifier.KeyMap),
    VID.validateEntries toNumber entries = Returned tt ->
    VID.deriveKeys toNumber entries acc = Returned keys ->
    forall version,
      VIDVerifier.get keys version
      = match rawSecretOf toNumber entries version with
        | Some raw => derivedKeyOf (Some raw)
        | None => VIDVerifier.get acc version
        end.
Proof.
  induction entries as [|[versionKey rawSecret] entries IH]; intros acc keys Hv Hd version.
  - injection Hd as <-. reflexivity.
  - cbn [VID.validateEntries] in Hv.
    destruct (VID.validateEntry toNumber (versionKey, rawSecret)) as [[]|e] eqn:Ee;
      [|discriminate Hv].
    cbn [bind] in Hv. unfold VID.validateEntry in Ee. cbn [fst snd] in Ee.
    cbn [VID.deriveKeys] in Hd. cbn [rawSecretOf].
    destruct (toNumber versionKey) as [z|]; [|discriminate Ee].
    destruct ((z <? 0) || (VID.MAX_KEY_VERSION <? z)); [discriminate Ee|].
    destruct rawSecret as [| |secret|n|b|b|b|v|]; try discriminate Ee.
    cbn [VID.deriveKey bind] in Hd.
    rewrite (IH _ keys Hv Hd version).
    destruct (rawSecretOf toNumber entries version) as [later|]; [reflexivity|].
    rewrite get_mapSet. destruct (z =? version); reflexivity.
Qed.

(** Every entry the loop adds is the digest of a raw secret among the
    properties. *)
Lemma deriveKeys_digests (all entries : list (jsstring * jsval)) :
  forall (acc keys : VIDVerifier.KeyMap),
    (forall entry, In entry entries -> In entry all) ->
    Forall (digestEntry toNumber all) acc ->
    VID.validateEntries toNumber entries = Returned tt ->
    VID.deriveKeys toNumber entries acc = Returned keys ->
    Forall (digestEntry toNumber all) keys.
Proof.
  induction entries as [|[versionKey rawSecret] entries IH]; intros acc keys Hin Hacc Hv Hd.
  - injection Hd as <-. exact Hacc.
  - cbn [VID.validateEntries] in Hv.
    destruct (VID.validateEntry toNumber (versionKey, rawSecret)) as [[]|e] eqn:Ee;
      [|discriminate Hv].
    cbn [bind] in Hv. unfold VID.validateEntry in Ee. cbn [fst snd] in Ee.
    cbn [VID.deriveKeys] in Hd.
    destruct (toNumber versionKey) as [z|] eqn:En; [|discriminate Ee].
    destruct ((z <? 0) || (VID.MAX_KEY_VERSION <? z)); [discriminate Ee|].
    destruct rawSecret as [| |secret|n|b|b|b|v|]; try discriminate Ee.
    cbn [VID.deriveKey bind] in Hd.
    apply (IH _ keys (fun entry H => Hin entry (or_intror H))) in Hd; [exact Hd| |exact Hv].
    apply mapSet_Forall; [exact Hacc|].
    exists versionKey, z, secret.
    split; [apply Hin; left; reflexivity|]. split; [exact En|reflexivity].
Qed.

(** The keys of a returned [initialize] are what the loop made of the
    properties that [validateOptions] let through. *)
Lemma initialize_keys (options : VID.VIDInitOptions) (this : VID.Instance) :
  VID.initialize toNumber env options = Returned this ->
  VID.validateEntries toNumber (VID.keys options) = Returned tt
  /\ VID.deriveKeys toNumber (VID.keys options) [] = Returned (VID.this_keys this).
Proof.
  unfold VID.initialize, VID.constructor. intros H.
  destruct (VID.validateOptions toNumber options) as [[]|e] eqn:Ev; [|discriminate H].
  cbn [bind] in H. unfold VID.validateOptions in Ev.
  destruct (length (VID.keys options) =? 0)%nat; [discriminate Ev|].
  destruct (VID.validateEntries toNumber (VID.keys options)) as [[]|e];
    [|discriminate Ev].
  split; [reflexivity|].
  destruct (VID.deriveKeys toNumber (VID.keys options) []) as [keys|e]; [|discriminate H].
  cbn [bind] in H.
  destruct (VID.currentKeyVersion options) as [cv|]; [|discriminate H].
  destruct (NodeIdResolver.resolve env (VID.nodeId options)) as [r|e]; [|discriminate H].
  cbn [bind] in H. injection H as <-. reflexivity.
Qed.

(** X25. The keys of an instance that [initialize] returned are the SHA-256
    digests of the raw secrets: every entry of the map is the digest of
    the UTF-8 bytes of a property of [options.keys] under [Number] of that
    property's name, and the key under a version is the digest of the last
    raw secret whose name is that version (none where no name is). They are
    32 bytes each under versions within 0..255, and the verifier's
    [validateKeys] accepts them: [verify] and [verifyDetailed] of the
    instance never throw, whatever the input, and [verify] is the [valid]
    flag of [verifyDetailed]. *)
Theorem initialize_keys_accepted (U : jsstring -> jsstring)
    (options : VID.VIDInitOptions) (this : VID.Instance) (input : jsval) :
  VID.initialize toNumber env options = Returned this ->
  Forall derivedEntry (VID.this_keys this)
  /\ VIDVerifier.validateKeys (VID.this_keys this) = Returned tt
  /\ 0 <= VID.getCurrentKeyVersion this <= 255
  /\ (exists r,
        VID.verifyDetailed U this input = Returned r
        /\ VID.verify U this input = Returned (VIDVerifier.valid r))
  /\ Forall (digestEntry toNumber (VID.keys options)) (VID.this_keys this)
  /\ (forall version,
        VIDVerifier.get (VID.this_keys this) version
        = derivedKeyOf (rawSecretOf toNumber (VID.keys options) version)).
Proof.
  intros Hi. destruct (initialize_inv options this Hi) as (Hk & Hall & _ & Hcv & _).
  destruct (initialize_keys options this Hi) as (Hv & Hd).
  split; [exact Hall|]. split; [exact Hk|]. split; [exact Hcv|].
  split.
  { destruct (verifyDetailed_returns U input (VID.this_keys this) Hk) as (r & Hr & _).
    exists r. unfold VID.verifyDetailed, VID.verify, VIDVerifier.verify.
    rewrite Hk, Hr. auto. }
  split.
  - apply (deriveKeys_digests (VID.keys options) (VID.keys options) [] _
             (fun _ H => H) (List.Forall_nil _) Hv Hd).
  - intros version. rewrite (deriveKeys_get _ [] _ Hv Hd version).
    destruct (rawSecretOf toNumber (VID.keys options) version); reflexivity.
Qed.

(** What the facade's [generate] returned verifies under the facade's keys. *)
Lemma facade_generate_valid (U : jsstring -> jsstring) (this : VID.Instance)
    (s s' : Generator * World) (id : VIDValue) (input : jsval) :
  VIDVerifier.validateKeys (VID.this_keys this) = Returned tt ->
  VID.generate this s = Some (Returned id, s') ->
  In input (representations id) ->
  VIDVerifier.verifyDetailed U input (VID.this_keys this) = Returned VIDVerifier.Valid.
Proof.
  intros Hk Hg Hin. unfold VID.generate in Hg.
  destruct (generate_returned _ _ _ _ Hg)
    as (kv & nid & k & ts & sq & str & Hkv & Hr & Ek & Hlk & Hb & He & Hc).
  cbn [VIDGenerator.keyVersion VIDGenerator.secret] in Hkv, Ek.
  injection Hkv as Hkv.
  set (P := VIDGenerator.encodePayload kv ts nid sq) in *.
  assert (HlP : length P = 11%nat) by apply length_encodePayload.
  assert (Hlen : length (binary id) = 18%nat)
    by (rewrite Hb, length_app, signature_length, HlP; reflexivity).
  rewrite (verifyDetailed_binary U input _ (binary id) Hk
             (normalize_representation U id str input Hlen He Hc Hin) Hlen).
  assert (Hfirst : byteZ (nth 0 (binary id) x00) = kv)
    by (rewrite Hb; apply first_byte_of_payload, Hr).
  rewrite Hfirst, <- Hkv.
  destruct (VIDVerifier.get (VID.this_keys this) (VID.this_currentKeyVersion this))
    as [secret|]; [|discriminate Ek].
  change (asUint8Array secret = Some k) in Ek. rewrite Ek, Hb.
  assert (Ht : take 11 (P ++ take 7 (Sha256.hmacSha256 k P)) = P)
    by (rewrite <- HlP; apply take_app_length).
  assert (Hd : drop 11 (P ++ take 7 (Sha256.hmacSha256 k P)) = take 7 (Sha256.hmacSha256 k P))
    by (rewrite <- HlP; apply drop_app_length).
  rewrite Ht, Hd, bytes_eqb_refl. reflexivity.
Qed.

(** X26. End to end. An identifier that [generate] of an initialized facade
    returned, handed back in any of its forms, verifies under the same
    facade, and [parse] (which verifies first, by default) returns the
    facade's key version and node identifier with the timestamp and
    sequence of the call, provided the timestamp is at least
    1577836800000; below that, [parse] throws [RangeError] on an
    identifier that verifies. *)
Theorem facade_generate_verify_parse (U : jsstring -> jsstring)
    (options : VID.VIDInitOptions) (this : VID.Instance)
    (s s' : Generator * World) (id : VIDValue) (input : jsval) :
  VID.initialize toNumber env options = Returned this ->
  0 <= lastTimestamp (fst s) -> 0 <= sequence (fst s) ->
  VID.generate this s = Some (Returned id, s') ->
  In input (representations id) ->
  VID.verify U this input = Returned true
  /\ VID.verifyDetailed U this input = Returned VIDVerifier.Valid
  /\ VID.parse U this input None
     = if lastTimestamp (fst s') <? Parse.MIN_TIMESTAMP then Threw RangeError
       else Returned {| Parse.keyVersion := VID.getCurrentKeyVersion this;
                        Parse.timestamp := lastTimestamp (fst s');
                        Parse.date := Some (lastTimestamp (fst s'));
                        Parse.iso := isoText (lastTimestamp (fst s'));
                        Parse.nodeId := VID.getNodeId this;
                        Parse.sequence := sequence (fst s') |}.
Proof.
  intros Hi Hl Hs Hg Hin.
  destruct (initialize_inv options this Hi) as (Hk & _ & _ & Hcv & _ & _).
  pose proof (facade_generate_valid U this s s' id input Hk Hg Hin) as Hv.
  split; [unfold VID.verify, VIDVerifier.verify; rewrite Hk, Hv; reflexivity|].
  split; [exact Hv|].
  unfold VID.parse. cbn [VID.shouldVerify]. rewrite Hv. cbn [bind].
  unfold VID.generate in Hg.
  destruct (generate_spec _ s s' (Returned id) Hg Hl Hs) as (_ & _ & _ & Hid).
  destruct (Hid id eq_refl) as (kv & nid & k & Ev & Er & Ek & Hlk & Hb & Hts & Hsq & _).
  destruct (generate_returned _ _ _ _ Hg)
    as (kv' & nid' & k' & ts' & sq' & str & _ & _ & _ & _ & _ & He & Hc).
  destruct (validateConfig_inv _ _ Ev) as (Hkv & Hkvr & _).
  cbn [VIDGenerator.keyVersion VIDGenerator.nodeId] in Hkv, Er.
  injection Hkv as Hkv.
  pose proof (resolveNodeId_range _ _ Er) as Hnid.
  assert (Hn : nid = VID.this_nodeId this).
  { cbn [VIDGenerator.resolveNodeId] in Er.
    destruct ((VID.this_nodeId this <? 0) || (VIDGenerator.MAX_UINT16 <? VID.this_nodeId this));
      [discriminate Er|]. injection Er as <-. reflexivity. }
  set (ts := lastTimestamp (fst s')) in *. set (sq := sequence (fst s')) in *.
  assert (Hlen : length (binary id) = 18%nat)
    by (rewrite Hb, length_app, length_encodePayload, signature_length; reflexivity).
  rewrite (parse_binary U input (binary id)
             (parser_normalize_representation U id str input Hlen He Hc Hin) Hlen).
  destruct (parser_reads_payload kv ts nid sq
              (take 7 (Sha256.hmacSha256 k (VIDGenerator.encodePayload kv ts nid sq)))
              Hts Hsq) as [Pt Ps].
  destruct (parser_reads_ids kv ts nid sq
              (take 7 (Sha256.hmacSha256 k (VIDGenerator.encodePayload kv ts nid sq)))
              Hkvr Hnid) as [Pk Pn].
  rewrite <- Hb in Pt, Ps, Pk, Pn.
  unfold metadataOf, VID.getCurrentKeyVersion, VID.getNodeId.
  rewrite Pt, Ps, Pk, Pn, Hkv, Hn.
  destruct (ts <? Parse.MIN_TIMESTAMP); [reflexivity|].
  f_equal. f_equal. unfold JSDate.ofNumber, JSDate.MAX_TIME.
  unfold VIDGenerator.MAX_TIMESTAMP in Hts.
  destruct (Z.leb_spec (Z.abs ts) 8640000000000000); [reflexivity|lia].
Qed.

Lemma resolve_nodeId_range (explicitNodeId : option NodeId)
    (r : NodeIdResolver.NodeIdResolution) :
  0 <= NodeIdResolver.randomInt env <= 65535 ->
  NodeIdResolver.resolve env explicitNodeId = Returned r ->
  0 <= NodeIdResolver.nodeId r <= 65535.
Proof.
  intros Hrand Hr. unfold NodeIdResolver.resolve in Hr.
  destruct explicitNodeId as [[[z|]|s]|].
  - unfold NodeIdResolver.MAX_UINT16 in Hr.
    destruct (Z.ltb_spec z 0); [discriminate Hr|].
    destruct (Z.ltb_spec 65535 z); [discriminate Hr|].
    cbn [orb] in Hr. injection Hr as <-. cbn [NodeIdResolver.nodeId]. lia.
  - discriminate Hr.
  - destruct (length (trim s) =? 0)%nat; [discriminate Hr|]. injection Hr as <-.
    apply hashToUint16_range.
  - destruct (NodeIdResolver.nonBlank (NodeIdResolver.POD_IP env)) as [ip|];
      [injection Hr as <-; apply hashToUint16_range|].
    destruct (NodeIdResolver.nonBlank (NodeIdResolver.HOSTNAME env)) as [h|];
      [injection Hr as <-; apply hashToUint16_range|].
    injection Hr as <-. exact Hrand.
Qed.

(** X27. An initialized facade mints. With [Number] giving the current key
    version back from its decimal text and [crypto.randomInt] within its
    bounds, a call of [generate] that finds a reading of the clock within
    48 bits and room in the sequence returns an identifier; the instance
    then holds the later of the reading and its last timestamp. *)
Theorem facade_generate_returns (options : VID.VIDInitOptions) (this : VID.Instance)
    (g : Generator) (w w1 : World) (t : Z) :
  VID.initialize toNumber env options = Returned this ->
  toNumber (VID.numberToString (VID.this_currentKeyVersion this))
  = Int (VID.this_currentKeyVersion this) ->
  0 <= NodeIdResolver.randomInt env <= 65535 ->
  TimeUtils.now (g, w) = Some (Returned t, (g, w1)) ->
  lastTimestamp g < t \/ sequence g < 65535 ->
  Z.max t (lastTimestamp g) <= VIDGenerator.MAX_TIMESTAMP ->
  exists id g',
    VID.generate this (g, w) = Some (Returned id, (g', w1))
    /\ clockPair g'
       = (Z.max t (lastTimestamp g), if t <=? lastTimestamp g then sequence g + 1 else 0).
Proof.
  intros Hi Hnum Hrand Hnow Hroom Hmax.
  destruct (initialize_inv options this Hi)
    as (Hk & Hall & _ & Hcv & (r & Hr & Hnid) & Hget).
  specialize (Hget Hnum).
  destruct (VIDVerifier.get (VID.this_keys this) (VID.this_currentKeyVersion this))
    as [secret|] eqn:Eg; [|contradiction].
  destruct (validateEntries_get _ _ secret (validateKeys_entries _ Hk) Eg) as (k & Ek & Hlk).
  pose proof (resolve_nodeId_range _ r Hrand Hr) as Hrange. rewrite <- Hnid in Hrange.
  unfold VID.generate. rewrite Eg.
  change (default VUndefined (Some secret)) with secret.
  apply (generate_returns _ (VID.this_currentKeyVersion this) (VID.this_nodeId this));
    try assumption.
  - unfold VIDGenerator.validateConfig, VIDGenerator.MAX_UINT8.
    cbn [VIDGenerator.keyVersion VIDGenerator.secret].
    destruct (Z.ltb_spec (VID.this_currentKeyVersion this) 0); [lia|].
    destruct (Z.ltb_spec 255 (VID.this_currentKeyVersion this)); [lia|].
    cbn [orb]. rewrite Ek.
    destruct (Nat.eqb_spec (length k) 0); [lia|].
    destruct (Nat.ltb_spec (length k) 32); [lia|]. reflexivity.
  - cbn [VIDGenerator.nodeId VIDGenerator.resolveNodeId]. unfold VIDGenerator.MAX_UINT16.
    destruct (Z.ltb_spec (VID.this_nodeId this) 0); [lia|].
    destruct (Z.ltb_spec 65535 (VID.this_nodeId this)); [lia|]. reflexivity.
Qed.

End FacadeProperties.

Lemma initialize_keys_accepted_witness :
  Forall derivedEntry (VID.this_keys exampleInstance)
  /\ VIDVerifier.validateKeys (VID.this_keys exampleInstance) = Returned tt
  /\ 0 <= VID.getCurrentKeyVersion exampleInstance <= 255
  /\ (exists r,
        VID.verifyDetailed keepCase exampleInstance (VString (js "not-base32!!")) = Returned r
        /\ VID.verify keepCase exampleInstance (VString (js "not-base32!!"))
           = Returned (VIDVerifier.valid r))
  /\ Forall (digestEntry decimalNumber (VID.keys exampleOptions))
            (VID.this_keys exampleInstance)
  /\ (forall version,
        VIDVerifier.get (VID.this_keys exampleInstance) version
        = derivedKeyOf (rawSecretOf decimalNumber (VID.keys exampleOptions) version)).
Proof.
  apply (initialize_keys_accepted decimalNumber exampleEnv keepCase exampleOptions).
  vm_compute. reflexivity.
Defined.

Lemma facade_generate_verify_parse_witness :
  VID.verify keepCase exampleInstance (VString (js "AEAYXT7FNAAGMVYAAAA4QNF3G3Y2Y"))
  = Returned true
  /\ VID.verifyDetailed keepCase exampleInstance
       (VString (js "AEAYXT7FNAAGMVYAAAA4QNF3G3Y2Y")) = Returned VIDVerifier.Valid
  /\ VID.parse keepCase exampleInstance (VString (js "AEAYXT7FNAAGMVYAAAA4QNF3G3Y2Y")) None
     = if 1700000000000 <? Parse.MIN_TIMESTAMP then Threw RangeError
       else Returned {| Parse.keyVersion := VID.getCurrentKeyVersion exampleInstance;
                        Parse.timestamp := 1700000000000;
                        Parse.date := Some 1700000000000;
                        Parse.iso := isoText 1700000000000;
                        Parse.nodeId := VID.getNodeId exampleInstance;
                        Parse.sequence := 0 |}.
Proof.
  apply (facade_generate_verify_parse decimalNumber exampleEnv keepCase exampleOptions
           exampleInstance (VIDGenerator.new, exampleWorld)
           ({| lastTimestamp := 1700000000000; sequence := 0 |},
            {| provider := Some [1700000000000; 1700000000001]; date := [] |})
           {| binary := hex "01018bcfe568006657000001c834bb36f1ac";
              _cachedString := Some (js "AEAYXT7FNAAGMVYAAAA4QNF3G3Y2Y") |}).
  - vm_compute. reflexivity.
  - vm_compute. discriminate.
  - vm_compute. discriminate.
  - vm_compute. reflexivity.
  - vm_compute. auto 6.
Defined.

Lemma facade_generate_returns_witness :
  exists id g',
    VID.generate exampleInstance (VIDGenerator.new, exampleWorld)
    = Some (Returned id,
            (g', {| provider := Some [1700000000000; 1700000000001]; date := [] |}))
    /\ clockPair g'
       = (Z.max 1700000000000 (lastTimestamp VIDGenerator.new),
          if 1700000000000 <=? lastTimestamp VIDGenerator.new
          then sequence VIDGenerator.new + 1 else 0).
Proof.
  apply (facade_generate_returns decimalNumber exampleEnv exampleOptions).
  - vm_compute. reflexivity.
  - vm_compute. reflexivity.
  - vm_compute. split; discriminate.
  - vm_compute. reflexivity.
  - left. vm_compute. reflexivity.
  - vm_compute. discriminate.
Defined.

(** ** Uniqueness *)

(** The pairs embedded in the identifiers a run of calls returns go
    strictly up, whatever the configurations are. *)
Lemma generateEach_pairs (configs : list VIDGenerator.VIDGeneratorConfig) :
  forall s : Generator * World,
    0 <= lastTimestamp (fst s) -> 0 <= sequence (fst s) ->
    StronglySorted pairLt
      (map embeddedPair (returned (VIDGenerator.generateEach configs s)))
    /\ Forall (fun id => pairLt (clockPair (fst s)) (embeddedPair id))
         (returned (VIDGenerator.generateEach configs s)).
Proof.
  induction configs as [|config configs IH]; intros s Hl Hs.
  - cbn. repeat constructor.
  - cbn [VIDGenerator.generateEach].
    destruct (VIDGenerator.generate config s) as [[r s1]|] eqn:E;
      [|cbn; repeat constructor].
    destruct (generate_spec _ _ _ _ E Hl Hs) as (Hst & Hl1 & Hs1 & _).
    destruct (IH s1 Hl1 Hs1) as (IH2 & IH3).
    assert (Hup : forall id, pairLt (clockPair (fst s1)) (embeddedPair id) ->
                             pairLt (clockPair (fst s)) (embeddedPair id)).
    { intros id Hid. destruct Hst as [Heq|Hlt]; [rewrite <- Heq; exact Hid|].
      eapply pairLt_trans; eassumption. }
    unfold returned in *. cbn [flat_map]. destruct r as [id|e]; cbn [app].
    + destruct (mintedBy_generate _ _ _ _ E Hl Hs) as (_ & Hp & Hlt).
      cbn [map]. split.
      * constructor; [exact IH2|]. rewrite Hp. apply Forall_map. exact IH3.
      * constructor; [rewrite Hp; exact Hlt|].
        eapply Forall_impl; [exact IH3|exact Hup].
    + split; [exact IH2|]. eapply Forall_impl; [exact IH3|exact Hup].
Qed.

Lemma sorted_pairs_NoDup (ps : list (Z * Z)) : StronglySorted pairLt ps -> NoDup ps.
Proof.
  induction 1 as [|p ps _ IH Hall]; constructor; [|exact IH].
  intros Hin. rewrite Forall_forall in Hall. specialize (Hall p Hin).
  unfold pairLt in Hall. lia.
Qed.

(** X28. The identifiers that successive calls of [generate] on one
    instance return are pairwise different, whatever the clock reads and
    even when the key version, the secret or the node identifier changes
    from call to call: their (timestamp, sequence) pairs go strictly up. *)
Theorem generate_unique (configs : list VIDGenerator.VIDGeneratorConfig) (w : World) :
  StronglySorted pairLt
    (map embeddedPair (returned (VIDGenerator.generateEach configs (VIDGenerator.new, w))))
  /\ NoDup (map binary (returned (VIDGenerator.generateEach configs (VIDGenerator.new, w)))).
Proof.
  destruct (generateEach_pairs configs (VIDGenerator.new, w)) as [Hs _];
    [cbn; lia|cbn; lia|].
  split; [exact Hs|].
  apply sorted_pairs_NoDup in Hs.
  set (ids := returned _) in *. clearbody ids.
  assert (Hmap : map embeddedPair ids
                 = map (fun b => (VIDParser.timestamp b, VIDParser.sequence b))
                       (map binary ids))
    by (rewrite map_map; reflexivity).
  rewrite Hmap in Hs. eapply NoDup_fmap_1. exact Hs.
Qed.

(** ** VIDValue.toBinary over the store *)

(** X29. [toBinary] returns a new array on every call: a location the store
    did not have, holding the bytes of the object, and a store into the
    returned array leaves the object's own bytes as they were. *)
Theorem toBinary_returns_a_copy (h : Heap.store) (v : Heap.VIDValueObject) (i : nat)
    (x : byte) :
  (Heap.binaryRef v < length h)%nat ->
  (fst (Heap.toBinary h v) <> Heap.binaryRef v
   /\ h !! fst (Heap.toBinary h v) = None)
  /\ Heap.read (snd (Heap.toBinary h v)) (fst (Heap.toBinary h v))
     = Heap.read h (Heap.binaryRef v)
  /\ Heap.read (Heap.write (snd (Heap.toBinary h v)) (fst (Heap.toBinary h v)) i x)
               (Heap.binaryRef v)
     = Heap.read h (Heap.binaryRef v).
Proof.
  intros Hr. pose proof (heap_toBinary_fresh h v i x Hr) as H.
  destruct (Heap.toBinary h v) as [r' h']. cbn [fst snd].
  destruct H as (-> & H1 & H2).
  split; [split; [lia|apply lookup_ge_None_2; lia]|]. split; assumption.
Qed.

Lemma toBinary_returns_a_copy_witness :
  (fst (Heap.toBinary [replicate 18 x00] {| Heap.binaryRef := 0; Heap.cachedString := None |})
   <> 0%nat
   /\ [replicate 18 x00]
      !! fst (Heap.toBinary [replicate 18 x00]
                {| Heap.binaryRef := 0; Heap.cachedString := None |}) = None)
  /\ Heap.read (snd (Heap.toBinary [replicate 18 x00]
                       {| Heap.binaryRef := 0; Heap.cachedString := None |}))
               (fst (Heap.toBinary [replicate 18 x00]
                       {| Heap.binaryRef := 0; Heap.cachedString := None |}))
     = Heap.read [replicate 18 x00] 0
  /\ Heap.read (Heap.write (snd (Heap.toBinary [replicate 18 x00]
                                   {| Heap.binaryRef := 0; Heap.cachedString := None |}))
                           (fst (Heap.toBinary [replicate 18 x00]
                                   {| Heap.binaryRef := 0; Heap.cachedString := None |}))
                           0 xff)
               0
     = Heap.read [replicate 18 x00] 0.
Proof.
  apply (toBinary_returns_a_copy [replicate 18 x00]
           {| Heap.binaryRef := 0; Heap.cachedString := None |} 0 xff).
  cbn. lia.
Defined.
